(** * A command-execution engine of an interactive shell

    Shallow embedding of the tokenizer ([parser.c]), the built-in handlers
    ([builtins.c], [history.c]) and the dispatcher, redirection resolver,
    process launcher and pipeline executor ([executor.c]) of the shell, and
    of the session around them (the history file of [history.c], the prompt
    and the reading of lines of [utils.c], the loop and [main] of [main.c]),
    over an explicit model of the part of the operating system these
    functions talk to: the descriptor table of the shell process, and the
    chronological trace of the system calls and diagnostics it issues.

    The POSIX branches of the [#ifdef _WIN32] alternatives are modelled. *)

From Stdlib Require Import ZArith String Ascii List Lia.
From stdpp Require Import base option list gmap strings.

Local Open Scope Z_scope.

(** [simpl] may unfold string concatenation on a constructor. *)
#[local] Arguments String.append !_ _ : simpl nomatch.

(* ===================================================================== *)
(** * C strings and argument arrays                                        *)
(* ===================================================================== *)

Module CStr.

(** A [char *] is modelled by the [string] it points to.  The terminating
    NUL is implicit; a NUL *inside* a [string] ends the C string early, as
    it does for every [<string.h>] function. *)
Definition NUL : ascii := "000"%char.

Definition chr (c : ascii) : string := String c EmptyString.

Definition QUOTE : string := chr "034".
Definition NL : string := chr "010".
Definition ESC : string := chr "027".

(** [strchr(set, c) != NULL] for a character [c] other than NUL. *)
Fixpoint strchr (set : string) (c : ascii) : bool :=
  match set with
  | EmptyString => false
  | String d set' => if Ascii.eqb c d then true else strchr set' c
  end.

(** [strcmp(a, b) == 0] *)
Definition streq (a b : string) : bool := String.eqb a b.

(** The bytes of a buffer that a C function sees: those before the first
    NUL. *)
Fixpoint c_str (s : string) : string :=
  match s with
  | EmptyString => EmptyString
  | String c s' => if Ascii.eqb c NUL then EmptyString else String c (c_str s')
  end.

End CStr.
Import CStr.

(** A [char **] argument array: a list of cells, [None] being the NULL
    pointer.  A well-formed array is a run of tokens closed by NULL. *)
Abbreviation cells := (list (option string)).

Definition mk_args (toks : list string) : cells := (Some <$> toks) ++ [None].

(** [a[i]].  Every loop of the program stops at the first NULL it meets
    going right, and reads at most one cell past a non-NULL one, so on a
    NULL-closed array no read is out of range; the default only makes the
    function total. *)
Definition cell (a : cells) (i : nat) : option string := default None (a !! i).

(** The argument vector a callee sees when handed the pointer [&a[off]]:
    the tokens from [off] up to the first NULL. *)
Fixpoint argv_of (a : cells) : list string :=
  match a with
  | Some t :: a' => t :: argv_of a'
  | _ => []
  end.

Definition argv_at (a : cells) (off : nat) : list string := argv_of (drop off a).

(* ===================================================================== *)
(** * parser.c                                                             *)
(* ===================================================================== *)

Module Parser.

Definition MAX_ARGS : Z := 64.

(** [#define DELIMITERS " \t\r\n\a"] *)
Definition DELIMITERS : string :=
  String " "%char (String "009" (String "013" (String "010" (String "007" EmptyString)))).

Definition is_delim (c : ascii) : bool := strchr DELIMITERS c.

(** First phase of [strtok]: step over leading delimiters ([strspn]). *)
Fixpoint skip_delims (s : string) : string :=
  match s with
  | EmptyString => EmptyString
  | String c s' =>
      if Ascii.eqb c NUL then EmptyString
      else if is_delim c then skip_delims s' else s
  end.

(** Second phase of [strtok]: the token runs to the next delimiter, which is
    overwritten with NUL and stepped over, or to the end of the string.
    Returns the token and the saved position. *)
Fixpoint scan_token (s : string) : string * string :=
  match s with
  | EmptyString => (EmptyString, EmptyString)
  | String c s' =>
      if Ascii.eqb c NUL then (EmptyString, EmptyString)
      else if is_delim c then (EmptyString, s')
      else let '(t, r) := scan_token s' in (String c t, r)
  end.

(** [strtok(s, DELIMITERS)], with the library's hidden save pointer made
    explicit: the result is the token (or NULL) and the new save pointer. *)
Definition strtok (s : string) : option string * string :=
  match skip_delims s with
  | EmptyString => (None, EmptyString)
  | s1 => let '(t, r) := scan_token s1 in (Some t, r)
  end.

(** The [while (token != NULL)] loop.  [tokens] are the cells written so
    far, so [position] is their number; [bufsize] is the capacity of the
    buffer, grown by [realloc].  [malloc]/[realloc] are taken to succeed
    (their failure ends the process).  Every round consumes at least one
    character of the line, which bounds the number of rounds. *)
Fixpoint parse_loop (fuel : nat) (token : option string) (save : string)
    (tokens : list string) (bufsize : Z) : list string * Z :=
  match fuel, token with
  | S fuel', Some t =>
      let tokens := tokens ++ [t] in
      let position := Z.of_nat (length tokens) in
      let bufsize := if position >=? bufsize then bufsize + MAX_ARGS else bufsize in
      let '(token', save') := strtok save in
      parse_loop fuel' token' save' tokens bufsize
  | _, _ => (tokens, bufsize)
  end.

Definition parse_input (line : string) : cells :=
  let bufsize := MAX_ARGS in
  let '(token, save) := strtok line in
  let '(tokens, _) := parse_loop (String.length line) token save [] bufsize in
  mk_args tokens.

End Parser.

(* ===================================================================== *)
(** * The operating system, as seen by the shell process                   *)
(* ===================================================================== *)

Module Sys.

(** The two flag sets the program passes to [open]/[fopen]:
    [O_RDONLY] (and ["r"], ["rb"]) and [O_WRONLY | O_CREAT | O_TRUNC]
    (and ["wb"]). *)
Inductive oflag := O_RDONLY | O_WRONLY_CREAT_TRUNC.

(** What a descriptor is bound to (an open file description).  [serial]
    tells apart the descriptions made by different calls. *)
Inductive target :=
  | Tty (n : nat)
  | File (path : string) (fl : oflag) (serial : nat)
  | PipeRd (serial : nat)
  | PipeWr (serial : nat).

Inductive parg := PInt (z : Z) | PStr (s : string).

(** The observable actions, in the order they happen.  [EvExec] is the
    [execvp] of a forked child, with the bindings of its descriptors 0 and 1
    at that moment; the diagnostics of a child land in the same trace. *)
Inductive event :=
  | EvOpen (path : option string) (fl : oflag) (res : Z)
  | EvPipe (res : option (Z * Z))
  | EvFork (ok : bool)
  | EvExec (file : option string) (argv : list string)
           (cin cout : option target) (ok : bool)
  | EvWait
  | EvPerror (prefix : string)
  | EvStderr (msg : string)
  | EvPrintf (fmt : string) (args : list parg)
  | EvChdir (path : string) (ok : bool)
  | EvRename (old new : string) (ok : bool)
  | EvRemove (path : string) (ok : bool)
  | EvWrite (fd : Z) (bytes : list ascii).

(** The environment decides what the program cannot: whether a file can be
    opened, a process created, a program found.  Each answer may depend on
    everything that happened before. *)
Record env := Env {
  nofile : nat;                        (* RLIMIT_NOFILE *)
  open_ok : list event → string → oflag → bool;
  pipe_ok : list event → bool;
  fork_ok : list event → bool;
  exec_ok : list event → string → list string → bool;
  chdir_ok : list event → string → bool;
  rename_ok : list event → string → string → bool;
  remove_ok : list event → string → bool;
  file_bytes : list event → string → list ascii;
}.

(** State of the shell process: its descriptor table, the trace so far,
    and the global [history] array of history.c ([history_count] is its
    length). *)
Record world := World {
  fds : gmap nat target;
  trace : list event;
  history : list string;
}.

Definition emit (e : event) (w : world) : world :=
  World (fds w) (trace w ++ [e]) (history w).

Definition set_fds (t : gmap nat target) (w : world) : world :=
  World t (trace w) (history w).

Definition set_history (h : list string) (w : world) : world :=
  World (fds w) (trace w) h.

(** Descriptors are the non-negative [int]s; the table is keyed by their
    value, and a negative [int] names no descriptor. *)
Definition tbl_get (t : gmap nat target) (fd : Z) : option target :=
  if fd <? 0 then None else t !! Z.to_nat fd.

Definition is_free (t : gmap nat target) (fd : nat) : bool :=
  match t !! fd with None => true | Some _ => false end.

(** The lowest-numbered descriptor not in use, below the limit. *)
Definition lowest_free (E : env) (t : gmap nat target) : option nat :=
  List.find (is_free t) (seq 0 (nofile E)).

(** ** On a descriptor table (the shell's, or a child's copy) *)

(** [dup]: EBADF for an unbound [oldfd], EMFILE for a full table. *)
Definition tbl_dup (E : env) (t : gmap nat target) (oldfd : Z) : gmap nat target * Z :=
  match tbl_get t oldfd with
  | None => (t, -1)
  | Some tg =>
      match lowest_free E t with
      | None => (t, -1)
      | Some fd => (<[fd := tg]> t, Z.of_nat fd)
      end
  end.

(** [dup2]: EBADF for an unbound [oldfd], and then [newfd] is left as it
    was.  ([newfd] is 0 or 1 throughout the program.) *)
Definition tbl_dup2 (t : gmap nat target) (oldfd newfd : Z) : gmap nat target * Z :=
  match tbl_get t oldfd with
  | None => (t, -1)
  | Some tg => (<[Z.to_nat newfd := tg]> t, newfd)
  end.

(** [close]: EBADF for an unbound descriptor. *)
Definition tbl_close (t : gmap nat target) (fd : Z) : gmap nat target * Z :=
  match tbl_get t fd with
  | None => (t, -1)
  | Some _ => (delete (Z.to_nat fd) t, 0)
  end.

(** ** On the shell process *)

Definition sys_dup (E : env) (w : world) (oldfd : Z) : world * Z :=
  let '(t, r) := tbl_dup E (fds w) oldfd in (set_fds t w, r).

Definition sys_dup2 (w : world) (oldfd newfd : Z) : world * Z :=
  let '(t, r) := tbl_dup2 (fds w) oldfd newfd in (set_fds t w, r).

Definition sys_close (w : world) (fd : Z) : world * Z :=
  let '(t, r) := tbl_close (fds w) fd in (set_fds t w, r).

(** [open]: EFAULT for a NULL path, whatever the environment refuses, and
    EMFILE for a full table. *)
Definition sys_open (E : env) (w : world) (path : option string) (fl : oflag)
    : world * Z :=
  match path with
  | None => (emit (EvOpen None fl (-1)) w, -1)
  | Some p =>
      if open_ok E (trace w) p fl then
        match lowest_free E (fds w) with
        | Some fd =>
            let tg := File p fl (length (trace w)) in
            (emit (EvOpen path fl (Z.of_nat fd)) (set_fds (<[fd := tg]> (fds w)) w),
             Z.of_nat fd)
        | None => (emit (EvOpen path fl (-1)) w, -1)
        end
      else (emit (EvOpen path fl (-1)) w, -1)
  end.

(** [pipe]: both ends take the two lowest free descriptors. *)
Definition sys_pipe (E : env) (w : world) : world * option (Z * Z) :=
  if pipe_ok E (trace w) then
    match lowest_free E (fds w) with
    | Some r =>
        let t := <[r := PipeRd (length (trace w))]> (fds w) in
        match lowest_free E t with
        | Some wr =>
            let t := <[wr := PipeWr (length (trace w))]> t in
            let ends := (Z.of_nat r, Z.of_nat wr) in
            (emit (EvPipe (Some ends)) (set_fds t w), Some ends)
        | None => (emit (EvPipe None) w, None)
        end
    | None => (emit (EvPipe None) w, None)
    end
  else (emit (EvPipe None) w, None).

(** [fork], seen from the parent: [true] when a child exists. *)
Definition sys_fork (E : env) (w : world) : world * bool :=
  let ok := fork_ok E (trace w) in (emit (EvFork ok) w, ok).

(** How a call of [execvp] ends for the child that makes it: the program
    runs in the place of the child; or the call returns -1; or the child is
    killed inside the call. *)
Inductive exec_end := Runs | Fails | Killed.

(** [execvp(file, argv)] in a child whose descriptor table is [ct].  With
    a NULL [file] the library reads through the null pointer and the child
    is killed by the signal: the call does not return.  The flag of the
    event tells whether the program runs. *)
Definition sys_execvp (E : env) (w : world) (ct : gmap nat target)
    (file : option string) (argv : list string) : world * exec_end :=
  match file with
  | None => (emit (EvExec None argv (tbl_get ct 0) (tbl_get ct 1) false) w, Killed)
  | Some f =>
      let ok := exec_ok E (trace w) f argv in
      (emit (EvExec file argv (tbl_get ct 0) (tbl_get ct 1) ok) w,
       if ok then Runs else Fails)
  end.

(** [wait]/[waitpid] until a child has ended.  Launched programs are taken
    to end; one that never does blocks the shell in the source too. *)
Definition sys_wait (w : world) : world := emit EvWait w.

Definition perror (prefix : string) (w : world) : world := emit (EvPerror prefix) w.

Definition eprint (msg : string) (w : world) : world := emit (EvStderr msg) w.

Definition printf (fmt : string) (args : list parg) (w : world) : world :=
  emit (EvPrintf fmt args) w.

End Sys.
Import Sys.

(* ===================================================================== *)
(** * history.c                                                            *)
(* ===================================================================== *)

Module History.

Definition HISTORY_SIZE : nat := 100.

Definition add_history (line : string) (w : world) : world :=
  let h := history w in
  if (length h <? HISTORY_SIZE)%nat then set_history (h ++ [c_str line]) w
  else set_history (drop 1 h ++ [c_str line]) w.

Fixpoint print_history_from (i : Z) (h : list string) (w : world) : world :=
  match h with
  | [] => w
  | l :: h' =>
      print_history_from (i + 1) h' (printf ("%d %s" +:+ NL) [PInt (i + 1); PStr l] w)
  end.

Definition print_history (w : world) : world := print_history_from 0 (history w) w.

End History.

(* ===================================================================== *)
(** * builtins.c                                                           *)
(* ===================================================================== *)

Module Builtins.

Definition handler := env → world → cells → world * Z.

Definition builtin_str : list string :=
  ["cd"; "exit"; "help"; "clear"; "about"; "history"; "count"; "cp"; "mv"; "rm"].

Definition shell_num_builtins : nat := length builtin_str.

Definition shell_cd : handler := λ E w args,
  match cell args 1 with
  | None => (eprint ("shell: expected argument to " +:+ QUOTE +:+ "cd" +:+ QUOTE +:+ NL) w, 1)
  | Some dir =>
      let ok := chdir_ok E (trace w) dir in
      let w := emit (EvChdir dir ok) w in
      if ok then (w, 1) else (perror "shell" w, 1)
  end.

Definition shell_exit : handler := λ E w args, (w, 0).

Fixpoint print_names (names : list string) (w : world) : world :=
  match names with
  | [] => w
  | n :: names' => print_names names' (printf ("  %s" +:+ NL) [PStr n] w)
  end.

Definition shell_help : handler := λ E w args,
  let w := printf ("Custom Shell Help" +:+ NL) [] w in
  let w := printf ("Type program names and arguments, and hit enter." +:+ NL) [] w in
  let w := printf ("The following are built in:" +:+ NL) [] w in
  let w := print_names builtin_str w in
  let w := printf ("Use the man command for information on other programs." +:+ NL) [] w in
  (w, 1).

Definition shell_clear : handler := λ E w args,
  (printf (ESC +:+ "[H" +:+ ESC +:+ "[J") [] w, 1).

Definition shell_about : handler := λ E w args,
  let w := printf ("Custom Shell v1.0" +:+ NL) [] w in
  let w := printf ("Developed for the Terminal Project." +:+ NL) [] w in
  (w, 1).

Definition shell_history : handler := λ E w args, (History.print_history w, 1).

(** The value an [int] takes: 32 bits, in two's complement.  An increment
    past 2^31 - 1 comes out as -2^31 (what the machine addition does; the
    language leaves the overflow undefined). *)
Definition wrap_int (z : Z) : Z := (z + 2 ^ 31) mod 2 ^ 32 - 2 ^ 31.

#[global] Arguments wrap_int : simpl never.

(** The [fgetc] loop of [shell_count].  The byte is stored in a [char]
    before it is compared with [EOF], so (where [char] is signed) the byte
    255 ends the loop like the end of the file does.  The three counters
    are [int]s. *)
Fixpoint count_loop (bytes : list ascii) (lines words chars state : Z) : Z * Z * Z :=
  match bytes with
  | [] => (lines, words, chars)
  | c :: rest =>
      if Ascii.eqb c "255" then (lines, words, chars)
      else
        let chars := wrap_int (chars + 1) in
        let lines := if Ascii.eqb c "010" then wrap_int (lines + 1) else lines in
        if Ascii.eqb c " " || Ascii.eqb c "010" || Ascii.eqb c "009"
        then count_loop rest lines words chars 0
        else if state =? 0 then count_loop rest lines (wrap_int (words + 1)) chars 1
        else count_loop rest lines words chars state
  end.

Definition shell_count : handler := λ E w args,
  match cell args 1 with
  | None => (eprint ("shell: expected argument to " +:+ QUOTE +:+ "count" +:+ QUOTE +:+ NL) w, 1)
  | Some file =>
      let bytes := file_bytes E (trace w) file in
      let '(w, fp) := sys_open E w (Some file) O_RDONLY in
      if fp <? 0 then (perror "shell" w, 1)
      else
        let '(lines, words, chars) := count_loop bytes 0 0 0 0 in
        let w := printf ("Lines: %d" +:+ NL) [PInt lines] w in
        let w := printf ("Words: %d" +:+ NL) [PInt words] w in
        let w := printf ("Chars: %d" +:+ NL) [PInt chars] w in
        let '(w, _) := sys_close w fp in
        (w, 1)
  end.

(** The [fread]/[fwrite] loop of [shell_cp], 1024 bytes a round. *)
Fixpoint copy_loop (fuel : nat) (dst : Z) (rest : list ascii) (w : world) : world :=
  match fuel with
  | O => w
  | S fuel' =>
      let buffer := take 1024 rest in
      if (0 <? length buffer)%nat
      then copy_loop fuel' dst (drop 1024 rest) (emit (EvWrite dst buffer) w)
      else w
  end.

Definition shell_cp : handler := λ E w args,
  match cell args 1, cell args 2 with
  | Some from, Some to =>
      let '(w, src) := sys_open E w (Some from) O_RDONLY in
      if src <? 0 then (perror "shell" w, 1)
      else
        let '(w, dst) := sys_open E w (Some to) O_WRONLY_CREAT_TRUNC in
        if dst <? 0 then
          let '(w, _) := sys_close w src in
          (perror "shell" w, 1)
        else
          (* the first [fread] comes after both [fopen]s: the source is
             read as it is once the destination has been truncated *)
          let bytes := file_bytes E (trace w) from in
          let w := copy_loop (S (length bytes)) dst bytes w in
          let '(w, _) := sys_close w src in
          let '(w, _) := sys_close w dst in
          (w, 1)
  | _, _ =>
      (eprint ("shell: expected source and destination for "
               +:+ QUOTE +:+ "cp" +:+ QUOTE +:+ NL) w, 1)
  end.

Definition shell_mv : handler := λ E w args,
  match cell args 1, cell args 2 with
  | Some old, Some new =>
      let ok := rename_ok E (trace w) old new in
      let w := emit (EvRename old new ok) w in
      if ok then (w, 1) else (perror "shell" w, 1)
  | _, _ =>
      (eprint ("shell: expected source and destination for "
               +:+ QUOTE +:+ "mv" +:+ QUOTE +:+ NL) w, 1)
  end.

Definition shell_rm : handler := λ E w args,
  match cell args 1 with
  | None => (eprint ("shell: expected argument to " +:+ QUOTE +:+ "rm" +:+ QUOTE +:+ NL) w, 1)
  | Some file =>
      let ok := remove_ok E (trace w) file in
      let w := emit (EvRemove file ok) w in
      if ok then (w, 1) else (perror "shell" w, 1)
  end.

Definition builtin_func : list handler :=
  [shell_cd; shell_exit; shell_help; shell_clear; shell_about;
   shell_history; shell_count; shell_cp; shell_mv; shell_rm].

End Builtins.

(* ===================================================================== *)
(** * executor.c                                                           *)
(* ===================================================================== *)

Module Executor.

Import Builtins.

Section WithEnv.

Variable E : env.

(** The child of [launch_process] and of [execute_pipeline]: [execvp], and
    when it returns (-1) [perror] and [exit(EXIT_FAILURE)]; a child killed
    inside [execvp] reports nothing.  A child works on its own copy [ct] of
    the descriptor table; the shell's is not touched. *)
Definition child_exec (prefix : string) (ct : gmap nat target)
    (file : option string) (argv : list string) (w : world) : world :=
  let '(w, e) := sys_execvp E w ct file argv in
  match e with
  | Fails => perror prefix w
  | Runs | Killed => w
  end.

Definition launch_process (w : world) (args : cells) : world * Z :=
  let '(w, forked) := sys_fork E w in
  if forked then
    let w := child_exec "shell" (fds w) (cell args 0) (argv_at args 0) w in
    (sys_wait w, 1)
  else (perror "shell" w, 1).

(** [for (int i = 0; args[i] != NULL; i++)] of [handle_redirection].  The
    index only grows and the array has [length args] cells, which bounds
    the rounds. *)
Fixpoint handle_redirection_from (fuel i : nat) (w : world) (args : cells)
    (in_fd out_fd : Z) : world * cells * Z * Z :=
  match fuel, cell args i with
  | S fuel', Some a =>
      if streq a ">" then
        let args := <[i := None]> args in
        let '(w, fd) := sys_open E w (cell args (i + 1)) O_WRONLY_CREAT_TRUNC in
        let w := if fd <? 0 then perror "shell" w else w in
        handle_redirection_from fuel' (S i) w args in_fd fd
      else if streq a "<" then
        let args := <[i := None]> args in
        let '(w, fd) := sys_open E w (cell args (i + 1)) O_RDONLY in
        let w := if fd <? 0 then perror "shell" w else w in
        handle_redirection_from fuel' (S i) w args fd out_fd
      else handle_redirection_from fuel' (S i) w args in_fd out_fd
  | _, _ => (w, args, in_fd, out_fd)
  end.

Definition handle_redirection (w : world) (args : cells) (in_fd out_fd : Z)
    : world * cells * Z * Z :=
  handle_redirection_from (length args) 0 w args in_fd out_fd.

(** The pipe-creating loop of [execute_pipeline]; [None] when a [pipe]
    failed ([perror], and the function returns). *)
Fixpoint create_pipes (n : nat) (w : world) (pipefd : list Z)
    : world * option (list Z) :=
  match n with
  | O => (w, Some pipefd)
  | S n' =>
      match sys_pipe E w with
      | (w, Some (r, wr)) => create_pipes n' w (pipefd ++ [r; wr])
      | (w, None) => (perror "pipe" w, None)
      end
  end.

Definition close_all (pipefd : list Z) (n : nat) (t : gmap nat target)
    : gmap nat target :=
  foldl (λ t j, fst (tbl_close t (nth j pipefd (-1)))) t (seq 0 n).

(** The child forked for stage [i]. *)
Definition pipeline_child (args : cells) (cmd_args : list nat) (pipefd : list Z)
    (num_cmds i : nat) (w : world) : world :=
  let ct := fds w in
  let '(ct, w) :=
    if bool_decide (i ≠ 0%nat) then
      let '(ct, r) := tbl_dup2 ct (nth ((i - 1) * 2) pipefd (-1)) 0 in
      (ct, if r <? 0 then perror "dup2" w else w)
    else (ct, w) in
  let '(ct, w) :=
    if bool_decide (i ≠ (num_cmds - 1)%nat) then
      let '(ct, r) := tbl_dup2 ct (nth (i * 2 + 1) pipefd (-1)) 1 in
      (ct, if r <? 0 then perror "dup2" w else w)
    else (ct, w) in
  let ct := close_all pipefd (2 * (num_cmds - 1)) ct in
  let off := nth i cmd_args 0%nat in
  child_exec "execvp" ct (cell args off) (argv_at args off) w.

(** The forking loop, from stage [i] with [rem] stages to go; [false] when
    a [fork] failed ([perror], and the function returns). *)
Fixpoint fork_stages (args : cells) (cmd_args : list nat) (pipefd : list Z)
    (num_cmds rem i : nat) (w : world) : world * bool :=
  match rem with
  | O => (w, true)
  | S rem' =>
      let '(w, forked) := sys_fork E w in
      if forked then
        fork_stages args cmd_args pipefd num_cmds rem' (S i)
          (pipeline_child args cmd_args pipefd num_cmds i w)
      else (perror "fork" w, false)
  end.

(** [cmd_args] holds pointers into [args]; they are kept as offsets. *)
Definition execute_pipeline (w : world) (args : cells) (cmd_args : list nat)
    (num_cmds : nat) : world * Z :=
  match create_pipes (num_cmds - 1) w [] with
  | (w, None) => (w, 1)
  | (w, Some pipefd) =>
      match fork_stages args cmd_args pipefd num_cmds num_cmds 0 w with
      | (w, false) => (w, 1)
      | (w, true) =>
          let w := set_fds (close_all pipefd (2 * (num_cmds - 1)) (fds w)) w in
          let w := Nat.iter num_cmds sys_wait w in
          (w, 1)
      end
  end.

(** The counting loop of [execute_command]. *)
Fixpoint count_pipes_from (fuel i : nat) (args : cells) (num_pipes : nat) : nat :=
  match fuel, cell args i with
  | S fuel', Some a =>
      count_pipes_from fuel' (S i) args
        (if streq a "|" then S num_pipes else num_pipes)
  | _, _ => num_pipes
  end.

(** The splitting loop of [execute_command]. *)
Fixpoint split_from (fuel i : nat) (args : cells) (cmd_args : list nat)
    : cells * list nat :=
  match fuel, cell args i with
  | S fuel', Some a =>
      if streq a "|"
      then split_from fuel' (S i) (<[i := None]> args) (cmd_args ++ [S i])
      else split_from fuel' (S i) args cmd_args
  | _, _ => (args, cmd_args)
  end.

Definition split_pipeline (args : cells) : cells * list nat :=
  split_from (length args) 0 args [0%nat].

(** The stages [execute_pipeline] is handed, as argument vectors. *)
Definition stages_of (split : cells * list nat) : list (list string) :=
  argv_at (fst split) <$> snd split.

(** The lookup loop over [builtin_str]/[builtin_func]. *)
Fixpoint find_builtin (name : string) (names : list string) (funcs : list handler)
    : option handler :=
  match names, funcs with
  | n :: names', f :: funcs' =>
      if streq name n then Some f else find_builtin name names' funcs'
  | _, _ => None
  end.

Definition execute_command (w : world) (args : cells) : world * Z :=
  let in_fd := -1 in
  let out_fd := -1 in
  let '(w, saved_stdin) := sys_dup E w 0 in
  let '(w, saved_stdout) := sys_dup E w 1 in
  match cell args 0 with
  | None => (w, 1)
  | Some name =>
      let num_pipes := count_pipes_from (length args) 0 args 0 in
      if (0 <? num_pipes)%nat then
        let '(args, cmd_args) := split_pipeline args in
        execute_pipeline w args cmd_args (num_pipes + 1)
      else
        match find_builtin name builtin_str builtin_func with
        | Some f => f E w args
        | None =>
            let '(w, args, in_fd, out_fd) := handle_redirection w args in_fd out_fd in
            let w :=
              if bool_decide (in_fd ≠ -1)
              then fst (sys_close (fst (sys_dup2 w in_fd 0)) in_fd) else w in
            let w :=
              if bool_decide (out_fd ≠ -1)
              then fst (sys_close (fst (sys_dup2 w out_fd 1)) out_fd) else w in
            let '(w, status) := launch_process w args in
            let w := fst (sys_dup2 w saved_stdin 0) in
            let w := fst (sys_dup2 w saved_stdout 1) in
            let w := fst (sys_close w saved_stdin) in
            let w := fst (sys_close w saved_stdout) in
            (w, status)
        end
  end.

End WithEnv.

End Executor.

(* ===================================================================== *)
(** * main.c: one round of [shell_loop]                                    *)
(* ===================================================================== *)

Module Main.

(** One iteration of the [do ... while (status)] loop, from the line that
    [read_line] delivered (after the prompt) to the status that decides
    whether the loop goes on. *)
Definition shell_round (E : env) (w : world) (line : string) : world * Z :=
  let w := if bool_decide (c_str line ≠ EmptyString)
           then History.add_history line w else w in
  let args := Parser.parse_input line in
  Executor.execute_command E w args.

End Main.

(* ===================================================================== *)
(** * Vocabulary of the specification                                      *)
(* ===================================================================== *)

Module Spec.

Import Parser.

(** ** Lines and tokens *)

Fixpoint all_chars (p : ascii → bool) (s : string) : bool :=
  match s with
  | EmptyString => true
  | String c s' => p c && all_chars p s'
  end.

Definition is_empty (s : string) : bool :=
  match s with EmptyString => true | _ => false end.

(** A run of delimiters (possibly empty). *)
Definition delim_run (s : string) : bool := all_chars is_delim s.

(** A token: at least one character, none of them a delimiter (or NUL). *)
Definition token_char (c : ascii) : bool := negb (is_delim c) && negb (Ascii.eqb c NUL).

Definition token_ok (t : string) : bool := negb (is_empty t) && all_chars token_char t.

(** A line laid out as tokens, each followed by a run of delimiters that
    only after the last token may be empty. *)
Fixpoint render (segs : list (string * string)) : string :=
  match segs with
  | [] => EmptyString
  | (t, d) :: segs' => t +:+ d +:+ render segs'
  end.

Fixpoint well_sep (segs : list (string * string)) : bool :=
  match segs with
  | [] => true
  | (t, d) :: segs' =>
      token_ok t && delim_run d
      && match segs' with [] => true | _ => negb (is_empty d) end
      && well_sep segs'
  end.

Fixpoint spaces (n : nat) : string :=
  match n with O => EmptyString | S n' => String " "%char (spaces n') end.

(** The maximal delimiter-free runs of a C string, read off character by
    character; [cur] is the run being read. *)
Definition flush (cur : string) : list string :=
  if is_empty cur then [] else [cur].

Fixpoint runs (cur : string) (s : string) : list string :=
  match s with
  | EmptyString => flush cur
  | String c s' =>
      if Ascii.eqb c NUL then flush cur
      else if is_delim c then flush cur ++ runs EmptyString s'
      else runs (cur +:+ chr c) s'
  end.

(** What the tokenizer's loop has yet to deliver, when [strtok] has just
    returned [token] and saved [save]. *)
Definition pending (token : option string) (save : string) : list string :=
  match token with
  | None => []
  | Some t => t :: runs EmptyString save
  end.

(** ** Pipelines *)

Definition is_pipe (t : string) : bool := streq t "|".

Definition count_pipes (toks : list string) : nat :=
  length (filter (λ t, is_pipe t = true) toks).

(** Stages of a pipeline: the token list cut at every [|]; and the way
    back. *)
Fixpoint split_at_pipes (toks : list string) : list (list string) :=
  match toks with
  | [] => [[]]
  | t :: toks' =>
      if is_pipe t then [] :: split_at_pipes toks'
      else match split_at_pipes toks' with
           | st :: sts => (t :: st) :: sts
           | [] => [[t]]
           end
  end.

Fixpoint rejoin (stages : list (list string)) : list string :=
  match stages with
  | [] => []
  | [st] => st
  | st :: stages' => st ++ "|" :: rejoin stages'
  end.

(** No stage is empty: the list neither starts nor ends with [|], and no
    two [|] are adjacent. *)
Fixpoint no_pipe_pair (toks : list string) : bool :=
  match toks with
  | a :: (b :: _) as toks' => negb (is_pipe a && is_pipe b) && no_pipe_pair toks'
  | _ => true
  end.

Definition no_empty_stage (toks : list string) : bool :=
  match head toks, last toks with
  | Some a, Some z => negb (is_pipe a) && negb (is_pipe z) && no_pipe_pair toks
  | _, _ => false
  end.

(** The array after the splitting loop: every [|] overwritten with NULL;
    and the offsets the loop stores, for the tokens from index [base] on. *)
Definition cut (toks : list string) : list (option string) :=
  ((λ t, if is_pipe t then None else Some t) <$> toks) ++ [None].

Fixpoint pipe_offsets (base : nat) (toks : list string) : list nat :=
  match toks with
  | [] => []
  | t :: toks' =>
      if is_pipe t then S base :: pipe_offsets (S base) toks'
      else pipe_offsets (S base) toks'
  end.

(** The outcomes of the [fork]s in a stretch of the trace, in order. *)
Definition fork_outcome (e : event) : option bool :=
  match e with EvFork ok => Some ok | _ => None end.

Definition forks (evs : list event) : list bool := omap fork_outcome evs.

(** From [w] to [w'] events were added, but no [fork]. *)
Definition quiet (w w' : world) : Prop :=
  ∃ evs, trace w' = trace w ++ evs ∧ forks evs = [].

(** ** Redirection *)

Definition is_redir (t : string) : bool := streq t ">" || streq t "<".

(** The tokens before the first redirection operator. *)
Fixpoint before_redir (toks : list string) : list string :=
  match toks with
  | [] => []
  | t :: toks' => if is_redir t then [] else t :: before_redir toks'
  end.

(** What "remove the operator token and the path token" reads as: every
    other token stays. *)
Fixpoint without_redir_pairs (toks : list string) : list string :=
  match toks with
  | [] => []
  | t :: toks' =>
      if is_redir t
      then match toks' with
           | [] => []
           | _ :: toks'' => without_redir_pairs toks''
           end
      else t :: without_redir_pairs toks'
  end.

(** The array after the resolver's loop: every operator overwritten with
    NULL. *)
Definition blank (toks : list string) : list (option string) :=
  ((λ t, if is_redir t then None else Some t) <$> toks) ++ [None].

(** The [open] calls the operators of a token list ask for, left to right:
    the path is the token after the operator (NULL at the end of the
    list). *)
Definition flag_of (op : string) : oflag :=
  if streq op ">" then O_WRONLY_CREAT_TRUNC else O_RDONLY.

Fixpoint redir_requests (toks : list string) : list (option string * oflag) :=
  match toks with
  | [] => []
  | t :: toks' =>
      if is_redir t then (head toks', flag_of t) :: redir_requests toks'
      else redir_requests toks'
  end.

(** The outcome of one [open] of the resolver: the request and the
    descriptor (or -1) it returned; the events it leaves in the trace; and
    the value a descriptor variable ends with when every [open] with the
    flags [fl] overwrites it in turn. *)
Abbreviation outcome := (option string * oflag * Z)%type.

Definition open_events (o : outcome) : list event :=
  EvOpen o.1.1 o.1.2 o.2 :: (if o.2 <? 0 then [EvPerror "shell"] else []).

Definition oflag_eqb (a b : oflag) : bool :=
  match a, b with
  | O_RDONLY, O_RDONLY | O_WRONLY_CREAT_TRUNC, O_WRONLY_CREAT_TRUNC => true
  | _, _ => false
  end.

Fixpoint pick (fl : oflag) (d : Z) (outs : list outcome) : Z :=
  match outs with
  | [] => d
  | o :: outs' => pick fl (if oflag_eqb fl o.1.2 then o.2 else d) outs'
  end.

(** An [open] either failed, or returned a descriptor that was free in
    the table [t] and is bound in the table [t']. *)
Definition opened (t t' : gmap nat target) (o : outcome) : Prop :=
  o.2 = -1 ∨ ∃ n, o.2 = Z.of_nat n ∧ t !! n = None ∧ is_Some (t' !! n).

(** What one run of the resolver does on the tokens [toks]: the relation
    between the worlds before and after it, the two descriptor variables
    before and after it, and the outcomes of its [open] calls. *)
Definition resolved (w w' : world) (toks : list string)
    (in_fd out_fd in' out' : Z) (outs : list outcome) : Prop :=
  outs.*1 = redir_requests toks
  ∧ trace w' = trace w ++ concat (open_events <$> outs)
  ∧ history w' = history w
  ∧ fds w ⊆ fds w'
  ∧ in' = pick O_RDONLY in_fd outs
  ∧ out' = pick O_WRONLY_CREAT_TRUNC out_fd outs
  ∧ Forall (opened (fds w) (fds w')) outs.

(** ** Launching, and the standard streams around it *)

(** What a child reports after its [execvp]: the error, when the call
    returned; nothing when the program runs, and nothing when the file was
    NULL and the child was killed inside the call. *)
Definition exec_report (prefix : string) (file : option string) (ok : bool)
    : list event :=
  match file with
  | Some _ => if ok then [] else [EvPerror prefix]
  | None => []
  end.

(** What launching does: a failed [fork] and its report, or a child that
    calls [execvp] on the array as it stands, and the wait for it.  The
    shell's own descriptors are not touched. *)
Definition launch_events (args : cells) (t : gmap nat target) (evs : list event) : Prop :=
  evs = [EvFork false; EvPerror "shell"]
  ∨ ∃ ok, (cell args 0 = None → ok = false)
          ∧ evs = EvFork true
                  :: EvExec (cell args 0) (argv_at args 0) (tbl_get t 0) (tbl_get t 1) ok
                  :: exec_report "shell" (cell args 0) ok ++ [EvWait].

(** Names for the two descriptor-juggling passages of [execute_command]:
    binding the resolved descriptors to the standard streams, and putting
    the saved ones back. *)
Definition redirect_streams (w : world) (in_fd out_fd : Z) : world :=
  let w := if bool_decide (in_fd ≠ -1)
           then (sys_close (sys_dup2 w in_fd 0).1 in_fd).1 else w in
  if bool_decide (out_fd ≠ -1)
  then (sys_close (sys_dup2 w out_fd 1).1 out_fd).1 else w.

Definition restore_streams (w : world) (saved_stdin saved_stdout : Z) : world :=
  let w := (sys_dup2 w saved_stdin 0).1 in
  let w := (sys_dup2 w saved_stdout 1).1 in
  let w := (sys_close w saved_stdin).1 in
  (sys_close w saved_stdout).1.

(** How a saved descriptor stands right after the two [dup]s, in the
    table [t]: either the [dup] failed for want of a free descriptor, or it
    is a descriptor other than 0 and 1 bound to the target. *)
Definition snapshot_of (E : env) (t : gmap nat target) (saved : Z) (tg : target) : Prop :=
  (saved = -1 ∧ lowest_free E t = None)
  ∨ ∃ n, saved = Z.of_nat n ∧ n ≠ 0%nat ∧ n ≠ 1%nat ∧ t !! n = Some tg.

(** How it stands just before the restoration: either the [dup] had
    failed and the stream [std] was never rebound, or it is still a
    descriptor other than 0 and 1 bound to the target. *)
Definition saved_for (t : gmap nat target) (std : nat) (saved : Z) (tg : target) : Prop :=
  (saved = -1 ∧ t !! std = Some tg)
  ∨ ∃ n, saved = Z.of_nat n ∧ n ≠ 0%nat ∧ n ≠ 1%nat ∧ t !! n = Some tg.

(** ** Built-ins *)

(** The built-ins that require arguments: [cd], [count] and [rm] one,
    [cp] and [mv] two; when one is missing; and the text then due on the
    diagnostic stream, the name between double quotes and a newline at the
    end. *)
Definition is_null (c : option string) : bool :=
  match c with None => true | Some _ => false end.

Definition missing_argument (name : string) (args : cells) : bool :=
  if streq name "cd" || streq name "count" || streq name "rm"
  then is_null (cell args 1)
  else if streq name "cp" || streq name "mv"
  then is_null (cell args 1) || is_null (cell args 2)
  else false.

Definition usage (name : string) : string :=
  (if streq name "cp" || streq name "mv"
   then "shell: expected source and destination for "
   else "shell: expected argument to ")
  +:+ QUOTE +:+ name +:+ QUOTE +:+ NL.

End Spec.

(** ** Concrete environments and worlds, for running the model *)

Module Run.

(** An environment of plenty: every request is granted. *)
Definition granting : env :=
  Env 1024 (λ _ _ _, true) (λ _, true) (λ _, true) (λ _ _ _, true)
      (λ _ _, true) (λ _ _ _, true) (λ _ _, true) (λ _ _, []).

(** An environment in which no process can be created. *)
Definition no_fork : env :=
  Env 1024 (λ _ _ _, true) (λ _, true) (λ _, false) (λ _ _ _, true)
      (λ _ _, true) (λ _ _ _, true) (λ _ _, true) (λ _ _, []).

(** An environment in which the first [fork] fails and every later one
    would succeed. *)
Definition first_fork_fails : env :=
  Env 1024 (λ _ _ _, true) (λ _, true)
      (λ tr, match Spec.forks tr with [] => false | _ => true end)
      (λ _ _ _, true) (λ _ _, true) (λ _ _ _, true) (λ _ _, true) (λ _ _, []).

(** The shell as a terminal starts it: descriptors 0, 1, 2 on the
    terminal, nothing done yet. *)
Definition fresh : world :=
  World (<[0%nat := Tty 0]> (<[1%nat := Tty 1]> (<[2%nat := Tty 2]> ∅))) [] [].

(** A shell started with its standard output closed ([./shell >&-]). *)
Definition output_closed : world :=
  World (<[0%nat := Tty 0]> (<[2%nat := Tty 2]> ∅)) [] [].

End Run.

(* ===================================================================== *)
(** * history.c: the history file                                          *)
(* ===================================================================== *)

Module HistoryFile.

Import History.

Definition HISTORY_FILE : string := ".shell_history".

(** What the process is told about its surroundings: the environment
    variables, and the host name and working directory at a given moment
    (NULL or failure is [None]). *)
Record host := Host {
  getenv : string → option string;
  gethostname : list event → option string;
  getcwd : list event → option string;
}.

(** [snprintf(path, sizeof(path), "%s/%s", home, HISTORY_FILE)] into
    [char path[1024]]: at most 1023 characters are kept.  Both
    [load_history] and [save_history] build the path this way, from [HOME]
    or else [USERPROFILE]; without either they return at once. *)
Definition history_path (H : host) : option string :=
  let home := match getenv H "HOME" with
              | Some h => Some h
              | None => getenv H "USERPROFILE"
              end in
  match home with
  | None => None
  | Some home => Some (String.substring 0 1023 (c_str home +:+ "/" +:+ HISTORY_FILE))
  end.

(** [getline] on what is left of a file: the bytes up to and including the
    next newline, or all of them when there is none. *)
Fixpoint getline (bytes : list ascii) : string * list ascii :=
  match bytes with
  | [] => (EmptyString, [])
  | c :: rest =>
      if Ascii.eqb c "010" then (chr c, rest)
      else let '(l, r) := getline rest in (String c l, r)
  end.

(** [line[strcspn(line, "\n")] = 0], read back as a C string. *)
Fixpoint chomp (line : string) : string :=
  match line with
  | EmptyString => EmptyString
  | String c line' =>
      if Ascii.eqb c NUL then EmptyString
      else if Ascii.eqb c "010" then EmptyString
      else String c (chomp line')
  end.

(** [while (getline(&line, &len, fp) != -1)], the loop compiled where
    [_WIN32] is not defined: [getline] returns -1 when nothing is left.
    Every round takes at least one byte. *)
Fixpoint load_loop (fuel : nat) (bytes : list ascii) (w : world) : world :=
  match fuel, bytes with
  | S fuel', _ :: _ =>
      let '(line, rest) := getline bytes in
      load_loop fuel' rest (add_history (chomp line) w)
  | _, _ => w
  end.

Definition load_history (E : env) (H : host) (w : world) : world :=
  match history_path H with
  | None => w
  | Some path =>
      let bytes := file_bytes E (trace w) path in
      let '(w, fp) := sys_open E w (Some path) O_RDONLY in
      if fp <? 0 then w
      else
        let w := load_loop (length bytes) bytes w in
        (sys_close w fp).1
  end.

(** [fprintf(fp, "%s\n", history[i])] for every entry. *)
Fixpoint save_loop (fp : Z) (h : list string) (w : world) : world :=
  match h with
  | [] => w
  | e :: h' =>
      save_loop fp h' (emit (EvWrite fp (String.list_ascii_of_string (c_str e +:+ NL))) w)
  end.

Definition save_history (E : env) (H : host) (w : world) : world :=
  match history_path H with
  | None => w
  | Some path =>
      let '(w, fp) := sys_open E w (Some path) O_WRONLY_CREAT_TRUNC in
      if fp <? 0 then w
      else
        let w := save_loop fp (history w) w in
        (sys_close w fp).1
  end.

End HistoryFile.

(* ===================================================================== *)
(** * utils.c and main.c: the session                                      *)
(* ===================================================================== *)

Module Session.

Import HistoryFile.

Definition EXIT_SUCCESS : Z := 0.
Definition EXIT_FAILURE : Z := 1.

(** [type_prompt]: the user is [USERNAME], else [USER], else ["user"]; the
    host and the directory fall back to ["localhost"] and ["unknown"] when
    [gethostname] and [getcwd] fail. *)
Definition type_prompt (H : host) (w : world) : world :=
  let user := match getenv H "USERNAME" with
              | Some u => u
              | None => match getenv H "USER" with
                        | Some u => u
                        | None => "user"
                        end
              end in
  let host := default "localhost" (gethostname H (trace w)) in
  let cwd := default "unknown" (getcwd H (trace w)) in
  printf (ESC +:+ "[1;32m%s@%s" +:+ ESC +:+ "[0m:" +:+ ESC +:+ "[1;34m%s"
          +:+ ESC +:+ "[0m$ ")
    [PStr user; PStr host; PStr cwd] w.

(** How the standard input ends, when [getline] returns -1 in [read_line]:
    at end of file, or on a read error. *)
Inductive input_end := AtEof | ReadError.

(** How the process leaves [shell_loop]: by returning to [main], or by
    [exit(code)] inside [read_line]. *)
Inductive ending := Returned | Exited (code : Z).

(** [shell_loop] on the lines that [getline] delivers from the standard
    input, one per round, and the way the input ends after them. *)
Fixpoint shell_loop (E : env) (H : host) (lines : list string) (fin : input_end)
    (w : world) : world * ending :=
  let w := type_prompt H w in
  match lines with
  | [] =>
      match fin with
      | AtEof => (w, Exited EXIT_SUCCESS)
      | ReadError => (perror "readline" w, Exited EXIT_FAILURE)
      end
  | line :: lines' =>
      let '(w, status) := Main.shell_round E w line in
      if status =? 0 then (w, Returned)
      else shell_loop E H lines' fin w
  end.

(** [main]: the final state and the exit status of the process. *)
Definition main (E : env) (H : host) (lines : list string) (fin : input_end)
    (w : world) : world * Z :=
  let w := load_history E H w in
  match shell_loop E H lines fin w with
  | (w, Exited code) => (w, code)
  | (w, Returned) => (save_history E H w, EXIT_SUCCESS)
  end.

End Session.

(* ===================================================================== *)
(** * Further vocabulary                                                   *)
(* ===================================================================== *)

Module Notions.

(** The last [n] elements of a list. *)
Definition keep_last {A} (n : nat) (l : list A) : list A := drop (length l - n) l.

(** Recording lines one after the other. *)
Definition record_all (lines : list string) (w : world) : world :=
  foldl (λ w line, History.add_history line w) w lines.

(** A history entry that a file line can hold: no NUL, no newline. *)
Definition plain (e : string) : bool :=
  Spec.all_chars (λ c, negb (Ascii.eqb c NUL) && negb (Ascii.eqb c "010")) e.

Abbreviation bytes_of := String.list_ascii_of_string.

(** The bytes of a file holding the lines [ps], each closed by a newline. *)
Definition file_of (ps : list string) : list ascii :=
  concat ((λ p, bytes_of (p +:+ NL)) <$> ps).

(** The bytes handed to [fwrite]/[fprintf] in a stretch of the trace. *)
Definition bytes_written (evs : list event) : list ascii :=
  concat (omap (λ e, match e with EvWrite _ b => Some b | _ => None end) evs).

(** The events since the trace was [before] events long. *)
Definition since (before : list event) (w : world) : list event :=
  drop (length before) (trace w).

(** What [count] gets to read: the bytes before the first byte 255. *)
Fixpoint counted (bytes : list ascii) : list ascii :=
  match bytes with
  | [] => []
  | c :: rest => if Ascii.eqb c "255" then [] else c :: counted rest
  end.

(** The bytes that separate words for [count]: space, newline, tab. *)
Definition is_blank (c : ascii) : bool :=
  Ascii.eqb c " " || Ascii.eqb c "010" || Ascii.eqb c "009".

(** The maximal blank-free runs of a byte sequence, in order; [cur] is the
    run being read. *)
Fixpoint fields (cur : list ascii) (bytes : list ascii) : list (list ascii) :=
  match bytes with
  | [] => match cur with [] => [] | _ => [cur] end
  | c :: rest =>
      if is_blank c
      then match cur with [] => fields [] rest | _ => cur :: fields [] rest end
      else fields (cur ++ [c]) rest
  end.

Definition newlines (bytes : list ascii) : nat :=
  length (filter (λ c, c = "010"%char) bytes).

Definition writes_to (dst : Z) (chunks : list (list ascii)) : list event :=
  EvWrite dst <$> chunks.

(** The [open] calls in a stretch of the trace, with their results. *)
Definition open_call (e : event) : option Spec.outcome :=
  match e with
  | EvOpen path fl fd => Some (path, fl, fd)
  | _ => None
  end.

Definition opens (evs : list event) : list Spec.outcome := omap open_call evs.

(** The last [open] with the flags [fl], if there is one. *)
Fixpoint chosen (fl : oflag) (outs : list Spec.outcome) : option Spec.outcome :=
  match outs with
  | [] => None
  | o :: outs' =>
      match chosen fl outs' with
      | Some o' => Some o'
      | None => if Spec.oflag_eqb fl o.1.2 then Some o else None
      end
  end.

(** Descriptor [k] was returned by an [open] of the line, and is not what
    one of the two descriptor variables ended with. *)
Definition stray (outs : list Spec.outcome) (k : nat) : bool :=
  existsb (λ o, o.2 =? Z.of_nat k) outs
  && negb (Z.of_nat k =? Spec.pick O_RDONLY (-1) outs)
  && negb (Z.of_nat k =? Spec.pick O_WRONLY_CREAT_TRUNC (-1) outs).

(** What a standard stream of the launched program is bound to, [d] being
    what it is bound to in the shell: the file of the last [open] with the
    flags of that stream, when there is one and it succeeded. *)
Definition redirected (fl : oflag) (d : target) (outs : list Spec.outcome)
    (tg : target) : Prop :=
  match chosen fl outs with
  | None => tg = d
  | Some o =>
      if o.2 <? 0 then tg = d
      else ∃ p s, o.1.1 = Some p ∧ tg = File p fl s
  end.

(** A successful [open] with [O_TRUNC] leaves the file it names empty. *)
Definition truncating (E : env) : Prop :=
  ∀ tr path fd, 0 ≤ fd →
    file_bytes E (tr ++ [EvOpen (Some path) O_WRONLY_CREAT_TRUNC fd]) path = [].

End Notions.

(** ** More environments and worlds *)

Module Run2.

(** Every request is granted and every file reads as [bytes]. *)
Definition holding (bytes : list ascii) : env :=
  Env 1024 (λ _ _ _, true) (λ _, true) (λ _, true) (λ _ _ _, true)
      (λ _ _, true) (λ _ _ _, true) (λ _ _, true) (λ _ _, bytes).

(** A host that knows [HOME] only. *)
(** Every request is granted; a file reads as [bytes] until an [open]
    truncates it, and as empty from then on. *)
Definition emptied (path : string) (e : event) : bool :=
  match e with
  | EvOpen (Some p) O_WRONLY_CREAT_TRUNC fd => streq p path && (0 <=? fd)
  | _ => false
  end.

Definition keeping (bytes : list ascii) : env :=
  Env 1024 (λ _ _ _, true) (λ _, true) (λ _, true) (λ _ _ _, true)
      (λ _ _, true) (λ _ _ _, true) (λ _ _, true)
      (λ tr path, if existsb (emptied path) tr then [] else bytes).

Definition at_home : HistoryFile.host :=
  HistoryFile.Host (λ v, if streq v "HOME" then Some "/home/u" else None)
    (λ _, Some "box") (λ _, Some "/home/u").

(** A host that knows nothing. *)
Definition nowhere : HistoryFile.host :=
  HistoryFile.Host (λ _, None) (λ _, None) (λ _, None).

Definition with_history (h : list string) : world :=
  World (fds Run.fresh) [] h.

End Run2.

(** ** The wiring of a pipeline *)

Module Wiring.

(** An [execvp] call as the trace shows it: the program, its arguments,
    and what the standard input and output of the caller are bound to. *)
Abbreviation call := (option string * list string * option target * option target)%type.

Definition exec_call (e : event) : option call :=
  match e with
  | EvExec file argv cin cout _ => Some (file, argv, cin, cout)
  | _ => None
  end.

Definition execs (evs : list event) : list call := omap exec_call evs.

(** A [pipe] or a [fork] that failed. *)
Definition failed (e : event) : bool :=
  match e with
  | EvPipe None | EvFork false => true
  | _ => false
  end.

Definition is_wait (e : event) : bool :=
  match e with
  | EvWait => true
  | _ => false
  end.

Definition waits (evs : list event) : nat := length (List.filter is_wait evs).

(** The children of a trace not accounted for: the processes created less
    the [wait] calls made.  A [wait] of the pipeline executor returns any
    child of the shell, not one in particular. *)
Definition unwaited (evs : list event) : Z :=
  Z.of_nat (length (List.filter (λ ok : bool, ok) (Spec.forks evs))) - Z.of_nat (waits evs).

(** Stage [i] of [n], the pipes being numbered from [s]: it reads from the
    pipe before it and writes to the pipe after it; the first reads what the
    shell reads, the last writes where the shell writes. *)
Definition stage_in (tin : target) (s i : nat) : target :=
  match i with
  | O => tin
  | S j => PipeRd (s + j)
  end.

Definition stage_out (tout : target) (s n i : nat) : target :=
  if bool_decide (S i = n) then tout else PipeWr (s + i).

Fixpoint wired_from (tin tout : target) (s n i : nat) (stages : list (list string))
    : list call :=
  match stages with
  | [] => []
  | st :: rest =>
      (head st, st, Some (stage_in tin s i), Some (stage_out tout s n i))
      :: wired_from tin tout s n (S i) rest
  end.

Definition wired (tin tout : target) (s : nat) (stages : list (list string)) : list call :=
  wired_from tin tout s (length stages) 0 stages.

(** The descriptors of the pipes made, both ends of each, in the order of
    the array [pipefd]; the events of making them; and the table [t] that
    making them, from the table [t0], leads to. *)
Definition pipe_keys (ks : list (nat * nat)) : list nat :=
  concat ((λ p, [p.1; p.2]) <$> ks).

Definition pipe_ends (ks : list (nat * nat)) : list (Z * Z) :=
  (λ p, (Z.of_nat p.1, Z.of_nat p.2)) <$> ks.

Definition pipe_events (ks : list (nat * nat)) : list event :=
  (λ ends, EvPipe (Some ends)) <$> pipe_ends ks.

Fixpoint piped (t0 : gmap nat target) (s : nat) (ks : list (nat * nat))
    (t : gmap nat target) : Prop :=
  match ks with
  | [] => t = t0
  | p :: ks' =>
      t0 !! p.1 = None ∧ <[p.1 := PipeRd s]> t0 !! p.2 = None
      ∧ piped (<[p.2 := PipeWr s]> (<[p.1 := PipeRd s]> t0)) (S s) ks' t
  end.

(** The pipes made in a stretch of the trace, and whether the stretch is
    free of failed [pipe]s and [fork]s. *)
Definition pipe_made (e : event) : option (Z * Z) :=
  match e with
  | EvPipe (Some ends) => Some ends
  | _ => None
  end.

Definition made (evs : list event) : list (Z * Z) := omap pipe_made evs.

Definition clean (evs : list event) : bool := forallb (λ e, negb (failed e)) evs.

(** A stretch in which no pipe is made, nothing fails, nothing is waited
    for and no file is opened. *)
Definition inert (evs : list event) : Prop :=
  waits evs = 0%nat ∧ made evs = [] ∧ clean evs = true ∧ Notions.opens evs = [].

End Wiring.

(** ** What a line leaves behind *)

Module Effects.

(** The events of a process that only talks and changes names: no file is
    opened or written, no pipe made, no process created or waited for. *)
Definition plain_event (e : event) : bool :=
  match e with
  | EvPerror _ | EvStderr _ | EvPrintf _ _ | EvChdir _ _ | EvRename _ _ _
  | EvRemove _ _ => true
  | _ => false
  end.

(** From [w] to [w'] the shell acted alone: it created no process and
    launched nothing, and its descriptor table and history are as they
    were.  [files] tells whether it may have opened files meanwhile. *)
Definition alone (files : bool) (w w' : world) : Prop :=
  fds w' = fds w ∧ history w' = history w
  ∧ ∃ evs, trace w' = trace w ++ evs
           ∧ Spec.forks evs = [] ∧ Wiring.execs evs = []
           ∧ (files = false → Notions.opens evs = []).

(** The lines that end the loop; the lines read until the loop ends; what
    of them is recorded in the history; and the exit status when the input
    ends first. *)
Definition exits (line : string) : bool :=
  bool_decide (head (Spec.runs EmptyString line) = Some "exit"
               ∧ Spec.count_pipes (Spec.runs EmptyString line) = 0%nat).

Fixpoint until_exit (lines : list string) : list string :=
  match lines with
  | [] => []
  | l :: rest => if exits l then [l] else l :: until_exit rest
  end.

Definition recorded (lines : list string) : list string :=
  c_str <$> filter (λ l, c_str l ≠ EmptyString) lines.

Definition exit_code (fin : Session.input_end) : Z :=
  match fin with
  | Session.AtEof => Session.EXIT_SUCCESS
  | Session.ReadError => Session.EXIT_FAILURE
  end.

End Effects.

(** Closes an equation between triples of integers, component by
    component. *)
Ltac triple :=
  apply pair_equal_spec; split; [apply pair_equal_spec; split|];
  cbn [length]; f_equal; lia.

(** Closes [x ∉ [a; b; ...]] between closed strings. *)
Ltac not_in_list :=
  let H := fresh "Hin" in
  intros H;
  repeat (apply elem_of_cons in H as [H|H]; [discriminate H|]);
  by apply elem_of_nil in H.

(* ===================================================================== *)
(** * Argument arrays                                                      *)
(* ===================================================================== *)

Section Arrays.

Implicit Types (toks : list string) (a : cells).

Lemma argv_of_app_None toks a : argv_of ((Some <$> toks) ++ None :: a) = toks.
Proof. induction toks as [|t toks IH]; csimpl; [done | by rewrite IH]. Qed.

Lemma argv_of_mk_args toks : argv_of (mk_args toks) = toks.
Proof. apply argv_of_app_None. Qed.

Lemma argv_at_0 a : argv_at a 0 = argv_of a.
Proof. done. Qed.

Lemma length_mk_args toks : length (mk_args toks) = S (length toks).
Proof. unfold mk_args. rewrite length_app, length_fmap. simpl. lia. Qed.

Lemma cell_mk_args_head toks : cell (mk_args toks) 0 = head toks.
Proof. by destruct toks. Qed.

End Arrays.

(* ===================================================================== *)
(** * The tokenizer                                                        *)
(* ===================================================================== *)

Module ParserFacts.

Import Parser Spec.

Lemma append_nil_r (s : string) : s +:+ EmptyString = s.
Proof. induction s as [|c s IH]; simpl; [done | by rewrite IH]. Qed.

Lemma append_assoc (a b c : string) : (a +:+ b) +:+ c = a +:+ (b +:+ c).
Proof. induction a as [|x a IH]; simpl; [done | by rewrite IH]. Qed.

Lemma delim_not_NUL c : is_delim c = true → Ascii.eqb c NUL = false.
Proof.
  intros H. destruct (Ascii.eqb_spec c NUL) as [->|]; [|done].
  by vm_compute in H.
Qed.

(** Stepping over delimiters does not change the runs that follow. *)
Lemma runs_skip_delims s : runs EmptyString (skip_delims s) = runs EmptyString s.
Proof.
  induction s as [|c s IH]; simpl; [done|].
  destruct (Ascii.eqb c NUL) eqn:HN; [done|].
  destruct (is_delim c) eqn:HD; [|by simpl; rewrite HN, HD].
  by rewrite IH.
Qed.

Lemma skip_delims_length s : (String.length (skip_delims s) ≤ String.length s)%nat.
Proof.
  induction s as [|c s IH]; simpl; [lia|].
  destruct (Ascii.eqb c NUL); simpl; [lia|].
  destruct (is_delim c); simpl; lia.
Qed.

(** What is left after the delimiters starts with a token character. *)
Lemma skip_delims_head s c s' :
  skip_delims s = String c s' → token_char c = true.
Proof.
  induction s as [|d s IH]; simpl; [done|].
  destruct (Ascii.eqb d NUL) eqn:HN; [done|].
  destruct (is_delim d) eqn:HD; [done|].
  intros [= <- <-]. unfold token_char. by rewrite HN, HD.
Qed.

(** The scan reads one run and leaves the rest. *)
Lemma scan_token_runs s cur :
  runs cur s = flush (cur +:+ (scan_token s).1) ++ runs EmptyString (scan_token s).2.
Proof.
  revert cur. induction s as [|c s IH]; intros cur; simpl.
  - by rewrite append_nil_r, app_nil_r.
  - destruct (Ascii.eqb c NUL) eqn:HN; simpl.
    { by rewrite append_nil_r, app_nil_r. }
    destruct (is_delim c) eqn:HD; simpl.
    { by rewrite append_nil_r. }
    rewrite IH. destruct (scan_token s) as [t r]; simpl.
    by rewrite append_assoc.
Qed.

Lemma scan_token_length s :
  (String.length (scan_token s).2 ≤ String.length s)%nat.
Proof.
  induction s as [|c s IH]; simpl; [lia|].
  destruct (Ascii.eqb c NUL); simpl; [lia|].
  destruct (is_delim c); simpl; [lia|].
  destruct (scan_token s); simpl in *; lia.
Qed.

Lemma scan_token_chars s : all_chars token_char (scan_token s).1 = true.
Proof.
  induction s as [|c s IH]; simpl; [done|].
  destruct (Ascii.eqb c NUL) eqn:HN; simpl; [done|].
  destruct (is_delim c) eqn:HD; simpl; [done|].
  destruct (scan_token s); simpl in *.
  unfold token_char at 1. by rewrite HN, HD, IH.
Qed.

(** One call of [strtok]: either nothing is left, or a token is cut off the
    front and strictly less is left to scan. *)
Lemma strtok_None s save :
  strtok s = (None, save) → runs EmptyString s = [].
Proof.
  unfold strtok. intros H. rewrite <- runs_skip_delims.
  destruct (skip_delims s) as [|c s1]; [done|].
  by destruct (scan_token (String c s1)).
Qed.

Lemma strtok_Some s t save :
  strtok s = (Some t, save) →
  runs EmptyString s = t :: runs EmptyString save
  ∧ token_ok t = true
  ∧ (String.length save < String.length s)%nat.
Proof.
  unfold strtok. intros H. rewrite <- runs_skip_delims.
  pose proof (skip_delims_length s) as Hlen.
  destruct (skip_delims s) as [|c s1] eqn:Hs; [done|].
  pose proof (skip_delims_head _ _ _ Hs) as Hc.
  pose proof (scan_token_runs (String c s1) EmptyString) as Hr.
  pose proof (scan_token_length s1) as Hl.
  pose proof (scan_token_chars (String c s1)) as Hch.
  unfold token_char in Hc. apply andb_prop in Hc as [HD HN].
  apply negb_true_iff in HD, HN.
  simpl in *. rewrite HN, HD in *.
  destruct (scan_token s1) as [t1 r1] eqn:Hsc. simpl in *.
  injection H as <- <-. repeat split; [done | done | lia].
Qed.

(** The loop, given enough rounds, appends the runs of what is left. *)
Lemma strtok_pending s : pending (strtok s).1 (strtok s).2 = runs EmptyString s.
Proof.
  destruct (strtok s) as [[t|] save] eqn:Hs; simpl.
  - by apply strtok_Some in Hs as (-> & _ & _).
  - by apply strtok_None in Hs as ->.
Qed.

Lemma parse_loop_runs fuel token save acc bufsize :
  (token = None ∨ String.length save < fuel)%nat →
  (parse_loop fuel token save acc bufsize).1 = acc ++ pending token save.
Proof.
  revert token save acc bufsize.
  induction fuel as [|fuel IH]; intros token save acc bufsize Hf.
  { destruct Hf as [->|]; [|lia]. simpl. by rewrite app_nil_r. }
  destruct token as [t|]; simpl; [|by rewrite app_nil_r].
  destruct Hf as [|Hf]; [done|].
  rewrite <- (strtok_pending save).
  destruct (strtok save) as [[t'|] save'] eqn:Hs; simpl.
  - apply strtok_Some in Hs as (_ & _ & Hl).
    rewrite IH by (right; lia). simpl. by rewrite <- app_assoc.
  - rewrite IH by (by left). simpl. by rewrite <- app_assoc.
Qed.

(** [parse_input] returns the NULL-closed array of the runs of the line. *)
Lemma parse_input_runs line : parse_input line = mk_args (runs EmptyString line).
Proof.
  unfold parse_input. rewrite <- (strtok_pending line).
  destruct (strtok line) as [token save] eqn:Hs.
  pose proof (parse_loop_runs (String.length line) token save [] MAX_ARGS) as H.
  destruct (parse_loop _ _ _ _ _) as [tokens b]. simpl in *. rewrite H; [done|].
  destruct token as [t|]; [right | by left].
  by apply strtok_Some in Hs as (_ & _ & Hl).
Qed.

(** The buffer never overflows: before every write [position < bufsize]. *)
Lemma parse_loop_capacity fuel token save tokens bufsize :
  Z.of_nat (length tokens) < bufsize →
  Z.of_nat (length (parse_loop fuel token save tokens bufsize).1)
  < (parse_loop fuel token save tokens bufsize).2.
Proof.
  revert token save tokens bufsize.
  induction fuel as [|fuel IH]; intros token save tokens bufsize Hb; simpl.
  { by destruct token. }
  destruct token as [t|]; [|done].
  destruct (strtok save) as [tok' save']. apply IH.
  rewrite length_app. simpl. unfold MAX_ARGS.
  destruct (Z.geb_spec (Z.of_nat (length tokens + 1)) bufsize); lia.
Qed.

(** Properties of the runs. *)
Lemma runs_tokens s cur :
  all_chars token_char cur = true → Forall (λ t, token_ok t = true) (runs cur s).
Proof.
  revert cur. induction s as [|c s IH]; intros cur Hcur; simpl.
  - unfold flush, token_ok. destruct (is_empty cur) eqn:He; [done|].
    constructor; [|done]. by rewrite He, Hcur.
  - assert (Forall (λ t, token_ok t = true) (flush cur)) as Hfl.
    { unfold flush, token_ok. destruct (is_empty cur) eqn:He; [done|].
      constructor; [|done]. by rewrite He, Hcur. }
    destruct (Ascii.eqb c NUL) eqn:HN; [done|].
    destruct (is_delim c) eqn:HD.
    + apply Forall_app. split; [done | by apply IH].
    + apply IH. clear IH Hfl. induction cur as [|x cur IHc]; simpl in *.
      * unfold token_char. by rewrite HN, HD.
      * apply andb_prop in Hcur as [-> Hcur]. by rewrite IHc.
Qed.

Lemma runs_token_prefix t s cur :
  all_chars token_char t = true → runs cur (t +:+ s) = runs (cur +:+ t) s.
Proof.
  revert cur. induction t as [|c t IH]; intros cur Ht; simpl.
  - by rewrite append_nil_r.
  - simpl in Ht. apply andb_prop in Ht as [Hc Ht].
    unfold token_char in Hc. apply andb_prop in Hc as [HD HN].
    apply negb_true_iff in HD, HN. rewrite HN, HD, IH by done.
    by rewrite append_assoc.
Qed.

Lemma runs_delim_prefix d s :
  delim_run d = true → runs EmptyString (d +:+ s) = runs EmptyString s.
Proof.
  induction d as [|c d IH]; intros Hd; simpl; [done|].
  simpl in Hd. apply andb_prop in Hd as [Hc Hd].
  by rewrite (delim_not_NUL _ Hc), Hc, IH.
Qed.

Lemma runs_after_token t d s :
  token_ok t = true → delim_run d = true →
  (is_empty d = false ∨ s = EmptyString) →
  runs EmptyString (t +:+ d +:+ s) = t :: runs EmptyString s.
Proof.
  intros Ht Hd Hsep. unfold token_ok in Ht. apply andb_prop in Ht as [Hne Ht].
  rewrite runs_token_prefix by done. simpl.
  destruct d as [|c d]; simpl.
  - destruct Hsep as [?| ->]; [done|]. simpl. unfold flush.
    by destruct (is_empty t).
  - simpl in Hd. apply andb_prop in Hd as [Hc Hd].
    rewrite (delim_not_NUL _ Hc), Hc, runs_delim_prefix by done.
    unfold flush. by destruct (is_empty t).
Qed.

Lemma runs_render segs :
  well_sep segs = true → runs EmptyString (render segs) = segs.*1.
Proof.
  induction segs as [|[t d] segs IH]; simpl; [done|].
  intros H. apply andb_prop in H as [H Hw]. apply andb_prop in H as [H Hsep].
  apply andb_prop in H as [Ht Hd].
  rewrite runs_after_token; [by rewrite IH | done | done |].
  destruct segs; [by right | left; by apply negb_true_iff].
Qed.

(** The delimiters are the five characters of [DELIMITERS]. *)
Lemma is_delim_spec c :
  is_delim c = true ↔ c ∈ [" "; "009"; "013"; "010"; "007"]%char.
Proof.
  unfold is_delim, DELIMITERS. simpl. split.
  - repeat match goal with
           | |- context [Ascii.eqb c ?d] =>
               destruct (Ascii.eqb_spec c d) as [->|?];
               [intros _; rewrite !elem_of_cons; tauto|]
           end.
    done.
  - intros Hc. repeat (apply elem_of_cons in Hc as [->|Hc]; [done|]).
    by apply elem_of_nil in Hc.
Qed.

Lemma runs_c_str s cur : runs cur (c_str s) = runs cur s.
Proof.
  revert cur. induction s as [|c s IH]; intros cur; simpl; [done|].
  destruct (Ascii.eqb c NUL) eqn:HN; simpl; [done|].
  rewrite HN. destruct (is_delim c); by rewrite IH.
Qed.

(** Every C string is laid out as leading delimiters, then tokens each
    followed by its run of delimiters. *)
Lemma c_str_layout s :
  ∃ lead segs,
    delim_run lead = true ∧ well_sep segs = true ∧ c_str s = lead +:+ render segs.
Proof.
  induction s as [|c s (lead & segs & Hl & Hw & Hs)]; simpl.
  { by exists EmptyString, []. }
  destruct (Ascii.eqb c NUL) eqn:HN.
  { by exists EmptyString, []. }
  destruct (is_delim c) eqn:HD.
  { exists (String c lead), segs. unfold delim_run in *. simpl.
    by rewrite HD, Hl, Hw, Hs. }
  assert (token_char c = true) as Hc by (unfold token_char; by rewrite HN, HD).
  destruct lead as [|d lead].
  - destruct segs as [|[t d] segs].
    + exists EmptyString, [(chr c, EmptyString)]. simpl in *.
      unfold token_ok. simpl. by rewrite Hc, Hs.
    + exists EmptyString, ((String c t, d) :: segs). simpl in *.
      rewrite Hs. split; [done|]. split; [|done].
      unfold token_ok in *. simpl. rewrite Hc. simpl.
      apply andb_prop in Hw as [Hw Hw']. apply andb_prop in Hw as [Hw Hsep].
      apply andb_prop in Hw as [Ht Hd]. apply andb_prop in Ht as [_ Ht].
      by rewrite Ht, Hd, Hsep, Hw'.
  - exists EmptyString, ((chr c, String d lead) :: segs). simpl in *.
    rewrite Hs. split; [done|]. split; [|done].
    unfold token_ok. simpl. rewrite Hc, Hl, Hw. simpl. by destruct segs.
Qed.

End ParserFacts.

(** C7.  The tokenizer splits the line on runs of the delimiters space,
    tab, carriage return, newline and bell.  (0) These five characters are
    the delimiters.  (1) Its result is a NULL-closed array of tokens, each
    non-empty and free of delimiters, and only the bytes before the first
    NUL of the line count.  (2) Every such C string is some leading
    delimiters followed by tokens, each with a run of delimiters after it
    that only after the last token may be empty.  (3) Whenever a line is
    laid out like that, whatever the lengths of the runs, the result is
    exactly those tokens in that order.  (4) An empty or all-delimiter line
    gives the empty argument list.  (5) [ls], [-la], [/tmp] separated by
    any positive numbers of spaces give [["ls"; "-la"; "/tmp"]]. *)
Theorem parse_input_splits_on_delimiter_runs :
  (∀ c, Parser.is_delim c = true ↔ c ∈ [" "; "009"; "013"; "010"; "007"]%char)
  ∧ (∀ line, ∃ toks,
      Parser.parse_input line = mk_args toks
      ∧ Forall (λ t, Spec.token_ok t = true) toks
      ∧ Parser.parse_input (c_str line) = Parser.parse_input line)
  ∧ (∀ line, ∃ lead segs,
      Spec.delim_run lead = true ∧ Spec.well_sep segs = true
      ∧ c_str line = lead +:+ Spec.render segs)
  ∧ (∀ lead segs,
      Spec.delim_run lead = true → Spec.well_sep segs = true →
      Parser.parse_input (lead +:+ Spec.render segs) = mk_args segs.*1)
  ∧ (∀ line, Spec.delim_run line = true → Parser.parse_input line = mk_args [])
  ∧ (∀ n m,
      Parser.parse_input ("ls" +:+ Spec.spaces (S n) +:+ "-la"
                          +:+ Spec.spaces (S m) +:+ "/tmp")
      = mk_args ["ls"; "-la"; "/tmp"]).
Proof.
  assert (∀ lead segs,
      Spec.delim_run lead = true → Spec.well_sep segs = true →
      Parser.parse_input (lead +:+ Spec.render segs) = mk_args segs.*1) as Hlay.
  { intros lead segs Hl Hw.
    by rewrite ParserFacts.parse_input_runs, ParserFacts.runs_delim_prefix,
      ParserFacts.runs_render. }
  assert (∀ n, Spec.delim_run (Spec.spaces n) = true) as Hsp.
  { unfold Spec.delim_run. induction n as [|n IH]; [done | by simpl; rewrite IH]. }
  split; [apply ParserFacts.is_delim_spec|].
  split; [|split; [|split; [|split]]].
  - intros line. exists (Spec.runs EmptyString line).
    rewrite !ParserFacts.parse_input_runs, ParserFacts.runs_c_str.
    split; [done|]. split; [|done]. by apply ParserFacts.runs_tokens.
  - apply ParserFacts.c_str_layout.
  - apply Hlay.
  - intros line Hd. specialize (Hlay line [] Hd eq_refl). simpl in Hlay.
    by rewrite ParserFacts.append_nil_r in Hlay.
  - intros n m.
    apply (Hlay EmptyString
             [("ls", Spec.spaces (S n)); ("-la", Spec.spaces (S m)); ("/tmp", EmptyString)]);
      [done|].
    change (Spec.delim_run (Spec.spaces (S n)) && negb false
            && (Spec.delim_run (Spec.spaces (S m)) && negb false && true) = true).
    by rewrite !Hsp.
Qed.

(** C7 at work: a line with leading blanks, tabs and a trailing newline. *)
Lemma parse_input_splits_on_delimiter_runs_witness :
  Parser.parse_input ("  " +:+ Spec.render [("ls", "  "); ("-la", chr "009" +:+ " "); ("/tmp", NL)])
  = mk_args ["ls"; "-la"; "/tmp"].
Proof.
  apply (proj1 (proj2 (proj2 (proj2 parse_input_splits_on_delimiter_runs))));
    reflexivity.
Defined.

(* ===================================================================== *)
(** * The pipeline splitter                                                *)
(* ===================================================================== *)

Module SplitFacts.

Import Spec Executor.

Lemma cell_here (pre : cells) x rest i :
  i = length pre → cell (pre ++ x :: rest) i = x.
Proof. intros ->. unfold cell. by rewrite list_lookup_middle. Qed.

Lemma insert_here (pre : cells) x y rest i :
  i = length pre → <[i := y]> (pre ++ x :: rest) = pre ++ y :: rest.
Proof.
  intros ->. rewrite insert_app_r_alt by lia. by rewrite Nat.sub_diag.
Qed.

Lemma is_pipe_eq t : is_pipe t = true → t = "|".
Proof. apply String.eqb_eq. Qed.

Lemma mk_args_cons t toks : mk_args (t :: toks) = Some t :: mk_args toks.
Proof. done. Qed.

Lemma cut_cons t toks :
  cut (t :: toks) = (if is_pipe t then None else Some t) :: cut toks.
Proof. done. Qed.

Lemma snoc_shift {A} (pre : list A) x l : pre ++ x :: l = (pre ++ [x]) ++ l.
Proof. by rewrite <- app_assoc. Qed.

Lemma length_snoc {A} (pre : list A) x i : i = length pre → S i = length (pre ++ [x]).
Proof. intros ->. rewrite length_app. simpl. lia. Qed.

(** The counting loop counts the [|] tokens. *)
Lemma count_pipes_cons t toks :
  count_pipes (t :: toks)
  = ((if is_pipe t then 1 else 0) + count_pipes toks)%nat.
Proof.
  unfold count_pipes. rewrite filter_cons.
  destruct (is_pipe t) eqn:Hp.
  - by rewrite decide_True.
  - by rewrite decide_False.
Qed.

Lemma count_pipes_from_spec toks pre fuel i n :
  i = length pre → (length toks ≤ fuel)%nat →
  count_pipes_from fuel i (pre ++ mk_args toks) n = (n + count_pipes toks)%nat.
Proof.
  revert pre fuel i n. induction toks as [|t toks IH]; intros pre fuel i n Hi Hf.
  - change (mk_args []) with [@None string].
    destruct fuel; simpl; rewrite ?cell_here by done; unfold count_pipes; simpl; lia.
  - destruct fuel as [|fuel]; [simpl in Hf; lia|].
    rewrite mk_args_cons, count_pipes_cons. simpl.
    rewrite cell_here by done. rewrite snoc_shift.
    rewrite IH; [| by apply length_snoc | simpl in Hf; lia].
    fold (is_pipe t). destruct (is_pipe t); lia.
Qed.

(** The splitting loop writes NULL over every [|] and stores the offset of
    the cell after it. *)
Lemma split_from_spec toks pre fuel i cmd :
  i = length pre → (length toks ≤ fuel)%nat →
  split_from fuel i (pre ++ mk_args toks) cmd
  = (pre ++ cut toks, cmd ++ pipe_offsets i toks).
Proof.
  revert pre fuel i cmd. induction toks as [|t toks IH]; intros pre fuel i cmd Hi Hf.
  - change (mk_args []) with [@None string]. change (cut []) with [@None string].
    simpl. rewrite app_nil_r.
    destruct fuel; simpl; by rewrite ?cell_here.
  - destruct fuel as [|fuel]; [simpl in Hf; lia|].
    rewrite mk_args_cons, cut_cons. simpl.
    rewrite cell_here by done. fold (is_pipe t).
    destruct (is_pipe t) eqn:Hp.
    + rewrite insert_here by done. rewrite snoc_shift.
      rewrite IH; [| by apply length_snoc | simpl in Hf; lia].
      by rewrite <- !app_assoc.
    + rewrite snoc_shift.
      rewrite IH; [| by apply length_snoc | simpl in Hf; lia].
      by rewrite <- !app_assoc.
Qed.

(** Read back through the stored offsets, the array gives the token list
    cut at the [|]. *)
Lemma argv_at_here (pre a : cells) i :
  i = length pre → argv_at (pre ++ a) i = argv_of a.
Proof. intros ->. unfold argv_at. by rewrite drop_app_length. Qed.

Lemma stages_cut toks pre i :
  i = length pre →
  argv_at (pre ++ cut toks) i :: (argv_at (pre ++ cut toks) <$> pipe_offsets i toks)
  = split_at_pipes toks.
Proof.
  revert pre i. induction toks as [|t toks IH]; intros pre i Hi.
  - by rewrite argv_at_here.
  - rewrite cut_cons. rewrite argv_at_here by done. simpl.
    rewrite <- (IH (pre ++ [if is_pipe t then None else Some t]) (S i))
      by (by apply length_snoc).
    rewrite <- snoc_shift.
    destruct (is_pipe t) eqn:Hp; simpl; [done|].
    f_equal. f_equal. rewrite snoc_shift, argv_at_here; [done|].
    by apply length_snoc.
Qed.

Lemma split_pipeline_spec toks :
  split_pipeline (mk_args toks) = (cut toks, 0%nat :: pipe_offsets 0 toks).
Proof.
  unfold split_pipeline.
  rewrite (split_from_spec toks [] _ 0 [0%nat]); [done | done |].
  rewrite length_mk_args. lia.
Qed.

Lemma stages_of_split toks :
  stages_of (split_pipeline (mk_args toks)) = split_at_pipes toks.
Proof.
  rewrite split_pipeline_spec. unfold stages_of. simpl.
  by rewrite <- (stages_cut toks [] 0).
Qed.

(** Properties of the cut. *)
Lemma split_at_pipes_length toks :
  length (split_at_pipes toks) = S (count_pipes toks).
Proof.
  induction toks as [|t toks IH]; [done|].
  unfold count_pipes in *. rewrite filter_cons. simpl.
  destruct (is_pipe t) eqn:Hp.
  - rewrite decide_True by done. simpl. by rewrite IH.
  - rewrite decide_False by (by intros ?).
    destruct (split_at_pipes toks); simpl in *; [lia | done].
Qed.

Lemma split_at_pipes_free toks :
  Forall (Forall (λ t, is_pipe t = false)) (split_at_pipes toks).
Proof.
  induction toks as [|t toks IH]; simpl; [by repeat constructor|].
  destruct (is_pipe t) eqn:Hp; [by constructor|].
  destruct (split_at_pipes toks) as [|st sts]; [by repeat constructor|].
  inversion IH; subst. constructor; [by constructor | done].
Qed.

Lemma rejoin_split toks : rejoin (split_at_pipes toks) = toks.
Proof.
  induction toks as [|t toks IH]; [done|]. simpl.
  pose proof (split_at_pipes_length toks) as Hl.
  destruct (is_pipe t) eqn:Hp.
  - apply is_pipe_eq in Hp as ->.
    destruct (split_at_pipes toks) as [|st sts]; [done|].
    simpl. simpl in IH. by rewrite IH.
  - destruct (split_at_pipes toks) as [|st sts]; [done|].
    destruct sts; simpl in *; by rewrite <- IH.
Qed.

Lemma split_at_pipes_tail_nonempty toks z :
  last toks = Some z → is_pipe z = false → no_pipe_pair toks = true →
  ∃ st sts, split_at_pipes toks = st :: sts
    ∧ Forall (λ st, st ≠ []) sts
    ∧ (st = [] → ∃ a r, toks = a :: r ∧ is_pipe a = true).
Proof.
  induction toks as [|t toks IH]; [done|].
  intros Hlast Hz Hpair. destruct toks as [|u r].
  - injection Hlast as ->. simpl. rewrite Hz. by eexists _, _.
  - change (last (u :: r) = Some z) in Hlast.
    change (negb (is_pipe t && is_pipe u) && no_pipe_pair (u :: r) = true) in Hpair.
    apply andb_prop in Hpair as [Htu Hpair].
    destruct (IH Hlast Hz Hpair) as (st & sts & Hs & Hsts & Hst).
    change (split_at_pipes (t :: u :: r))
      with (if is_pipe t then [] :: split_at_pipes (u :: r)
            else match split_at_pipes (u :: r) with
                 | st :: sts => (t :: st) :: sts
                 | [] => [[t]]
                 end).
    rewrite Hs. destruct (is_pipe t) eqn:Hp.
    + eexists _, _. split; [done|]. split; [|by eexists _, _].
      constructor; [|done]. intros ->.
      destruct (Hst eq_refl) as (a & r' & [= <- <-] & Ha).
      by rewrite Ha in Htu.
    + eexists _, _. split; [done|]. split; [done|]. done.
Qed.

Lemma split_at_pipes_nonempty toks :
  no_empty_stage toks = true → Forall (λ st, st ≠ []) (split_at_pipes toks).
Proof.
  unfold no_empty_stage. intros H.
  destruct (head toks) as [a|] eqn:Ha; [|done].
  destruct (last toks) as [z|] eqn:Hz; [|done].
  apply andb_prop in H as [H Hpair]. apply andb_prop in H as [Hna Hnz].
  apply negb_true_iff in Hna, Hnz.
  destruct (split_at_pipes_tail_nonempty toks z Hz Hnz Hpair)
    as (st & sts & -> & Hsts & Hst).
  constructor; [|done]. intros ->.
  destruct (Hst eq_refl) as (a' & r & -> & Ha').
  injection Ha as ->. by rewrite Ha' in Hna.
Qed.

End SplitFacts.

(* ===================================================================== *)
(** * Descriptor tables                                                    *)
(* ===================================================================== *)

Module SysFacts.

Lemma tbl_get_of_nat (t : gmap nat target) n : tbl_get t (Z.of_nat n) = t !! n.
Proof.
  unfold tbl_get. destruct (Z.ltb_spec (Z.of_nat n) 0); [lia|].
  by rewrite Nat2Z.id.
Qed.

Lemma tbl_get_Some (t : gmap nat target) fd tg :
  tbl_get t fd = Some tg → ∃ n, fd = Z.of_nat n ∧ t !! n = Some tg.
Proof.
  unfold tbl_get. intros Hg. destruct (Z.ltb_spec fd 0); [done|].
  exists (Z.to_nat fd). split; [lia | done].
Qed.

Lemma lowest_free_Some E (t : gmap nat target) n :
  lowest_free E t = Some n → t !! n = None.
Proof.
  unfold lowest_free. intros H. apply find_some in H as [_ H].
  unfold is_free in H. by destruct (t !! n).
Qed.

(** [dup] of a bound descriptor: either the table is full and nothing
    changes, or a free descriptor now shares the target. *)
Lemma sys_dup_bound E w fd tg :
  tbl_get (fds w) fd = Some tg →
  (sys_dup E w fd = (w, -1) ∧ lowest_free E (fds w) = None)
  ∨ (∃ n, fds w !! n = None ∧ lowest_free E (fds w) = Some n
        ∧ sys_dup E w fd = (set_fds (<[n := tg]> (fds w)) w, Z.of_nat n)).
Proof.
  intros H. unfold sys_dup, tbl_dup. rewrite H.
  destruct (lowest_free E (fds w)) as [n|] eqn:Hn.
  - right. exists n. split; [by eapply lowest_free_Some | done].
  - left. by destruct w.
Qed.

Lemma fds_sys_dup2 w a b : fds (sys_dup2 w a b).1 = (tbl_dup2 (fds w) a b).1.
Proof. unfold sys_dup2. by destruct (tbl_dup2 (fds w) a b). Qed.

Lemma fds_sys_close w a : fds (sys_close w a).1 = (tbl_close (fds w) a).1.
Proof. unfold sys_close. by destruct (tbl_close (fds w) a). Qed.

Lemma tbl_dup2_other (t : gmap nat target) a b k :
  k ≠ Z.to_nat b → (tbl_dup2 t a b).1 !! k = t !! k.
Proof.
  intros Hk. unfold tbl_dup2. destruct (tbl_get t a); simpl; [|done].
  by rewrite lookup_insert_ne.
Qed.

Lemma tbl_dup2_hit (t : gmap nat target) n tg b :
  t !! n = Some tg → (tbl_dup2 t (Z.of_nat n) b).1 !! Z.to_nat b = Some tg.
Proof.
  intros Hn. unfold tbl_dup2. rewrite tbl_get_of_nat, Hn. simpl.
  by rewrite lookup_insert_eq.
Qed.

Lemma tbl_close_other (t : gmap nat target) a k :
  Z.of_nat k ≠ a → (tbl_close t a).1 !! k = t !! k.
Proof.
  intros Hk. unfold tbl_close. destruct (tbl_get t a) as [tg|] eqn:Ha; simpl; [|done].
  apply tbl_get_Some in Ha as (n & -> & _).
  rewrite Nat2Z.id, lookup_delete_ne; [done | intros ->; done].
Qed.

(** [open]: one event, and either failure with the table as it was, or a
    descriptor that was free now bound to the file. *)
Lemma sys_open_cases E w path fl :
  ∃ w' fd,
    sys_open E w path fl = (w', fd)
    ∧ trace w' = trace w ++ [EvOpen path fl fd]
    ∧ history w' = history w
    ∧ ((fd = -1 ∧ fds w' = fds w)
       ∨ (∃ n p, fd = Z.of_nat n ∧ path = Some p ∧ fds w !! n = None
            ∧ lowest_free E (fds w) = Some n
            ∧ fds w' = <[n := File p fl (length (trace w))]> (fds w))).
Proof.
  unfold sys_open. destruct path as [p|]; [|eexists _, _; by eauto 10].
  destruct (open_ok E (trace w) p fl); [|eexists _, _; by eauto 10].
  destruct (lowest_free E (fds w)) as [n|] eqn:Hn; [|eexists _, _; by eauto 10].
  eexists _, _. split; [done|]. split; [done|]. split; [done|].
  right. exists n, p. repeat split; try done. by eapply lowest_free_Some.
Qed.

Lemma sys_open_full E w path fl :
  lowest_free E (fds w) = None →
  (sys_open E w path fl).2 = -1 ∧ fds (sys_open E w path fl).1 = fds w.
Proof.
  intros Hfull. unfold sys_open. destruct path as [p|]; [|done].
  destruct (open_ok E (trace w) p fl); [|done]. by rewrite Hfull.
Qed.

End SysFacts.

(* ===================================================================== *)
(** * The redirection resolver                                             *)
(* ===================================================================== *)

Module RedirFacts.

Import Spec Executor SysFacts SplitFacts.

Lemma blank_cons t toks :
  blank (t :: toks) = (if is_redir t then None else Some t) :: blank toks.
Proof. done. Qed.

Lemma argv_of_blank toks : argv_of (blank toks) = before_redir toks.
Proof.
  induction toks as [|t toks IH]; [done|].
  rewrite blank_cons. simpl. destruct (is_redir t); [done | by rewrite IH].
Qed.

Lemma cell_next (pre : cells) toks i :
  i = length pre → cell (pre ++ mk_args toks) i = head toks.
Proof.
  intros Hi. destruct toks as [|t toks].
  - change (mk_args []) with [@None string]. by rewrite cell_here.
  - by rewrite mk_args_cons, cell_here.
Qed.

Section WithEnv.

Variable E : env.

(** The state after an [open] and the [perror] that follows a failure. *)
Lemma open_then_perror w path fl :
  ∃ w1 fd,
    sys_open E w path fl = (w1, fd)
    ∧ let w2 := if fd <? 0 then perror "shell" w1 else w1 in
      trace w2 = trace w ++ open_events (path, fl, fd)
      ∧ history w2 = history w
      ∧ fds w ⊆ fds w2
      ∧ opened (fds w) (fds w2) (path, fl, fd).
Proof.
  destruct (sys_open_cases E w path fl) as (w1 & fd & Hopen & Htr & Hh & Hfd).
  exists w1, fd. split; [done|]. unfold open_events, opened.
  destruct Hfd as [[-> Hfds]|(n & p & -> & _ & Hfree & _ & Hfds)].
  - simpl. rewrite Htr, <- app_assoc. repeat split; try done; [|by left].
    by rewrite Hfds.
  - simpl. destruct (Z.ltb_spec (Z.of_nat n) 0); [lia|]. simpl.
    rewrite Htr, Hfds. repeat split; try done.
    + by apply insert_subseteq.
    + right. exists n. rewrite lookup_insert_eq. by eauto.
Qed.

Lemma handle_redirection_from_spec toks pre fuel i w in_fd out_fd :
  i = length pre → (length toks ≤ fuel)%nat →
  ∃ w' in' out' outs,
    handle_redirection_from E fuel i w (pre ++ mk_args toks) in_fd out_fd
    = (w', pre ++ blank toks, in', out')
    ∧ resolved w w' toks in_fd out_fd in' out' outs.
Proof.
  revert pre fuel i w in_fd out_fd.
  induction toks as [|t toks IH]; intros pre fuel i w in_fd out_fd Hi Hf.
  { exists w, in_fd, out_fd, [].
    change (mk_args []) with [@None string]. change (blank []) with [@None string].
    split; [destruct fuel; simpl; by rewrite ?cell_here|].
    unfold resolved. simpl. rewrite app_nil_r. by repeat split. }
  destruct fuel as [|fuel]; [simpl in Hf; lia|].
  rewrite mk_args_cons, blank_cons. simpl.
  rewrite cell_here by done. unfold is_redir.
  assert (∀ fl w1 fd,
    flag_of t = fl →
    sys_open E w (head toks) fl = (w1, fd) →
    is_redir t = true →
    ∃ w' in' out' outs,
      handle_redirection_from E fuel (S i)
        (if fd <? 0 then perror "shell" w1 else w1)
        ((pre ++ [None]) ++ mk_args toks)
        (if oflag_eqb O_RDONLY fl then fd else in_fd)
        (if oflag_eqb O_WRONLY_CREAT_TRUNC fl then fd else out_fd)
      = (w', pre ++ None :: blank toks, in', out')
      ∧ resolved w w' (t :: toks) in_fd out_fd in' out' outs) as Hstep.
  { intros fl w1 fd Hfl Hopen Hredir.
    destruct (open_then_perror w (head toks) fl) as (w1' & fd' & Hopen' & Hw2).
    rewrite Hopen in Hopen'. injection Hopen' as <- <-.
    cbv zeta in Hw2. destruct Hw2 as (Htr & Hh & Hsub & Hfd).
    set (w2 := if fd <? 0 then perror "shell" w1 else w1) in *.
    destruct (IH (pre ++ [None]) fuel (S i) w2
                (if oflag_eqb O_RDONLY fl then fd else in_fd)
                (if oflag_eqb O_WRONLY_CREAT_TRUNC fl then fd else out_fd))
      as (w' & in' & out' & outs & Hrun & Hreq & Htr' & Hh' & Hsub' & Hin & Hout & Hopen');
      [by apply length_snoc | simpl in Hf; lia |].
    exists w', in', out', ((head toks, fl, fd) :: outs).
    split; [by rewrite Hrun, <- snoc_shift|].
    unfold resolved. repeat split.
    - rewrite fmap_cons, Hreq. simpl. by rewrite Hredir, Hfl.
    - rewrite Htr', Htr, fmap_cons. simpl. by rewrite <- app_assoc.
    - by rewrite Hh'.
    - by etrans.
    - done.
    - done.
    - constructor.
      + destruct Hfd as [Hfd|(n & Hn & Hfree & [tg Htg])]; [by left | right].
        exists n. repeat split; try done. exists tg. by eapply lookup_weaken.
      + eapply Forall_impl; [exact Hopen'|].
        intros o [Ho|(n & Hn & Hfree & Hb)]; [by left | right].
        exists n. repeat split; try done. by eapply lookup_weaken_None. }
  destruct (streq t ">") eqn:Hgt.
  - rewrite insert_here by done. rewrite snoc_shift.
    rewrite cell_next by (rewrite length_app; simpl; lia).
    destruct (sys_open E w (head toks) O_WRONLY_CREAT_TRUNC) as [w1 fd] eqn:Hopen.
    simpl.
    assert (flag_of t = O_WRONLY_CREAT_TRUNC) as Hfl by (unfold flag_of; by rewrite Hgt).
    apply (Hstep _ _ _ Hfl Hopen). unfold is_redir. by rewrite Hgt.
  - destruct (streq t "<") eqn:Hlt; simpl.
    + rewrite insert_here by done. rewrite snoc_shift.
      rewrite cell_next by (rewrite length_app; simpl; lia).
      destruct (sys_open E w (head toks) O_RDONLY) as [w1 fd] eqn:Hopen.
      assert (flag_of t = O_RDONLY) as Hfl by (unfold flag_of; by rewrite Hgt).
      apply (Hstep _ _ _ Hfl Hopen). unfold is_redir. by rewrite Hgt, Hlt.
    + rewrite snoc_shift.
      destruct (IH (pre ++ [Some t]) fuel (S i) w in_fd out_fd)
        as (w' & in' & out' & outs & Hrun & Hreq & Htr' & Hh' & Hsub' & Hin & Hout & Hopen');
        [by apply length_snoc | simpl in Hf; lia |].
      exists w', in', out', outs. split; [by rewrite Hrun, <- snoc_shift|].
      unfold resolved. repeat split; try done.
      simpl. unfold is_redir. by rewrite Hgt, Hlt.
Qed.

Lemma handle_redirection_spec toks w in_fd out_fd :
  ∃ w' in' out' outs,
    handle_redirection E w (mk_args toks) in_fd out_fd
    = (w', blank toks, in', out')
    ∧ resolved w w' toks in_fd out_fd in' out' outs.
Proof.
  unfold handle_redirection.
  apply (handle_redirection_from_spec toks [] _ 0); [done|].
  rewrite length_mk_args. lia.
Qed.

End WithEnv.

(** The last [open] with given flags decides. *)
Lemma pick_last fl d (outs rest : list outcome) p fd :
  Forall (λ o : outcome, oflag_eqb fl o.1.2 = false) rest →
  pick fl d (outs ++ (p, fl, fd) :: rest) = fd.
Proof.
  intros Hrest. revert d. induction outs as [|o outs IH]; intros d; simpl.
  - replace (oflag_eqb fl fl) with true by (by destruct fl).
    clear -Hrest. induction Hrest as [|o rest Ho _ IH]; simpl; [done|].
    by rewrite Ho.
  - apply IH.
Qed.

(** The tokens before the first operator. *)
Lemma before_redir_free toks : Forall (λ t, is_redir t = false) (before_redir toks).
Proof.
  induction toks as [|t toks IH]; simpl; [done|].
  destruct (is_redir t) eqn:Ht; [done | by constructor].
Qed.

Lemma before_redir_prefix toks : before_redir toks `prefix_of` toks.
Proof.
  induction toks as [|t toks IH]; simpl; [done|].
  destruct (is_redir t); [apply prefix_nil | by apply prefix_cons].
Qed.

Lemma before_redir_app pre op rest :
  Forall (λ t, is_redir t = false) pre → is_redir op = true →
  before_redir (pre ++ op :: rest) = pre.
Proof.
  intros Hpre Hop. induction Hpre as [|t pre Ht _ IH]; simpl.
  - by rewrite Hop.
  - by rewrite Ht, IH.
Qed.

Lemma before_redir_split toks :
  toks = before_redir toks ++ drop (length (before_redir toks)) toks.
Proof.
  induction toks as [|t toks IH]; simpl; [done|].
  destruct (is_redir t); simpl; [done | by f_equal].
Qed.

(** Tokens that are no operators are kept where they are. *)
Lemma without_redir_pairs_before pre rest :
  Forall (λ t, is_redir t = false) pre →
  without_redir_pairs (pre ++ rest) = pre ++ without_redir_pairs rest.
Proof.
  intros Hpre. induction Hpre as [|t pre Ht _ IH]; simpl; [done|].
  by rewrite Ht, IH.
Qed.

Lemma without_redir_pairs_app pre op file :
  Forall (λ t, is_redir t = false) pre → is_redir op = true →
  without_redir_pairs (pre ++ [op; file]) = pre.
Proof.
  intros Hpre Hop. induction Hpre as [|t pre Ht _ IH]; simpl.
  - by rewrite Hop.
  - by rewrite Ht, IH.
Qed.

Lemma redir_requests_app pre op file :
  Forall (λ t, is_redir t = false) pre → is_redir op = true → is_redir file = false →
  redir_requests (pre ++ [op; file]) = [(Some file, flag_of op)].
Proof.
  intros Hpre Hop Hfile. induction Hpre as [|t pre Ht _ IH]; simpl.
  - by rewrite Hop, Hfile.
  - by rewrite Ht, IH.
Qed.

End RedirFacts.

(* ===================================================================== *)
(** * The launcher and the dispatcher                                      *)
(* ===================================================================== *)

Module DispatchFacts.

Import Spec Builtins Executor SysFacts SplitFacts RedirFacts.

Lemma streq_neq a b : a ≠ b → streq a b = false.
Proof. intros H. by apply String.eqb_neq. Qed.

Lemma find_builtin_None name :
  name ∉ builtin_str → find_builtin name builtin_str builtin_func = None.
Proof.
  intros H. unfold builtin_str in *. simpl.
  repeat (rewrite streq_neq; [|intros ->; apply H; set_solver]).
  done.
Qed.

Lemma launch_process_spec E w args :
  ∃ w' evs,
    launch_process E w args = (w', 1)
    ∧ trace w' = trace w ++ evs
    ∧ fds w' = fds w
    ∧ history w' = history w
    ∧ launch_events args (fds w) evs.
Proof.
  unfold launch_process, sys_fork, child_exec, sys_execvp, sys_wait, perror.
  destruct (fork_ok E (trace w)).
  - simpl. destruct (cell args 0) as [f|] eqn:Hc; [destruct (exec_ok E _ f _)|].
    all: eexists _, _; (split; [done|]); simpl; rewrite <- ?app_assoc.
    all: repeat split; unfold launch_events; rewrite Hc; right.
    all: first [by exists true | by exists false].
  - eexists _, _. split; [done|]. simpl. rewrite <- !app_assoc.
    repeat split. by left.
Qed.

Lemma trace_sys_dup E w fd : trace (sys_dup E w fd).1 = trace w.
Proof. unfold sys_dup. by destruct (tbl_dup E (fds w) fd). Qed.

Lemma trace_sys_dup2 w a b : trace (sys_dup2 w a b).1 = trace w.
Proof. unfold sys_dup2. by destruct (tbl_dup2 (fds w) a b). Qed.

Lemma trace_sys_close w fd : trace (sys_close w fd).1 = trace w.
Proof. unfold sys_close. by destruct (tbl_close (fds w) fd). Qed.

(** [dup], [dup2] and [close] leave no event. *)
Create Rewrite HintDb silent_calls.
#[local] Hint Rewrite trace_sys_dup trace_sys_dup2 trace_sys_close : silent_calls.

Lemma trace_redirect_streams w i o : trace (redirect_streams w i o) = trace w.
Proof.
  unfold redirect_streams.
  destruct (bool_decide (o ≠ -1)), (bool_decide (i ≠ -1));
    by autorewrite with silent_calls.
Qed.

Lemma trace_restore_streams w i o : trace (restore_streams w i o) = trace w.
Proof. unfold restore_streams. by autorewrite with silent_calls. Qed.

(** The path of [execute_command] for a line without [|] whose first token
    is not a built-in. *)
Lemma execute_command_unregistered E w toks name :
  head toks = Some name → count_pipes toks = 0%nat →
  find_builtin name builtin_str builtin_func = None →
  execute_command E w (mk_args toks)
  = let '(w1, saved_stdin) := sys_dup E w 0 in
    let '(w2, saved_stdout) := sys_dup E w1 1 in
    let '(w3, args, in_fd, out_fd) := handle_redirection E w2 (mk_args toks) (-1) (-1) in
    let '(w4, status) := launch_process E (redirect_streams w3 in_fd out_fd) args in
    (restore_streams w4 saved_stdin saved_stdout, status).
Proof.
  intros Hhead Hcount Hname. unfold execute_command.
  destruct (sys_dup E w 0) as [w1 saved_stdin].
  destruct (sys_dup E w1 1) as [w2 saved_stdout].
  rewrite cell_mk_args_head, Hhead.
  rewrite (count_pipes_from_spec toks [] _ 0 0 eq_refl) by (rewrite length_mk_args; lia).
  rewrite Hcount. change (0 <? 0 + 0)%nat with false. cbv iota.
  rewrite Hname.
  destruct (handle_redirection E w2 (mk_args toks) (-1) (-1)) as [[[w3 args] in_fd] out_fd].
  unfold redirect_streams.
  by destruct (launch_process E _ args) as [w4 status].
Qed.

Lemma execute_command_external E w toks name :
  head toks = Some name → count_pipes toks = 0%nat → name ∉ builtin_str →
  execute_command E w (mk_args toks)
  = let '(w1, saved_stdin) := sys_dup E w 0 in
    let '(w2, saved_stdout) := sys_dup E w1 1 in
    let '(w3, args, in_fd, out_fd) := handle_redirection E w2 (mk_args toks) (-1) (-1) in
    let '(w4, status) := launch_process E (redirect_streams w3 in_fd out_fd) args in
    (restore_streams w4 saved_stdin saved_stdout, status).
Proof.
  intros Hhead Hcount Hname.
  apply (execute_command_unregistered E w toks name); try done.
  by apply find_builtin_None.
Qed.

(** The path of [execute_command] for a line with [|]. *)
Lemma execute_command_pipeline E w toks :
  (0 < count_pipes toks)%nat →
  execute_command E w (mk_args toks)
  = execute_pipeline E (sys_dup E (sys_dup E w 0).1 1).1
      (split_pipeline (mk_args toks)).1 (split_pipeline (mk_args toks)).2
      (count_pipes toks + 1).
Proof.
  intros Hpos. unfold execute_command.
  destruct (sys_dup E w 0) as [w1 saved_stdin]. cbn [fst].
  destruct (sys_dup E w1 1) as [w2 saved_stdout]. cbn [fst].
  rewrite cell_mk_args_head.
  destruct toks as [|a toks]; [unfold count_pipes in Hpos; simpl in Hpos; lia|].
  cbn [head].
  rewrite (count_pipes_from_spec (a :: toks) [] _ 0 0 eq_refl)
    by (rewrite length_mk_args; lia).
  cbn [Nat.add].
  destruct (Nat.ltb_spec 0 (count_pipes (a :: toks))) as [_|]; [|lia].
  by destruct (split_pipeline (mk_args (a :: toks))) as [args cmd_args].
Qed.

End DispatchFacts.

(** C5.  For a token list with exactly [k] tokens [|] and no empty stage
    (it neither starts nor ends with [|] and has no two [|] in a row), the
    split the dispatcher performs yields exactly [k + 1] stages, all
    non-empty, none containing [|], and joining them with [|] gives the
    token list back; and when [k > 0] these stages, as the array after the
    split and the offsets into it, are what the dispatcher hands to the
    pipeline executor together with the count [k + 1]. *)
Theorem split_pipeline_round_trip (toks : list string) (k : nat) :
  Spec.count_pipes toks = k → Spec.no_empty_stage toks = true →
  let split := Executor.split_pipeline (mk_args toks) in
  let stages := Executor.stages_of split in
  length stages = (k + 1)%nat
  ∧ Forall (λ st, st ≠ []) stages
  ∧ Forall (λ st, "|" ∉ st) stages
  ∧ Spec.rejoin stages = toks
  ∧ (∀ E w, (0 < k)%nat →
       Executor.execute_command E w (mk_args toks)
       = Executor.execute_pipeline E (sys_dup E (sys_dup E w 0).1 1).1
           split.1 split.2 (k + 1)).
Proof.
  intros Hk Hne split stages. subst split stages.
  rewrite SplitFacts.stages_of_split.
  split; [rewrite SplitFacts.split_at_pipes_length; lia|].
  split; [by apply SplitFacts.split_at_pipes_nonempty|].
  split.
  { eapply Forall_impl; [apply SplitFacts.split_at_pipes_free|].
    intros st Hst Hin. rewrite Forall_forall in Hst. by apply Hst in Hin. }
  split; [apply SplitFacts.rejoin_split|].
  intros E w Hpos. subst k. by apply DispatchFacts.execute_command_pipeline.
Qed.

(** C5 at work on [ls -l | grep x | wc]. *)
Lemma split_pipeline_round_trip_witness :
  let toks := ["ls"; "-l"; "|"; "grep"; "x"; "|"; "wc"] in
  let stages := Executor.stages_of (Executor.split_pipeline (mk_args toks)) in
  stages = [["ls"; "-l"]; ["grep"; "x"]; ["wc"]]
  ∧ length stages = 3%nat
  ∧ Spec.rejoin stages = toks.
Proof.
  pose proof (split_pipeline_round_trip
                ["ls"; "-l"; "|"; "grep"; "x"; "|"; "wc"] 2 eq_refl eq_refl) as H.
  simpl in H. destruct H as (Hlen & _ & _ & Hjoin & _).
  split; [reflexivity|]. split; [exact Hlen | exact Hjoin].
Defined.

(** C3, as stated, fails: with a token after the filename, the resolver
    leaves the program [["cat"]], while removing exactly the operator and
    the filename would leave [["cat"; "notes.txt"]]. *)
Lemma resolver_drops_tokens_after_filename :
  let toks := ["cat"; ">"; "out.txt"; "notes.txt"] in
  let run := Executor.handle_redirection Run.granting Run.fresh (mk_args toks) (-1) (-1) in
  argv_at run.1.1.2 0 = ["cat"]
  ∧ Spec.without_redir_pairs toks = ["cat"; "notes.txt"]
  ∧ argv_at run.1.1.2 0 ≠ Spec.without_redir_pairs toks
  ∧ trace (Executor.execute_command Run.granting Run.fresh (mk_args toks)).1
    = [EvOpen (Some "out.txt") O_WRONLY_CREAT_TRUNC 5; EvFork true;
       EvExec (Some "cat") ["cat"] (Some (Tty 0))
         (Some (File "out.txt" O_WRONLY_CREAT_TRUNC 0)) true;
       EvWait].
Proof.
  split; [by vm_compute|]. split; [by vm_compute|].
  split; [by vm_compute | by vm_compute].
Qed.

(** C3, amended.  For every argument list, the resolver leaves the program
    the tokens before the first redirection operator: no [<], no [>], and
    none of the tokens after the first operator, filenames included.  This
    is the list with exactly every operator and the token following it
    removed if and only if, after the first operator, the list holds
    nothing else than operators, each with the token following it (the last
    operator may be the last token).  The files opened are the ones named
    after the operators, with the flags of their operators, and the two
    descriptor variables end as the results of the last [open] of their
    kind.  In particular [cat > out.txt] leaves the program [cat], opens
    [out.txt] for writing, and resolves the output to the descriptor that
    [open] returned. *)
Theorem resolver_removes_trailing_pairs
    (E : env) (w : world) (toks : list string) (in_fd out_fd : Z) :
  let run := Executor.handle_redirection E w (mk_args toks) in_fd out_fd in
  let left := argv_at run.1.1.2 0 in
  let rest := drop (length (Spec.before_redir toks)) toks in
  left = Spec.before_redir toks
  ∧ toks = left ++ rest
  ∧ (left = Spec.without_redir_pairs toks ↔ Spec.without_redir_pairs rest = [])
  ∧ Forall (λ t, t ≠ "<" ∧ t ≠ ">") left
  ∧ (∃ outs : list Spec.outcome,
       outs.*1 = Spec.redir_requests toks
       ∧ trace run.1.1.1 = trace w ++ concat (Spec.open_events <$> outs)
       ∧ run.1.2 = Spec.pick O_RDONLY in_fd outs
       ∧ run.2 = Spec.pick O_WRONLY_CREAT_TRUNC out_fd outs)
  ∧ (toks = ["cat"; ">"; "out.txt"] →
     left = ["cat"]
     ∧ trace run.1.1.1
       = trace w ++ Spec.open_events (Some "out.txt", O_WRONLY_CREAT_TRUNC, run.2)
     ∧ run.1.2 = in_fd).
Proof.
  intros run left rest. subst run left rest.
  destruct (RedirFacts.handle_redirection_spec E toks w in_fd out_fd)
    as (w' & in' & out' & outs & Hrun & Hreq & Htr & _ & _ & Hin & Hout & _).
  rewrite Hrun. cbn [fst snd].
  rewrite argv_at_0, RedirFacts.argv_of_blank.
  pose proof (RedirFacts.before_redir_split toks) as Hsplit.
  pose proof (RedirFacts.before_redir_free toks) as Hfree.
  split; [done|]. split; [done|]. split.
  { rewrite Hsplit at 2.
    rewrite RedirFacts.without_redir_pairs_before by done. split.
    - intros Heq. apply (app_inv_head (Spec.before_redir toks)).
      by rewrite app_nil_r.
    - intros ->. by rewrite app_nil_r. }
  split.
  { eapply Forall_impl; [exact Hfree|].
    intros t Ht. unfold Spec.is_redir, streq in Ht.
    apply orb_false_iff in Ht as [Hgt Hlt].
    apply String.eqb_neq in Hgt, Hlt. done. }
  split; [by exists outs|].
  intros ->. split; [done|].
  destruct outs as [|[[p fl] fd] [|? ?]]; try done.
  injection Hreq as -> ->. simpl in Htr, Hin, Hout. subst in' out'.
  by rewrite app_nil_r in Htr.
Qed.

(** C3, amended, at work on [sort < in > out]: two operators, each with its
    filename, and nothing else after the first. *)
Lemma resolver_removes_trailing_pairs_witness :
  let toks := ["sort"; "<"; "in"; ">"; "out"] in
  argv_at (Executor.handle_redirection Run.granting Run.fresh (mk_args toks) (-1) (-1)).1.1.2 0
  = Spec.without_redir_pairs toks.
Proof.
  apply (proj2 (proj1 (proj2 (proj2
    (resolver_removes_trailing_pairs Run.granting Run.fresh
       ["sort"; "<"; "in"; ">"; "out"] (-1) (-1)))))).
  reflexivity.
Defined.

(** C10.  Whatever the argument list, the resolver issues one [open] for
    every redirection operator in it, left to right, on the token after the
    operator, [>] with create-and-truncate flags and [<] read-only.  Each
    [open] overwrites the descriptor variable of its kind, so the variable
    ends as the result of the last [open] of that kind.  The resolver
    closes nothing: every binding of the descriptor table is kept, and
    every descriptor one of these [open]s returned (a descriptor that was
    free before) is still open when the resolver returns. *)
Theorem resolver_resolves_every_occurrence
    (E : env) (w : world) (toks : list string) (in_fd out_fd : Z) :
  ∃ w' in' out' (outs : list Spec.outcome),
    Executor.handle_redirection E w (mk_args toks) in_fd out_fd
    = (w', Spec.blank toks, in', out')
    ∧ outs.*1 = Spec.redir_requests toks
    ∧ length outs = length (filter (λ t, Spec.is_redir t = true) toks)
    ∧ trace w' = trace w ++ concat (Spec.open_events <$> outs)
    ∧ in' = Spec.pick O_RDONLY in_fd outs
    ∧ out' = Spec.pick O_WRONLY_CREAT_TRUNC out_fd outs
    ∧ (∀ earlier p fd later,
         outs = earlier ++ (p, O_WRONLY_CREAT_TRUNC, fd) :: later →
         Forall (λ o : Spec.outcome, o.1.2 = O_RDONLY) later → out' = fd)
    ∧ (∀ earlier p fd later,
         outs = earlier ++ (p, O_RDONLY, fd) :: later →
         Forall (λ o : Spec.outcome, o.1.2 = O_WRONLY_CREAT_TRUNC) later → in' = fd)
    ∧ fds w ⊆ fds w'
    ∧ Forall (Spec.opened (fds w) (fds w')) outs.
Proof.
  destruct (RedirFacts.handle_redirection_spec E toks w in_fd out_fd)
    as (w' & in' & out' & outs & Hrun & Hreq & Htr & _ & Hsub & Hin & Hout & Hopen).
  exists w', in', out', outs. repeat split; try done.
  - rewrite <- (length_fmap fst outs), Hreq. clear.
    induction toks as [|t toks IH]; [done|]. simpl. rewrite filter_cons.
    destruct (Spec.is_redir t) eqn:Ht.
    + rewrite decide_True by done. simpl. by rewrite IH.
    + by rewrite decide_False.
  - intros earlier p fd later -> Hlater. rewrite Hout.
    apply RedirFacts.pick_last. eapply Forall_impl; [exact Hlater|].
    by intros o ->.
  - intros earlier p fd later -> Hlater. rewrite Hin.
    apply RedirFacts.pick_last. eapply Forall_impl; [exact Hlater|].
    by intros o ->.
Qed.

(** [cat > a > b] in a fresh shell: both files are created, [b] is the
    one the program writes to, and the descriptor of [a] outlives the
    dispatch. *)
Example dispatch_on_repeated_operator :
  let w' := (Executor.execute_command Run.granting Run.fresh
               (mk_args ["cat"; ">"; "a"; ">"; "b"])).1 in
  trace w'
  = [EvOpen (Some "a") O_WRONLY_CREAT_TRUNC 5; EvOpen (Some "b") O_WRONLY_CREAT_TRUNC 6;
     EvFork true;
     EvExec (Some "cat") ["cat"] (Some (Tty 0))
       (Some (File "b" O_WRONLY_CREAT_TRUNC 1)) true;
     EvWait]
  ∧ fds w' !! 5%nat = Some (File "a" O_WRONLY_CREAT_TRUNC 0)
  ∧ fds w' !! 6%nat = None.
Proof. by vm_compute. Qed.

(* ===================================================================== *)
(** * Saving and restoring the standard streams                            *)
(* ===================================================================== *)

Module StreamFacts.

Import Spec Executor SysFacts RedirFacts DispatchFacts.

(** With the descriptor table full, no [open] of the resolver succeeds. *)
Lemma handle_redirection_from_full E fuel i w args :
  lowest_free E (fds w) = None →
  (handle_redirection_from E fuel i w args (-1) (-1)).1.2 = -1
  ∧ (handle_redirection_from E fuel i w args (-1) (-1)).2 = -1.
Proof.
  revert i w args. induction fuel as [|fuel IH]; intros i w args Hfull; [done|].
  simpl. destruct (cell args i) as [a|]; [|done].
  assert (∀ path fl,
    let '(w1, fd) := sys_open E w path fl in
    fd = -1 ∧ lowest_free E (fds (if fd <? 0 then perror "shell" w1 else w1)) = None)
    as Hopen.
  { intros path fl. pose proof (sys_open_full E w path fl Hfull) as [Hfd Hfds].
    destruct (sys_open E w path fl) as [w1 fd]. simpl in *. subst fd.
    split; [done|]. simpl. by rewrite Hfds. }
  destruct (streq a ">").
  - specialize (Hopen (cell (<[i:=None]> args) (i + 1)) O_WRONLY_CREAT_TRUNC).
    destruct (sys_open E w _ O_WRONLY_CREAT_TRUNC) as [w1 fd].
    destruct Hopen as [-> Hfull']. by apply IH.
  - destruct (streq a "<"); [|by apply IH].
    specialize (Hopen (cell (<[i:=None]> args) (i + 1)) O_RDONLY).
    destruct (sys_open E w _ O_RDONLY) as [w1 fd].
    destruct Hopen as [-> Hfull']. by apply IH.
Qed.

(** A descriptor variable is -1 or one of the descriptors opened. *)
Lemma pick_opened fl (outs : list outcome) t t' :
  Forall (opened t t') outs →
  pick fl (-1) outs = -1
  ∨ ∃ n, pick fl (-1) outs = Z.of_nat n ∧ t !! n = None ∧ is_Some (t' !! n).
Proof.
  assert (∀ d, (d = -1 ∨ ∃ n, d = Z.of_nat n ∧ t !! n = None ∧ is_Some (t' !! n)) →
    Forall (opened t t') outs →
    pick fl d outs = -1
    ∨ ∃ n, pick fl d outs = Z.of_nat n ∧ t !! n = None ∧ is_Some (t' !! n)) as H.
  { intros d Hd Houts. revert d Hd.
    induction Houts as [|o outs Ho _ IH]; intros d Hd; simpl; [done|].
    apply IH. by destruct (oflag_eqb fl o.1.2). }
  intros Houts. apply H; [by left | done].
Qed.

Lemma redirect_streams_none w : redirect_streams w (-1) (-1) = w.
Proof. done. Qed.

(** Redirection touches the descriptors 0 and 1 and the two it is given. *)
Lemma redirect_streams_other w in_fd out_fd k :
  k ≠ 0%nat → k ≠ 1%nat → Z.of_nat k ≠ in_fd → Z.of_nat k ≠ out_fd →
  fds (redirect_streams w in_fd out_fd) !! k = fds w !! k.
Proof.
  intros H0 H1 Hi Ho. unfold redirect_streams.
  destruct (bool_decide (out_fd ≠ -1)), (bool_decide (in_fd ≠ -1)).
  all: repeat (rewrite fds_sys_close, tbl_close_other by done;
               rewrite fds_sys_dup2, tbl_dup2_other by done).
  all: done.
Qed.

Lemma restore_streams_spec w saved_stdin saved_stdout tin tout :
  saved_for (fds w) 0 saved_stdin tin →
  saved_for (fds w) 1 saved_stdout tout →
  fds (restore_streams w saved_stdin saved_stdout) !! 0%nat = Some tin
  ∧ fds (restore_streams w saved_stdin saved_stdout) !! 1%nat = Some tout.
Proof.
  unfold restore_streams.
  intros [[-> Hin]|(n1 & -> & Hn10 & Hn11 & Hin)] [[-> Hout]|(n2 & -> & Hn20 & Hn21 & Hout)].
  all: rewrite !fds_sys_close, !fds_sys_dup2.
  all: rewrite !tbl_close_other by lia.
  all: change (tbl_dup2 ?t (-1) ?b).1 with t.
  - done.
  - split.
    + by rewrite tbl_dup2_other.
    + by apply (tbl_dup2_hit _ n2 tout 1).
  - split.
    + by apply (tbl_dup2_hit _ n1 tin 0).
    + by rewrite tbl_dup2_other.
  - split.
    + rewrite tbl_dup2_other by done. by apply (tbl_dup2_hit _ n1 tin 0).
    + apply (tbl_dup2_hit _ n2 tout 1). by rewrite tbl_dup2_other.
Qed.

(** From the snapshot to the moment before the restoration. *)
Lemma snapshot_survives E w2 toks std saved tg :
  fds w2 !! std = Some tg →
  snapshot_of E (fds w2) saved tg →
  let '(w3, args, in_fd, out_fd) := handle_redirection E w2 (mk_args toks) (-1) (-1) in
  let '(w4, status) := launch_process E (redirect_streams w3 in_fd out_fd) args in
  saved_for (fds w4) std saved tg.
Proof.
  intros Hstd Hsnap.
  pose proof (handle_redirection_from_full E (length (mk_args toks)) 0 w2 (mk_args toks))
    as Hfull.
  fold (handle_redirection E w2 (mk_args toks) (-1) (-1)) in Hfull.
  destruct (handle_redirection_spec E toks w2 (-1) (-1))
    as (w3 & in' & out' & outs & Hrun & _ & _ & _ & Hsub & Hin & Hout & Hopen).
  rewrite Hrun in *. simpl in Hfull.
  destruct (launch_process_spec E (redirect_streams w3 in' out') (blank toks))
    as (w4 & levs & -> & _ & Hfds & _). rewrite Hfds.
  destruct Hsnap as [[-> Hfull2]|(n & -> & Hn0 & Hn1 & Hn)].
  - left. split; [done|]. destruct (Hfull Hfull2) as [-> ->].
    rewrite redirect_streams_none. by eapply lookup_weaken.
  - right. exists n. repeat split; try done.
    assert (∀ fl, Z.of_nat n ≠ pick fl (-1) outs) as Hfresh.
    { intros fl. destruct (pick_opened fl outs _ _ Hopen) as [->|(m & -> & Hm & _)]; [lia|].
      intros Heq. apply Nat2Z.inj in Heq as ->. by rewrite Hn in Hm. }
    rewrite redirect_streams_other; try done; [by eapply lookup_weaken | |].
    + rewrite Hin. apply Hfresh.
    + rewrite Hout. apply Hfresh.
Qed.

End StreamFacts.

(** X19.  For a line without [|] whose first token is not a built-in, in a
    shell whose descriptors 0 and 1 are both open: when [execute_command]
    returns, descriptors 0 and 1 are bound to the targets they had before
    the call.  This holds in every environment: whether or not files could
    be opened, the process created, the program found. *)
Theorem standard_streams_restored
    (E : env) (w : world) (toks : list string) (name : string) (tin tout : target) :
  head toks = Some name → Spec.count_pipes toks = 0%nat →
  name ∉ Builtins.builtin_str →
  fds w !! 0%nat = Some tin → fds w !! 1%nat = Some tout →
  fds (Executor.execute_command E w (mk_args toks)).1 !! 0%nat = Some tin
  ∧ fds (Executor.execute_command E w (mk_args toks)).1 !! 1%nat = Some tout.
Proof.
  intros Hhead Hcount Hname Hin Hout.
  rewrite (DispatchFacts.execute_command_external E w toks name) by done.
  assert (∃ w2 saved_stdin saved_stdout,
    sys_dup E w 0 = ((sys_dup E w 0).1, saved_stdin)
    ∧ sys_dup E (sys_dup E w 0).1 1 = (w2, saved_stdout)
    ∧ fds w2 !! 0%nat = Some tin ∧ fds w2 !! 1%nat = Some tout
    ∧ Spec.snapshot_of E (fds w2) saved_stdin tin
    ∧ Spec.snapshot_of E (fds w2) saved_stdout tout)
    as (w2 & saved_stdin & saved_stdout & Hd1 & Hd2 & H0 & H1 & Hs0 & Hs1).
  { destruct (SysFacts.sys_dup_bound E w 0 tin Hin)
      as [[Hdup Hfull]|(n1 & Hn1 & _ & Hdup)]; rewrite Hdup; simpl.
    - destruct (SysFacts.sys_dup_bound E w 1 tout Hout)
        as [[Hdup' _]|(n2 & _ & Hlf & _)]; [|by rewrite Hfull in Hlf].
      exists w, (-1), (-1). repeat split; try done; by left.
    - set (w1 := set_fds (<[n1:=tin]> (fds w)) w).
      assert (n1 ≠ 0%nat) as Hn10 by (intros ->; by rewrite Hin in Hn1).
      assert (n1 ≠ 1%nat) as Hn11 by (intros ->; by rewrite Hout in Hn1).
      assert (fds w1 !! 1%nat = Some tout) as Hout1
        by (simpl; by rewrite lookup_insert_ne).
      destruct (SysFacts.sys_dup_bound E w1 1 tout Hout1)
        as [[Hdup' Hfull]|(n2 & Hn2 & _ & Hdup')].
      + exists w1, (Z.of_nat n1), (-1). repeat split; try done.
        * simpl. by rewrite lookup_insert_ne.
        * right. exists n1. repeat split; try done. simpl. by rewrite lookup_insert_eq.
        * by left.
      + eexists _, (Z.of_nat n1), (Z.of_nat n2). split; [done|]. split; [exact Hdup'|].
        simpl in Hn2.
        assert (n2 ≠ n1) as Hn21 by (intros ->; by rewrite lookup_insert_eq in Hn2).
        rewrite lookup_insert_ne in Hn2 by done.
        assert (n2 ≠ 0%nat) as Hn20 by (intros ->; by rewrite Hin in Hn2).
        assert (n2 ≠ 1%nat) as Hn2' by (intros ->; by rewrite Hout in Hn2).
        simpl. repeat split.
        * by rewrite !lookup_insert_ne.
        * by rewrite !lookup_insert_ne.
        * right. exists n1. repeat split; try done.
          by rewrite lookup_insert_ne, lookup_insert_eq.
        * right. exists n2. repeat split; try done. by rewrite lookup_insert_eq. }
  rewrite Hd1, Hd2.
  pose proof (StreamFacts.snapshot_survives E w2 toks 0%nat saved_stdin tin H0 Hs0) as Ha.
  pose proof (StreamFacts.snapshot_survives E w2 toks 1%nat saved_stdout tout H1 Hs1) as Hb.
  destruct (Executor.handle_redirection E w2 (mk_args toks) (-1) (-1))
    as [[[w3 args] in_fd] out_fd].
  destruct (Executor.launch_process E _ args) as [w4 status].
  by apply StreamFacts.restore_streams_spec.
Qed.

(** C4 at work: [sort < in.txt > out.txt] where no process can be
    created. *)
Lemma standard_streams_restored_witness :
  let w' := (Executor.execute_command Run.no_fork Run.fresh
               (mk_args ["sort"; "<"; "in.txt"; ">"; "out.txt"])).1 in
  fds w' !! 0%nat = Some (Tty 0) ∧ fds w' !! 1%nat = Some (Tty 1).
Proof.
  apply (standard_streams_restored Run.no_fork Run.fresh
           ["sort"; "<"; "in.txt"; ">"; "out.txt"] "sort" (Tty 0) (Tty 1)).
  - reflexivity.
  - reflexivity.
  - not_in_list.
  - reflexivity.
  - reflexivity.
Defined.

(** C4 does not hold of the code: the copies [execute_command] makes of
    descriptors 0 and 1, to restore them from, are whatever [dup] returns,
    and the results are not looked at.  In a shell started with its
    standard output closed, [dup(0)] returns 1, so the copy of the standard
    input sits in descriptor 1.  On [sort > out] the redirection then
    overwrites it ([dup2(out_fd, 1)]), and the restoring [dup2(saved_stdin,
    0)] binds descriptor 0 to the file [out]: after the call the standard
    input of the shell is no longer the terminal, but the output file. *)
Theorem standard_input_lost_when_output_closed :
  let w := Run.output_closed in
  let r := Executor.execute_command Run.granting w (mk_args ["sort"; ">"; "out"]) in
  fds w !! 0%nat = Some (Tty 0) ∧ fds w !! 1%nat = None
  ∧ (sys_dup Run.granting w 0).2 = 1
  ∧ r.2 = 1
  ∧ trace r.1
    = [EvOpen (Some "out") O_WRONLY_CREAT_TRUNC 4; EvFork true;
       EvExec (Some "sort") ["sort"] (Some (Tty 0))
         (Some (File "out" O_WRONLY_CREAT_TRUNC 0)) true;
       EvWait]
  ∧ fds r.1 !! 0%nat = Some (File "out" O_WRONLY_CREAT_TRUNC 0)
  ∧ fds r.1 !! 1%nat = None.
Proof. by vm_compute. Qed.

(* ===================================================================== *)
(** * The built-ins                                                        *)
(* ===================================================================== *)

Module BuiltinFacts.

Import Spec Builtins Executor SysFacts SplitFacts DispatchFacts.

(** The path of [execute_command] for a line without [|] whose first token
    is a built-in: the handler runs on the state the two [dup]s left. *)
Lemma execute_command_builtin E w toks name f :
  head toks = Some name → count_pipes toks = 0%nat →
  find_builtin name builtin_str builtin_func = Some f →
  execute_command E w (mk_args toks)
  = f E (sys_dup E (sys_dup E w 0).1 1).1 (mk_args toks).
Proof.
  intros Hhead Hcount Hf. unfold execute_command.
  destruct (sys_dup E w 0) as [w1 saved_stdin]. cbn [fst].
  destruct (sys_dup E w1 1) as [w2 saved_stdout]. cbn [fst].
  rewrite cell_mk_args_head, Hhead.
  rewrite (count_pipes_from_spec toks [] _ 0 0 eq_refl) by (rewrite length_mk_args; lia).
  rewrite Hcount. change (0 <? 0 + 0)%nat with false. cbv iota.
  by rewrite Hf.
Qed.

Lemma shell_cd_continues E w args : (shell_cd E w args).2 = 1.
Proof. unfold shell_cd. destruct (cell args 1); [|done]. by destruct (chdir_ok _ _ _). Qed.

Lemma shell_count_continues E w args : (shell_count E w args).2 = 1.
Proof.
  unfold shell_count. destruct (cell args 1) as [file|]; [|done].
  destruct (sys_open E w (Some file) O_RDONLY) as [w1 fp].
  destruct (fp <? 0); [done|].
  destruct (count_loop _ 0 0 0 0) as [[lines words] chars].
  by destruct (sys_close _ fp).
Qed.

Lemma shell_cp_continues E w args : (shell_cp E w args).2 = 1.
Proof.
  unfold shell_cp. destruct (cell args 1) as [from|]; [|done].
  destruct (cell args 2) as [to|]; [|done].
  destruct (sys_open E w (Some from) O_RDONLY) as [w1 src].
  destruct (src <? 0); [done|].
  destruct (sys_open E w1 (Some to) O_WRONLY_CREAT_TRUNC) as [w2 dst].
  destruct (dst <? 0).
  - by destruct (sys_close w2 src).
  - destruct (sys_close _ src) as [w3 ?]. by destruct (sys_close w3 dst).
Qed.

Lemma shell_mv_continues E w args : (shell_mv E w args).2 = 1.
Proof.
  unfold shell_mv. destruct (cell args 1); [|done].
  destruct (cell args 2); [|done]. by destruct (rename_ok _ _ _ _).
Qed.

Lemma shell_rm_continues E w args : (shell_rm E w args).2 = 1.
Proof. unfold shell_rm. destruct (cell args 1); [|done]. by destruct (remove_ok _ _ _). Qed.

(** [count] on a file holding the two lines [a b] and [c]. *)
Example count_loop_two_lines :
  count_loop (String.list_ascii_of_string ("a b" +:+ NL +:+ "c" +:+ NL)) 0 0 0 0
  = (2, 3, 6).
Proof. reflexivity. Qed.

(** The registry: which handler a name selects, and what it returns. *)
Lemma find_builtin_returns E w args name f :
  find_builtin name builtin_str builtin_func = Some f →
  (f E w args).2 = if streq name "exit" then 0 else 1.
Proof.
  unfold builtin_str, builtin_func, find_builtin, streq.
  repeat match goal with
         | |- context [String.eqb name ?s] =>
             destruct (String.eqb_spec name s) as [->|?];
             [intros [= <-]; simpl;
              first [ done | apply shell_cd_continues | apply shell_count_continues
                    | apply shell_cp_continues | apply shell_mv_continues
                    | apply shell_rm_continues ] |]
         end.
  done.
Qed.

End BuiltinFacts.

(* ===================================================================== *)
(** * The pipeline executor                                                *)
(* ===================================================================== *)

Module PipelineFacts.

Import Spec Executor.

Lemma forks_app evs1 evs2 : forks (evs1 ++ evs2) = forks evs1 ++ forks evs2.
Proof. apply omap_app. Qed.

Lemma execute_pipeline_continues E w args cmd_args num_cmds :
  (execute_pipeline E w args cmd_args num_cmds).2 = 1.
Proof.
  unfold execute_pipeline.
  destruct (create_pipes E _ w []) as [w1 [pipefd|]]; [|done].
  by destruct (fork_stages E args cmd_args pipefd num_cmds num_cmds 0 w1) as [w2 []].
Qed.

(** Creating the pipes forks nothing. *)
Lemma create_pipes_trace E n w pipefd :
  ∃ evs, trace (create_pipes E n w pipefd).1 = trace w ++ evs ∧ forks evs = [].
Proof.
  revert w pipefd. induction n as [|n IH]; intros w pipefd; simpl.
  { exists []. by rewrite app_nil_r. }
  unfold sys_pipe. destruct (pipe_ok E (trace w)).
  - destruct (lowest_free E (fds w)) as [r|].
    + destruct (lowest_free E _) as [wr|].
      * destruct (IH (emit (EvPipe (Some (Z.of_nat r, Z.of_nat wr)))
                        (set_fds (<[wr:=PipeWr (length (trace w))]>
                                    (<[r:=PipeRd (length (trace w))]> (fds w))) w))
                     (pipefd ++ [Z.of_nat r; Z.of_nat wr])) as (evs & Htr & Hf).
        eexists (_ :: evs). rewrite Htr. simpl. by rewrite <- app_assoc.
      * exists [EvPipe None; EvPerror "pipe"]. simpl. by rewrite <- app_assoc.
    + exists [EvPipe None; EvPerror "pipe"]. simpl. by rewrite <- app_assoc.
  - exists [EvPipe None; EvPerror "pipe"]. simpl. by rewrite <- app_assoc.
Qed.

(** A child forks nothing either. *)
Lemma quiet_refl w : quiet w w.
Proof. exists []. by rewrite app_nil_r. Qed.

Lemma quiet_trans w1 w2 w3 : quiet w1 w2 → quiet w2 w3 → quiet w1 w3.
Proof.
  intros (e1 & H1 & F1) (e2 & H2 & F2). exists (e1 ++ e2).
  by rewrite H2, H1, <- app_assoc, forks_app, F1, F2.
Qed.

Lemma quiet_perror p w : quiet w (perror p w).
Proof. by exists [EvPerror p]. Qed.

Lemma quiet_child_exec E prefix ct file argv w :
  quiet w (child_exec E prefix ct file argv w).
Proof.
  unfold child_exec, sys_execvp, perror.
  destruct file as [f|]; [destruct (exec_ok E (trace w) f argv)|].
  - by eexists [_].
  - eexists [_; _]. simpl. by rewrite <- app_assoc.
  - by eexists [_].
Qed.

Lemma quiet_dup2_step (b : bool) (t : gmap nat target) a n w :
  quiet w (if b
           then let '(ct, r) := tbl_dup2 t a n in
                (ct, if r <? 0 then perror "dup2" w else w)
           else (t, w)).2.
Proof.
  destruct b; [|apply quiet_refl].
  destruct (tbl_dup2 t a n) as [ct r]. simpl.
  destruct (r <? 0); [apply quiet_perror | apply quiet_refl].
Qed.

Lemma pipeline_child_trace E args cmd_args pipefd num_cmds i w :
  quiet w (pipeline_child E args cmd_args pipefd num_cmds i w).
Proof.
  unfold pipeline_child.
  pose proof (quiet_dup2_step (bool_decide (i ≠ 0%nat)) (fds w)
                (nth ((i - 1) * 2) pipefd (-1)) 0 w) as H1.
  destruct (if bool_decide (i ≠ 0%nat) then _ else _) as [ct1 w1]. simpl in H1.
  pose proof (quiet_dup2_step (bool_decide (i ≠ (num_cmds - 1)%nat)) ct1
                (nth (i * 2 + 1) pipefd (-1)) 1 w1) as H2.
  destruct (if bool_decide (i ≠ (num_cmds - 1)%nat) then _ else _) as [ct2 w2].
  simpl in H2.
  eapply quiet_trans; [exact H1|]. eapply quiet_trans; [exact H2|].
  apply quiet_child_exec.
Qed.

(** The forking loop: either all the [rem] forks succeed, or [k < rem] of
    them do, the next fails, and the loop ends on its report. *)
Lemma fork_stages_trace E args cmd_args pipefd num_cmds rem i w :
  ∃ evs,
    trace (fork_stages E args cmd_args pipefd num_cmds rem i w).1 = trace w ++ evs
    ∧ if (fork_stages E args cmd_args pipefd num_cmds rem i w).2
      then forks evs = replicate rem true
      else ∃ k pre, (k < rem)%nat
             ∧ forks evs = replicate k true ++ [false]
             ∧ evs = pre ++ [EvFork false; EvPerror "fork"].
Proof.
  revert i w. induction rem as [|rem IH]; intros i w; simpl.
  { exists []. by rewrite app_nil_r. }
  unfold sys_fork, perror. destruct (fork_ok E (trace w)).
  - destruct (pipeline_child_trace E args cmd_args pipefd num_cmds i
                (emit (EvFork true) w)) as (cevs & Hc & Hcf).
    destruct (IH (S i) (pipeline_child E args cmd_args pipefd num_cmds i
                          (emit (EvFork true) w))) as (evs & Htr & Hf).
    exists (EvFork true :: cevs ++ evs). split.
    + rewrite Htr, Hc. simpl. by rewrite <- !app_assoc.
    + destruct (fork_stages _ _ _ _ _ _ _ _).2.
      * simpl. by rewrite forks_app, Hcf, Hf.
      * destruct Hf as (k & pre & Hk & Hf & Hevs).
        exists (S k), (EvFork true :: cevs ++ pre). split; [lia|]. split.
        -- simpl. by rewrite forks_app, Hcf, Hf.
        -- rewrite Hevs. simpl. by rewrite <- app_assoc.
  - exists [EvFork false; EvPerror "fork"]. split.
    + simpl. by rewrite <- app_assoc.
    + exists 0%nat, []. split; [lia|]. done.
Qed.

Lemma waits_trace n w :
  trace (Nat.iter n sys_wait w) = trace w ++ replicate n EvWait.
Proof.
  induction n as [|n IH]; simpl; [by rewrite app_nil_r|].
  rewrite IH, <- app_assoc. f_equal.
  clear. induction n as [|n IH]; [done|]. simpl. by rewrite <- IH.
Qed.

Lemma forks_waits n : forks (replicate n EvWait) = [].
Proof. induction n as [|n IH]; [done | by simpl]. Qed.

(** The whole executor: the forks it attempts. *)
Lemma execute_pipeline_forks E w args cmd_args num_cmds :
  ∃ evs,
    trace (execute_pipeline E w args cmd_args num_cmds).1 = trace w ++ evs
    ∧ (forks evs = [] ∨ forks evs = replicate num_cmds true
       ∨ ∃ k pre, (k < num_cmds)%nat
           ∧ forks evs = replicate k true ++ [false]
           ∧ evs = pre ++ [EvFork false; EvPerror "fork"]).
Proof.
  unfold execute_pipeline.
  destruct (create_pipes_trace E (num_cmds - 1) w []) as (pevs & Hp & Hpf).
  destruct (create_pipes E _ w []) as [w1 [pipefd|]]; simpl in Hp.
  - destruct (fork_stages_trace E args cmd_args pipefd num_cmds num_cmds 0 w1)
      as (fevs & Hf & Hff).
    destruct (fork_stages E args cmd_args pipefd num_cmds num_cmds 0 w1) as [w2 []];
      simpl in *.
    + exists (pevs ++ fevs ++ replicate num_cmds EvWait). split.
      * rewrite waits_trace. cbn [trace set_fds]. by rewrite Hf, Hp, <- !app_assoc.
      * right. left. by rewrite !forks_app, Hpf, Hff, forks_waits, app_nil_r.
    + destruct Hff as (k & pre & Hk & Hff & Hevs).
      exists (pevs ++ fevs). split; [by rewrite Hf, Hp, <- app_assoc|].
      right. right. exists k, (pevs ++ pre). split; [done|]. split.
      * by rewrite forks_app, Hpf, Hff.
      * by rewrite Hevs, <- app_assoc.
  - exists pevs. split; [done | by left].
Qed.

End PipelineFacts.

(** C2, as stated, fails: where the first [fork] fails and any later one
    would succeed, the executor of the two-stage pipeline [ls | wc] reports
    the failure and returns; the second stage is never attempted. *)
Lemma pipeline_abandons_stages_after_failed_fork :
  let split := Executor.split_pipeline (mk_args ["ls"; "|"; "wc"]) in
  let run := Executor.execute_pipeline Run.first_fork_fails Run.fresh split.1 split.2 2 in
  trace run.1 = [EvPipe (Some (3, 4)); EvFork false; EvPerror "fork"]
  ∧ Spec.forks (trace run.1) = [false]
  ∧ length (Spec.forks (trace run.1)) ≠ 2%nat
  ∧ Sys.fork_ok Run.first_fork_fails (trace run.1) = true.
Proof. by vm_compute. Qed.

(** C2, amended.  In the pipeline executor, if the [fork] for stage [i]
    fails, the failure is reported with [perror("fork")] and the executor
    returns the continue signal at once: that [fork] is the last one
    attempted, so no stage after [i] is spawned. *)
Theorem pipeline_returns_at_failed_fork
    (E : env) (w : world) (args : cells) (cmd_args : list nat) (num_cmds i : nat)
    (evs : list event) :
  trace (Executor.execute_pipeline E w args cmd_args num_cmds).1 = trace w ++ evs →
  Spec.forks evs !! i = Some false →
  (Executor.execute_pipeline E w args cmd_args num_cmds).2 = 1
  ∧ length (Spec.forks evs) = S i
  ∧ (i < num_cmds)%nat
  ∧ ∃ pre, evs = pre ++ [EvFork false; EvPerror "fork"].
Proof.
  intros Htr Hi. split; [apply PipelineFacts.execute_pipeline_continues|].
  destruct (PipelineFacts.execute_pipeline_forks E w args cmd_args num_cmds)
    as (evs' & Htr' & Hforks).
  rewrite Htr in Htr'. apply app_inv_head in Htr' as <-.
  destruct Hforks as [Hf|[Hf|(k & pre & Hk & Hf & Hevs)]]; rewrite Hf in *.
  - done.
  - apply lookup_replicate in Hi as [? _]. done.
  - assert (i = k) as ->.
    { destruct (decide (i < k)%nat) as [Hlt|Hge].
      - rewrite lookup_app_l in Hi by (by rewrite length_replicate).
        apply lookup_replicate in Hi as [? _]. done.
      - rewrite lookup_app_r in Hi by (rewrite length_replicate; lia).
        rewrite length_replicate in Hi.
        destruct (i - k)%nat as [|n] eqn:Hd; [lia | done]. }
    rewrite length_app, length_replicate. simpl.
    split; [lia|]. split; [done|]. by exists pre.
Qed.

(** C2, amended, at work: [ls | wc] where the first [fork] fails. *)
Lemma pipeline_returns_at_failed_fork_witness :
  let split := Executor.split_pipeline (mk_args ["ls"; "|"; "wc"]) in
  let evs := [EvPipe (Some (3, 4)); EvFork false; EvPerror "fork"] in
  (Executor.execute_pipeline Run.first_fork_fails Run.fresh split.1 split.2 2).2 = 1
  ∧ length (Spec.forks evs) = 1%nat
  ∧ (0 < 2)%nat
  ∧ ∃ pre, evs = pre ++ [EvFork false; EvPerror "fork"].
Proof.
  apply (pipeline_returns_at_failed_fork Run.first_fork_fails Run.fresh
           (Executor.split_pipeline (mk_args ["ls"; "|"; "wc"])).1
           (Executor.split_pipeline (mk_args ["ls"; "|"; "wc"])).2 2 0
           [EvPipe (Some (3, 4)); EvFork false; EvPerror "fork"]).
  - reflexivity.
  - reflexivity.
Defined.

(** The value [execute_command] returns, on every token list. *)
Lemma execute_command_status E w toks :
  (Executor.execute_command E w (mk_args toks)).2
  = (if bool_decide (head toks = Some "exit" ∧ Spec.count_pipes toks = 0%nat)
     then 0 else 1).
Proof.
  destruct toks as [|name toks].
  { unfold Executor.execute_command.
    destruct (sys_dup E w 0) as [w1 ?]. by destruct (sys_dup E w1 1) as [w2 ?]. }
  destruct (Spec.count_pipes (name :: toks)) as [|k] eqn:Hcount.
  - destruct (Executor.find_builtin name Builtins.builtin_str Builtins.builtin_func)
      as [f|] eqn:Hf.
    + rewrite (BuiltinFacts.execute_command_builtin E w _ name f) by done.
      rewrite (BuiltinFacts.find_builtin_returns _ _ _ name) by done.
      unfold streq. destruct (String.eqb_spec name "exit") as [->|Hne].
      * by rewrite bool_decide_eq_true_2.
      * rewrite bool_decide_eq_false_2; [done|]. intros [[= ->] _]. done.
    + rewrite (DispatchFacts.execute_command_unregistered E w _ name) by done.
      destruct (sys_dup E w 0) as [w1 ?]. destruct (sys_dup E w1 1) as [w2 ?].
      destruct (Executor.handle_redirection E w2 _ (-1) (-1))
        as [[[w3 args] in_fd] out_fd].
      destruct (DispatchFacts.launch_process_spec E
                  (Spec.redirect_streams w3 in_fd out_fd) args)
        as (w4 & levs & -> & _). simpl.
      rewrite bool_decide_eq_false_2; [done|]. intros [[= ->] _]. done.
  - rewrite DispatchFacts.execute_command_pipeline by lia.
    rewrite PipelineFacts.execute_pipeline_continues.
    rewrite bool_decide_eq_false_2; [done|]. intros [_ ?]. lia.
Qed.

(** C6.  [execute_command] returns 0 exactly when the line has no [|] and
    its first token is [exit]; on every other line (empty, any other
    built-in, a pipeline, an external program), whatever the environment
    answers to [open], [pipe], [fork] and [execvp], it returns 1.  This is
    so on token lists and, through the tokenizer, on input lines.  In
    particular [launch_process] and [execute_pipeline] always return 1, and
    of the registered handlers only that of [exit] returns 0. *)
Theorem only_exit_ends_the_loop (E : env) (w : world) :
  (∀ toks,
      (Executor.execute_command E w (mk_args toks)).2
      = (if bool_decide (head toks = Some "exit" ∧ Spec.count_pipes toks = 0%nat)
         then 0 else 1))
  ∧ (∀ line,
      let toks := argv_at (Parser.parse_input line) 0 in
      (Main.shell_round E w line).2
      = (if bool_decide (head toks = Some "exit" ∧ Spec.count_pipes toks = 0%nat)
         then 0 else 1))
  ∧ (∀ args, (Executor.launch_process E w args).2 = 1)
  ∧ (∀ args cmd_args num_cmds,
       (Executor.execute_pipeline E w args cmd_args num_cmds).2 = 1)
  ∧ (∀ args,
       Forall2 (λ name (f : Builtins.handler),
                  (f E w args).2 = if streq name "exit" then 0 else 1)
         Builtins.builtin_str Builtins.builtin_func).
Proof.
  split; [|split; [|split; [|split]]].
  - apply execute_command_status.
  - intros line toks. subst toks. unfold Main.shell_round.
    rewrite ParserFacts.parse_input_runs, argv_at_0, argv_of_mk_args.
    apply execute_command_status.
  - intros args.
    by destruct (DispatchFacts.launch_process_spec E w args) as (w' & levs & -> & _).
  - intros args cmd_args num_cmds. apply PipelineFacts.execute_pipeline_continues.
  - intros args. unfold Builtins.builtin_str, Builtins.builtin_func.
    repeat constructor.
    + apply BuiltinFacts.shell_cd_continues.
    + apply BuiltinFacts.shell_count_continues.
    + apply BuiltinFacts.shell_cp_continues.
    + apply BuiltinFacts.shell_mv_continues.
    + apply BuiltinFacts.shell_rm_continues.
Qed.

(** C8.  When a built-in that requires arguments ([cd], [count], [rm]: one;
    [cp], [mv]: two) is handed an argument array in which one of them is
    NULL, its handler writes the usage message to the diagnostic stream
    (for [cd], [count] and [rm] the text [shell: expected argument to],
    for [cp] and [mv] the text [shell: expected source and destination for],
    then a space, the name of the built-in between double quotes, and a
    newline) and does nothing else (no [chdir], no file opened, renamed or
    removed, no descriptor touched), and returns 1; so does the dispatcher
    on such a line. *)
Theorem builtin_reports_missing_argument
    (E : env) (w : world) (name : string) (args : cells) :
  Spec.missing_argument name args = true →
  (∃ f,
      Executor.find_builtin name Builtins.builtin_str Builtins.builtin_func = Some f
      ∧ f E w args = (World (fds w) (trace w ++ [EvStderr (Spec.usage name)]) (history w), 1))
  ∧ (∀ toks,
      args = mk_args toks → head toks = Some name → Spec.count_pipes toks = 0%nat →
      (Executor.execute_command E w args).2 = 1
      ∧ trace (Executor.execute_command E w args).1
        = trace w ++ [EvStderr (Spec.usage name)]).
Proof.
  intros Hmiss.
  assert (∀ w0, ∃ f,
      Executor.find_builtin name Builtins.builtin_str Builtins.builtin_func = Some f
      ∧ f E w0 args
        = (World (fds w0) (trace w0 ++ [EvStderr (Spec.usage name)]) (history w0), 1))
    as Hhandler.
  { intros w0. unfold Spec.missing_argument, Spec.usage, streq in *.
    repeat match type of Hmiss with
           | context [String.eqb name ?s] =>
               destruct (String.eqb_spec name s) as [->|?]; simpl in Hmiss
           end; try done.
    all: eexists; (split; [reflexivity|]).
    all: unfold Builtins.shell_cd, Builtins.shell_count, Builtins.shell_rm,
           Builtins.shell_cp, Builtins.shell_mv.
    all: destruct (cell args 1); simpl in Hmiss; try done.
    all: destruct (cell args 2); simpl in Hmiss; done. }
  split; [apply Hhandler|].
  intros toks -> Hhead Hcount.
  destruct (Hhandler (sys_dup E (sys_dup E w 0).1 1).1) as (f & Hf & Hrun).
  rewrite (BuiltinFacts.execute_command_builtin E w toks name f) by done.
  rewrite Hrun. simpl. by rewrite !DispatchFacts.trace_sys_dup.
Qed.

(** C8 at work: [cp notes.txt] lacks its destination. *)
Lemma builtin_reports_missing_argument_witness :
  (Executor.execute_command Run.granting Run.fresh (mk_args ["cp"; "notes.txt"])).2 = 1
  ∧ trace (Executor.execute_command Run.granting Run.fresh (mk_args ["cp"; "notes.txt"])).1
    = [EvStderr ("shell: expected source and destination for "
                 +:+ QUOTE +:+ "cp" +:+ QUOTE +:+ NL)].
Proof.
  apply (proj2 (builtin_reports_missing_argument Run.granting Run.fresh "cp"
                  (mk_args ["cp"; "notes.txt"]) eq_refl) ["cp"; "notes.txt"]);
    reflexivity.
Defined.

(** C1 does not hold of the code: the two descriptors [execute_command]
    duplicates at its start are closed only on the path that launches an
    external program.  The returns for an empty line, for a pipeline and
    for a built-in leave them open: in a fresh shell they are 3 and 4, and
    after such a line both are still bound to the terminal, while after an
    external command they are free again.  So every such line costs the
    shell two descriptors. *)
Theorem snapshot_left_open_on_early_returns :
  let after toks := fds (Executor.execute_command Run.granting Run.fresh (mk_args toks)).1 in
  (after [] !! 3%nat = Some (Tty 0) ∧ after [] !! 4%nat = Some (Tty 1))
  ∧ (after ["help"] !! 3%nat = Some (Tty 0) ∧ after ["help"] !! 4%nat = Some (Tty 1))
  ∧ (after ["ls"; "|"; "wc"] !! 3%nat = Some (Tty 0)
     ∧ after ["ls"; "|"; "wc"] !! 4%nat = Some (Tty 1))
  ∧ (after ["ls"] !! 3%nat = None ∧ after ["ls"] !! 4%nat = None)
  ∧ (∀ E w, Executor.execute_command E w (mk_args [])
            = ((sys_dup E (sys_dup E w 0).1 1).1, 1)).
Proof.
  repeat split; try (by vm_compute).
  intros E w. unfold Executor.execute_command.
  destruct (sys_dup E w 0) as [w1 ?]. cbn [fst].
  by destruct (sys_dup E w1 1) as [w2 ?].
Qed.

(* ===================================================================== *)
(** * The history and its file                                             *)
(* ===================================================================== *)

Module HistoryFacts.

Import History HistoryFile Notions SysFacts.

Lemma keep_last_all {A} n (l : list A) : (length l ≤ n)%nat → keep_last n l = l.
Proof. intros H. unfold keep_last. by replace (length l - n)%nat with 0%nat by lia. Qed.

Lemma length_keep_last {A} n (l : list A) : (length (keep_last n l) ≤ n)%nat.
Proof. unfold keep_last. rewrite length_drop. lia. Qed.

Lemma add_history_frame line w :
  fds (add_history line w) = fds w ∧ trace (add_history line w) = trace w.
Proof. unfold add_history. by destruct (_ <? _)%nat. Qed.

(** One more entry: appended while there is room, else the oldest goes. *)
Lemma add_history_keep_last line w :
  (length (history w) ≤ HISTORY_SIZE)%nat →
  history (add_history line w) = keep_last HISTORY_SIZE (history w ++ [c_str line]).
Proof.
  intros Hlen. unfold add_history, keep_last.
  rewrite length_app. simpl length.
  destruct (Nat.ltb_spec (length (history w)) HISTORY_SIZE) as [Hlt|Hge]; simpl.
  - by replace (length (history w) + 1 - HISTORY_SIZE)%nat with 0%nat by lia.
  - replace (length (history w) + 1 - HISTORY_SIZE)%nat with 1%nat by lia.
    destruct (history w) as [|x h]; [unfold HISTORY_SIZE in *; simpl in *; lia | done].
Qed.

Lemma keep_last_app_keep_last {A} n (l k : list A) :
  keep_last n (keep_last n l ++ k) = keep_last n (l ++ k).
Proof.
  unfold keep_last. rewrite !length_app, length_drop.
  destruct (decide (length l ≤ n)%nat) as [Hle|Hgt].
  - replace (length l - n)%nat with 0%nat by lia. by rewrite Nat.sub_0_r.
  - replace (length l + length k - n)%nat with (length l - n + length k)%nat by lia.
    rewrite <- drop_drop, (drop_app_le l k) by lia. f_equal. lia.
Qed.

Lemma record_all_keep_last lines w :
  (length (history w) ≤ HISTORY_SIZE)%nat →
  history (record_all lines w)
  = keep_last HISTORY_SIZE (history w ++ (c_str <$> lines)).
Proof.
  revert w. induction lines as [|line lines IH]; intros w Hlen.
  - simpl. by rewrite app_nil_r, keep_last_all.
  - change (record_all (line :: lines) w) with (record_all lines (add_history line w)).
    rewrite IH by (rewrite add_history_keep_last by done; apply length_keep_last).
    rewrite add_history_keep_last by done.
    rewrite keep_last_app_keep_last, fmap_cons. by rewrite <- app_assoc.
Qed.

Lemma record_all_frame lines w :
  fds (record_all lines w) = fds w ∧ trace (record_all lines w) = trace w.
Proof.
  revert w. induction lines as [|line lines IH]; intros w; [done|].
  change (record_all (line :: lines) w) with (record_all lines (add_history line w)).
  destruct (IH (add_history line w)) as [-> ->]. apply add_history_frame.
Qed.

End HistoryFacts.

(** X1.  The history is a bounded log: recording any lines, one after the
    other, in a history of at most [HISTORY_SIZE] entries leaves the last
    [HISTORY_SIZE] of the old entries followed by the new lines (each as the
    C string it is), in order; the descriptors and the trace are not
    touched. *)
Theorem history_keeps_the_last_entries (lines : list string) (w : world) :
  (length (history w) ≤ History.HISTORY_SIZE)%nat →
  history (Notions.record_all lines w)
  = Notions.keep_last History.HISTORY_SIZE (history w ++ (c_str <$> lines))
  ∧ (length (history (Notions.record_all lines w)) ≤ History.HISTORY_SIZE)%nat
  ∧ fds (Notions.record_all lines w) = fds w
  ∧ trace (Notions.record_all lines w) = trace w.
Proof.
  intros Hlen. rewrite HistoryFacts.record_all_keep_last by done.
  split; [done|]. split; [apply HistoryFacts.length_keep_last|].
  apply HistoryFacts.record_all_frame.
Qed.

(** X1 at work: 101 lines recorded from nothing; the first one is gone. *)
Lemma history_keeps_the_last_entries_witness :
  let lines := "first" :: replicate 99 "ls" ++ ["last"] in
  history (Notions.record_all lines Run.fresh) = replicate 99 "ls" ++ ["last"].
Proof.
  intros lines.
  destruct (history_keeps_the_last_entries lines Run.fresh) as [-> _].
  - simpl. unfold History.HISTORY_SIZE. lia.
  - reflexivity.
Defined.

Module HistoryFileFacts.

Import History HistoryFile Notions SysFacts HistoryFacts.

Lemma bytes_of_app a b : bytes_of (a +:+ b) = bytes_of a ++ bytes_of b.
Proof. induction a as [|c a IH]; simpl; [done | by rewrite IH]. Qed.

Lemma plain_cons c e :
  plain (String c e) = true →
  Ascii.eqb c NUL = false ∧ Ascii.eqb c "010" = false ∧ plain e = true.
Proof.
  unfold plain. simpl. intros H. apply andb_prop in H as [H He].
  apply andb_prop in H as [H1 H2]. by apply negb_true_iff in H1, H2.
Qed.

Lemma c_str_plain e : plain e = true → c_str e = e.
Proof.
  induction e as [|c e IH]; [done|]. intros H.
  apply plain_cons in H as (HN & _ & He). simpl. by rewrite HN, IH.
Qed.

Lemma chomp_plain e : plain e = true → chomp (e +:+ NL) = e.
Proof.
  induction e as [|c e IH]; [done|]. intros H.
  apply plain_cons in H as (HN & Hnl & He). simpl. by rewrite HN, Hnl, IH.
Qed.

Lemma getline_plain e rest :
  plain e = true → getline (bytes_of (e +:+ NL) ++ rest) = (e +:+ NL, rest).
Proof.
  induction e as [|c e IH]; [done|]. intros H.
  apply plain_cons in H as (_ & Hnl & He). simpl. by rewrite Hnl, IH.
Qed.

(** Reading a file of plain lines records them one after the other. *)
Lemma load_loop_cons fuel c bs w :
  load_loop (S fuel) (c :: bs) w
  = load_loop fuel (getline (c :: bs)).2 (add_history (chomp (getline (c :: bs)).1) w).
Proof. simpl. by destruct (if Ascii.eqb c "010" then _ else _). Qed.

Lemma file_of_cons p ps : file_of (p :: ps) = bytes_of (p +:+ NL) ++ file_of ps.
Proof. done. Qed.

Lemma load_loop_lines ps fuel w :
  Forall (λ p, plain p = true) ps →
  (length (file_of ps) ≤ fuel)%nat →
  load_loop fuel (file_of ps) w = record_all ps w.
Proof.
  intros Hps. revert fuel w. induction Hps as [|p ps Hp _ IH]; intros fuel w Hf.
  { by destruct fuel. }
  rewrite file_of_cons in *.
  rewrite length_app, bytes_of_app, length_app in Hf. simpl in Hf.
  destruct fuel as [|fuel]; [lia|].
  change (record_all (p :: ps) w) with (record_all ps (add_history p w)).
  rewrite <- IH with (fuel := fuel) by lia.
  pose proof (getline_plain p (file_of ps) Hp) as Hg.
  destruct (bytes_of (p +:+ NL) ++ file_of ps) as [|c bs] eqn:Hb.
  { rewrite bytes_of_app in Hb. by destruct (bytes_of p). }
  rewrite load_loop_cons, Hg. simpl. by rewrite chomp_plain.
Qed.

Lemma save_loop_spec fp h w :
  trace (save_loop fp h w)
  = trace w ++ ((λ e, EvWrite fp (bytes_of (c_str e +:+ NL))) <$> h)
  ∧ fds (save_loop fp h w) = fds w
  ∧ history (save_loop fp h w) = history w.
Proof.
  revert w. induction h as [|e h IH]; intros w; simpl.
  { by rewrite app_nil_r. }
  destruct (IH (emit (EvWrite fp (bytes_of (c_str e +:+ NL))) w)) as (-> & -> & ->).
  simpl. by rewrite <- app_assoc.
Qed.

Lemma load_loop_frame fuel bytes w :
  fds (load_loop fuel bytes w) = fds w ∧ trace (load_loop fuel bytes w) = trace w.
Proof.
  revert bytes w. induction fuel as [|fuel IH]; intros bytes w; [done|].
  destruct bytes as [|c bs]; [done|]. rewrite load_loop_cons.
  destruct (IH (getline (c :: bs)).2
              (add_history (chomp (getline (c :: bs)).1) w)) as [-> ->].
  apply add_history_frame.
Qed.

Lemma bytes_written_writes fp (h : list string) (f : string → list ascii) :
  bytes_written ((λ e, EvWrite fp (f e)) <$> h) = concat (f <$> h).
Proof.
  unfold bytes_written. induction h as [|e h IH]; [done|].
  rewrite !fmap_cons. simpl. by rewrite <- IH.
Qed.

(** What a successful [save_history] hands to the file. *)
Lemma save_history_bytes E H w path :
  history_path H = Some path →
  0 ≤ (sys_open E w (Some path) O_WRONLY_CREAT_TRUNC).2 →
  bytes_written (since (trace w) (save_history E H w))
  = concat ((λ e, bytes_of (c_str e +:+ NL)) <$> history w).
Proof.
  intros Hpath Hok. unfold save_history, since. rewrite Hpath.
  destruct (sys_open_cases E w (Some path) O_WRONLY_CREAT_TRUNC)
    as (w1 & fd & Hopen & Htr & Hh & _).
  rewrite Hopen in *. simpl in Hok.
  destruct (Z.ltb_spec fd 0) as [|_]; [lia|].
  rewrite DispatchFacts.trace_sys_close.
  destruct (save_loop_spec fd (history w1) w1) as (-> & _ & _).
  rewrite Htr, <- app_assoc, drop_app_length, Hh. simpl.
  apply (bytes_written_writes fd (history w) (λ e, bytes_of (c_str e +:+ NL))).
Qed.

(** What a successful [load_history] makes of a file of plain lines. *)
Lemma load_history_lines E H w path ps :
  history_path H = Some path →
  Forall (λ p, plain p = true) ps →
  file_bytes E (trace w) path = file_of ps →
  0 ≤ (sys_open E w (Some path) O_RDONLY).2 →
  history (load_history E H w) = history (record_all ps (set_history (history w) w)).
Proof.
  intros Hpath Hps Hbytes Hok. unfold load_history. rewrite Hpath, Hbytes.
  destruct (sys_open_cases E w (Some path) O_RDONLY)
    as (w1 & fd & Hopen & _ & Hh & _).
  rewrite Hopen in *. simpl in Hok.
  destruct (Z.ltb_spec fd 0) as [|_]; [lia|].
  unfold sys_close. destruct (tbl_close _ fd) as [t r]. simpl.
  rewrite load_loop_lines by done.
  assert (∀ w2 w3, history w2 = history w3 →
            history (record_all ps w2) = history (record_all ps w3)) as Hind.
  { clear. induction ps as [|p ps IH]; intros w2 w3 Heq; [done|].
    apply IH. unfold add_history. rewrite Heq. by destruct (_ <? _)%nat. }
  by apply Hind.
Qed.

End HistoryFileFacts.

(** X2.  A history of at most [HISTORY_SIZE] entries that hold neither a
    newline nor a NUL survives the file: what [save_history] writes, read
    by [load_history] in a process that starts with an empty history, gives
    the same entries in the same order (both [fopen]s succeeding). *)
Theorem saved_history_loads_back
    (E E' : env) (H : HistoryFile.host) (w w' : world) (path : string) :
  HistoryFile.history_path H = Some path →
  Forall (λ e, Notions.plain e = true) (history w) →
  (length (history w) ≤ History.HISTORY_SIZE)%nat →
  0 ≤ (sys_open E w (Some path) O_WRONLY_CREAT_TRUNC).2 →
  history w' = [] →
  file_bytes E' (trace w') path
  = Notions.bytes_written (Notions.since (trace w) (HistoryFile.save_history E H w)) →
  0 ≤ (sys_open E' w' (Some path) O_RDONLY).2 →
  history (HistoryFile.load_history E' H w') = history w.
Proof.
  intros Hpath Hplain Hlen Hsave Hempty Hfile Hload.
  rewrite (HistoryFileFacts.save_history_bytes E H w path) in Hfile by done.
  assert ((λ e, Notions.bytes_of (c_str e +:+ NL)) <$> history w
          = (λ p, Notions.bytes_of (p +:+ NL)) <$> history w) as Heq.
  { apply Forall_fmap_ext_1. eapply Forall_impl; [exact Hplain|].
    intros e He. simpl. by rewrite HistoryFileFacts.c_str_plain. }
  rewrite Heq in Hfile.
  rewrite (HistoryFileFacts.load_history_lines E' H w' path (history w)) by done.
  rewrite HistoryFacts.record_all_keep_last by (simpl; rewrite Hempty; simpl; lia).
  simpl. rewrite Hempty. simpl.
  rewrite HistoryFacts.keep_last_all by (by rewrite length_fmap).
  clear -Hplain. induction Hplain as [|e h He _ IH]; [done|].
  rewrite fmap_cons, IH. by rewrite HistoryFileFacts.c_str_plain.
Qed.

(** X2 at work: a history of two commands, saved and loaded under
    [/home/u/.shell_history]. *)
Lemma saved_history_loads_back_witness :
  let bytes := String.list_ascii_of_string ("ls -l" +:+ NL +:+ "pwd" +:+ NL) in
  history (HistoryFile.load_history (Run2.holding bytes) Run2.at_home Run.fresh)
  = ["ls -l"; "pwd"].
Proof.
  intros bytes.
  apply (saved_history_loads_back Run.granting (Run2.holding bytes) Run2.at_home
           (Run2.with_history ["ls -l"; "pwd"]) Run.fresh "/home/u/.shell_history").
  - reflexivity.
  - by repeat constructor.
  - simpl. unfold History.HISTORY_SIZE. lia.
  - by vm_compute.
  - reflexivity.
  - by vm_compute.
  - by vm_compute.
Defined.

Module HistoryFileEdges.

Import History HistoryFile Notions SysFacts HistoryFacts HistoryFileFacts.

Lemma file_of_app ps qs : file_of (ps ++ qs) = file_of ps ++ file_of qs.
Proof. unfold file_of. by rewrite fmap_app, concat_app. Qed.

Lemma c_str_line c : plain c = true → c_str (c +:+ NL) = c +:+ NL.
Proof.
  induction c as [|x c IH]; [done|]. intros H.
  apply plain_cons in H as (HN & _ & Hc). simpl. by rewrite HN, IH.
Qed.

(** An entry that ends in a newline is written as two lines. *)
Lemma saved_lines_doubled cmds :
  Forall (λ c, plain c = true) cmds →
  concat ((λ e, bytes_of (c_str e +:+ NL)) <$> ((λ c, c +:+ NL) <$> cmds))
  = file_of (concat ((λ c, [c; EmptyString]) <$> cmds)).
Proof.
  induction 1 as [|c cmds Hc _ IH]; [done|].
  rewrite !fmap_cons. simpl concat. rewrite IH, c_str_line by done.
  change (c :: EmptyString :: concat ((λ c, [c; EmptyString]) <$> cmds))
    with ([c; EmptyString] ++ concat ((λ c, [c; EmptyString]) <$> cmds)).
  rewrite file_of_app. f_equal.
  unfold file_of. rewrite bytes_of_app. by csimpl.
Qed.

(** Closing the descriptor an [open] returned restores the table. *)
Lemma close_after_open (t : gmap nat target) n tg :
  t !! n = None → (tbl_close (<[n:=tg]> t) (Z.of_nat n)).1 = t.
Proof.
  intros Hn. unfold tbl_close. rewrite tbl_get_of_nat, lookup_insert_eq. simpl.
  by rewrite Nat2Z.id, delete_insert_id.
Qed.

Lemma load_history_fds E H w : fds (load_history E H w) = fds w.
Proof.
  unfold load_history. destruct (history_path H) as [path|]; [|done].
  destruct (sys_open_cases E w (Some path) O_RDONLY)
    as (w1 & fd & -> & _ & _ & [[-> Hfds]|(n & p & -> & _ & Hfree & _ & Hfds)]).
  - done.
  - destruct (Z.ltb_spec (Z.of_nat n) 0); [lia|].
    rewrite fds_sys_close. destruct (load_loop_frame (length (file_bytes E (trace w) path))
      (file_bytes E (trace w) path) w1) as [-> _].
    rewrite Hfds. by apply close_after_open.
Qed.

Lemma save_history_frame E H w :
  fds (save_history E H w) = fds w ∧ history (save_history E H w) = history w.
Proof.
  unfold save_history. destruct (history_path H) as [path|]; [|done].
  destruct (sys_open_cases E w (Some path) O_WRONLY_CREAT_TRUNC)
    as (w1 & fd & -> & _ & Hh & [[-> Hfds]|(n & p & -> & _ & Hfree & _ & Hfds)]).
  - done.
  - destruct (Z.ltb_spec (Z.of_nat n) 0); [lia|].
    destruct (save_loop_spec (Z.of_nat n) (history w1) w1) as (_ & Hf & Hs).
    split.
    + rewrite fds_sys_close, Hf, Hfds. by apply close_after_open.
    + unfold sys_close. destruct (tbl_close _ _). simpl. by rewrite Hs.
Qed.

End HistoryFileEdges.

(** X3.  The entries the interactive loop records end in the newline of
    the line read; [save_history] adds another.  So when a history made of
    such entries is saved and then loaded by a process starting with an
    empty history, each command comes back without its newline and followed
    by an empty entry (the last [HISTORY_SIZE] of these being kept). *)
Theorem recorded_history_loads_back_doubled
    (E E' : env) (H : HistoryFile.host) (w w' : world) (path : string)
    (cmds : list string) :
  HistoryFile.history_path H = Some path →
  Forall (λ c, Notions.plain c = true) cmds →
  history w = (λ c, c +:+ NL) <$> cmds →
  0 ≤ (sys_open E w (Some path) O_WRONLY_CREAT_TRUNC).2 →
  history w' = [] →
  file_bytes E' (trace w') path
  = Notions.bytes_written (Notions.since (trace w) (HistoryFile.save_history E H w)) →
  0 ≤ (sys_open E' w' (Some path) O_RDONLY).2 →
  history (HistoryFile.load_history E' H w')
  = Notions.keep_last History.HISTORY_SIZE (concat ((λ c, [c; EmptyString]) <$> cmds)).
Proof.
  intros Hpath Hplain Hh Hsave Hempty Hfile Hload.
  rewrite (HistoryFileFacts.save_history_bytes E H w path) in Hfile by done.
  rewrite Hh, HistoryFileEdges.saved_lines_doubled in Hfile by done.
  assert (Forall (λ p, Notions.plain p = true)
            (concat ((λ c, [c; EmptyString]) <$> cmds))) as Hps.
  { clear -Hplain. induction Hplain as [|c cmds Hc _ IH]; [done|].
    rewrite fmap_cons. simpl. by repeat constructor. }
  rewrite (HistoryFileFacts.load_history_lines E' H w' path _ Hpath Hps Hfile Hload).
  rewrite HistoryFacts.record_all_keep_last by (simpl; rewrite Hempty; simpl; lia).
  simpl. rewrite Hempty. simpl. f_equal.
  clear -Hps. induction Hps as [|p ps Hp _ IH]; [done|].
  rewrite fmap_cons, IH. by rewrite HistoryFileFacts.c_str_plain.
Qed.

(** X3 at work: a history of the two typed lines [ls] and [pwd]. *)
Lemma recorded_history_loads_back_doubled_witness :
  let bytes := String.list_ascii_of_string
                 ("ls" +:+ NL +:+ NL +:+ "pwd" +:+ NL +:+ NL) in
  history (HistoryFile.load_history (Run2.holding bytes) Run2.at_home Run.fresh)
  = ["ls"; ""; "pwd"; ""].
Proof.
  intros bytes.
  apply (recorded_history_loads_back_doubled Run.granting (Run2.holding bytes)
           Run2.at_home (Run2.with_history ["ls" +:+ NL; "pwd" +:+ NL]) Run.fresh
           "/home/u/.shell_history" ["ls"; "pwd"]).
  - reflexivity.
  - by repeat constructor.
  - reflexivity.
  - by vm_compute.
  - reflexivity.
  - by vm_compute.
  - by vm_compute.
Defined.

(** X4.  [load_history] and [save_history] always leave the descriptor
    table as they found it, and [save_history] never changes the history.
    When neither [HOME] nor [USERPROFILE] is set they do nothing at all;
    when the file cannot be opened, [load_history] leaves the history as it
    was and the failed [fopen] is all that happened (no diagnostic). *)
Theorem history_file_edge_cases (E : env) (H : HistoryFile.host) (w : world) :
  fds (HistoryFile.load_history E H w) = fds w
  ∧ fds (HistoryFile.save_history E H w) = fds w
  ∧ history (HistoryFile.save_history E H w) = history w
  ∧ (HistoryFile.getenv H "HOME" = None → HistoryFile.getenv H "USERPROFILE" = None →
     HistoryFile.load_history E H w = w ∧ HistoryFile.save_history E H w = w)
  ∧ (∀ path,
       HistoryFile.history_path H = Some path →
       (sys_open E w (Some path) O_RDONLY).2 < 0 →
       history (HistoryFile.load_history E H w) = history w
       ∧ trace (HistoryFile.load_history E H w)
         = trace w ++ [EvOpen (Some path) O_RDONLY (-1)]).
Proof.
  split; [apply HistoryFileEdges.load_history_fds|].
  split; [apply HistoryFileEdges.save_history_frame|].
  split; [apply HistoryFileEdges.save_history_frame|].
  split.
  - intros Hhome Hprof.
    unfold HistoryFile.load_history, HistoryFile.save_history, HistoryFile.history_path.
    by rewrite Hhome, Hprof.
  - intros path Hpath Hfail. unfold HistoryFile.load_history. rewrite Hpath.
    destruct (SysFacts.sys_open_cases E w (Some path) O_RDONLY)
      as (w1 & fd & Hopen & Htr & Hh & Hcases).
    rewrite Hopen in *. simpl in Hfail.
    destruct (Z.ltb_spec fd 0) as [_|]; [|lia].
    destruct Hcases as [[-> _]|(n & _ & -> & _)]; [done | lia].
Qed.

(** X4 at work: a host without [HOME] and [USERPROFILE]. *)
Lemma history_file_edge_cases_witness :
  HistoryFile.load_history Run.granting Run2.nowhere (Run2.with_history ["ls"])
  = Run2.with_history ["ls"]
  ∧ HistoryFile.save_history Run.granting Run2.nowhere (Run2.with_history ["ls"])
    = Run2.with_history ["ls"].
Proof.
  apply (proj1 (proj2 (proj2 (proj2
           (history_file_edge_cases Run.granting Run2.nowhere
              (Run2.with_history ["ls"]))))));
    reflexivity.
Defined.

Module ParserBuffer.

Import Parser ParserFacts.

(** The capacity is always the next multiple of [MAX_ARGS] above the number
    of cells written. *)
Lemma parse_loop_grows fuel token save tokens bufsize q :
  bufsize = MAX_ARGS * (q + 1) →
  MAX_ARGS * q ≤ Z.of_nat (length tokens) < MAX_ARGS * (q + 1) →
  ∃ q', (parse_loop fuel token save tokens bufsize).2 = MAX_ARGS * (q' + 1)
        ∧ MAX_ARGS * q' ≤ Z.of_nat (length (parse_loop fuel token save tokens bufsize).1)
          < MAX_ARGS * (q' + 1).
Proof.
  revert token save tokens bufsize q.
  induction fuel as [|fuel IH]; intros token save tokens bufsize q Hb Hq; simpl.
  { exists q. by destruct token. }
  destruct token as [t|]; [|by exists q].
  destruct (strtok save) as [tok' save'].
  rewrite length_app. simpl. unfold MAX_ARGS in *.
  destruct (Z.geb_spec (Z.of_nat (length tokens + 1)) bufsize).
  - apply (IH _ _ _ _ (q + 1)); [lia|]. rewrite length_app. simpl. lia.
  - apply (IH _ _ _ _ q); [lia|]. rewrite length_app. simpl. lia.
Qed.

End ParserBuffer.

(** X5.  The token buffer of [parse_input] is always large enough: when
    the loop ends, the number of tokens stored is below the capacity, so the
    closing NULL is written inside the buffer, and the capacity is the least
    multiple of [MAX_ARGS] above the number of tokens.  The tokens stored
    are the delimiter-free runs of the line. *)
Theorem parse_input_buffer_suffices (line : string) :
  let '(token, save) := Parser.strtok line in
  let '(tokens, bufsize) :=
    Parser.parse_loop (String.length line) token save [] Parser.MAX_ARGS in
  tokens = Spec.runs EmptyString line
  ∧ Parser.parse_input line = mk_args tokens
  ∧ Z.of_nat (length tokens) < bufsize
  ∧ bufsize = Parser.MAX_ARGS * (Z.of_nat (length tokens) / Parser.MAX_ARGS + 1).
Proof.
  pose proof (ParserFacts.parse_input_runs line) as Hruns.
  unfold Parser.parse_input in *.
  destruct (Parser.strtok line) as [token save].
  destruct (ParserBuffer.parse_loop_grows (String.length line) token save []
              Parser.MAX_ARGS 0) as (q & Hb & Hq); [done | done |].
  destruct (Parser.parse_loop _ _ _ _ _) as [tokens bufsize]. simpl in *.
  assert (tokens = Spec.runs EmptyString line) as Htok.
  { unfold mk_args in Hruns. apply app_inv_tail in Hruns.
    by apply (inj (fmap Some)) in Hruns. }
  split; [done|]. split; [done|]. unfold Parser.MAX_ARGS in *.
  split; [lia|].
  rewrite <- (Z.div_unique (Z.of_nat (length tokens)) 64 q
                (Z.of_nat (length tokens) - 64 * q)) by lia.
  done.
Qed.

Module FileBuiltinFacts.

Import Builtins Notions SysFacts HistoryFileEdges.

Lemma counted_cons c rest :
  Ascii.eqb c "255" = false → counted (c :: rest) = c :: counted rest.
Proof. intros H. simpl. by rewrite H. Qed.

(** Arithmetic of [int]: wrapping commutes with addition, and does
    nothing to a value in range. *)
Lemma wrap_int_add a b : wrap_int (wrap_int a + b) = wrap_int (a + b).
Proof.
  unfold wrap_int. f_equal.
  replace ((a + 2 ^ 31) mod 2 ^ 32 - 2 ^ 31 + b + 2 ^ 31)
    with ((a + 2 ^ 31) mod 2 ^ 32 + b) by lia.
  rewrite Zplus_mod_idemp_l. f_equal. lia.
Qed.

Lemma wrap_int_small z : - 2 ^ 31 ≤ z < 2 ^ 31 → wrap_int z = z.
Proof. intros Hz. unfold wrap_int. rewrite Z.mod_small; lia. Qed.

(** The state machine of [count] against the runs: [state] is 1 exactly
    when a run is being read.  The counters hold the counts as [int]s. *)
Lemma count_loop_spec bytes lines words chars state cur :
  (state = 0 ∧ cur = []) ∨ (state = 1 ∧ cur ≠ []) →
  count_loop bytes (wrap_int lines) (wrap_int words) (wrap_int chars) state
  = (wrap_int (lines + Z.of_nat (newlines (counted bytes))),
     wrap_int (words + Z.of_nat (length (fields cur (counted bytes))) - state),
     wrap_int (chars + Z.of_nat (length (counted bytes)))).
Proof.
  revert lines words chars state cur.
  induction bytes as [|c rest IH]; intros lines words chars state cur Hst.
  { simpl. change (newlines []) with 0%nat.
    destruct Hst as [[-> ->]|[-> Hcur]]; [|destruct cur; [done|]];
      simpl; triple. }
  cbn [count_loop counted]. destruct (Ascii.eqb c "255") eqn:H255.
  { change (newlines []) with 0%nat.
    destruct Hst as [[-> ->]|[-> Hcur]]; [|destruct cur; [done|]];
      simpl; triple. }
  cbn [fields]. fold (is_blank c).
  assert (newlines (c :: counted rest)
          = ((if Ascii.eqb c "010" then 1 else 0) + newlines (counted rest))%nat) as Hnl.
  { unfold newlines. rewrite filter_cons.
    destruct (Ascii.eqb_spec c "010") as [->|Hne].
    - by rewrite decide_True.
    - by rewrite decide_False. }
  rewrite Hnl. clear Hnl.
  destruct (is_blank c) eqn:Hblank.
  - destruct (Ascii.eqb c "010"); rewrite !wrap_int_add.
    all: rewrite (IH _ _ _ 0 []) by (by left).
    all: destruct Hst as [[-> ->]|[-> Hcur]]; [|destruct cur; [done|]].
    all: triple.
  - assert (Ascii.eqb c "010" = false) as ->.
    { unfold is_blank in Hblank. by destruct (Ascii.eqb c " "), (Ascii.eqb c "010"). }
    destruct Hst as [[-> ->]|[-> Hcur]].
    + change (0 =? 0) with true. cbv iota. rewrite !wrap_int_add.
      rewrite (IH _ _ _ 1 [c]) by (by right).
      cbn [length app]. triple.
    + change (1 =? 0) with false. cbv iota. rewrite !wrap_int_add.
      rewrite (IH _ _ _ 1 (cur ++ [c])) by (right; split; [done | by destruct cur]).
      triple.
Qed.

(** There are no more lines and no more words than bytes. *)
Lemma newlines_le bytes : (newlines bytes ≤ length bytes)%nat.
Proof. unfold newlines. apply length_filter. Qed.

Lemma fields_le cur bytes :
  (length (fields cur bytes) ≤ (match cur with [] => 0 | _ => 1 end) + length bytes)%nat.
Proof.
  revert cur. induction bytes as [|c rest IH]; intros cur; simpl.
  { destruct cur; simpl; lia. }
  destruct (is_blank c).
  - specialize (IH []). destruct cur; simpl in *; lia.
  - specialize (IH (cur ++ [c])). destruct cur; simpl in *; lia.
Qed.

(** The runs are non-empty, free of blanks, and together the non-blank
    bytes in their order. *)
Lemma fields_blank_free cur bytes :
  Forall (λ c, is_blank c = false) cur →
  Forall (λ f, f ≠ [] ∧ Forall (λ c, is_blank c = false) f) (fields cur bytes).
Proof.
  revert cur. induction bytes as [|c rest IH]; intros cur Hcur; simpl.
  { destruct cur; constructor; [done | constructor]. }
  destruct (is_blank c) eqn:Hb.
  - destruct cur; [by apply IH|]. constructor; [done | by apply IH].
  - apply IH. apply Forall_app. by repeat constructor.
Qed.

Lemma fields_concat cur bytes :
  concat (fields cur bytes) = cur ++ filter (λ c, is_blank c = false) bytes.
Proof.
  revert cur. induction bytes as [|c rest IH]; intros cur; simpl.
  { destruct cur; simpl; by rewrite ?app_nil_r. }
  rewrite filter_cons. destruct (is_blank c) eqn:Hb.
  - rewrite decide_False by done. destruct cur; simpl; by rewrite IH.
  - rewrite decide_True by done. rewrite IH. by rewrite <- app_assoc.
Qed.

(** The [fread]/[fwrite] loop passes on every byte, in chunks of at most
    1024. *)
Lemma copy_loop_spec fuel dst rest w :
  (length rest < fuel)%nat →
  ∃ chunks,
    trace (copy_loop fuel dst rest w) = trace w ++ writes_to dst chunks
    ∧ concat chunks = rest
    ∧ Forall (λ ch, (0 < length ch ≤ 1024)%nat) chunks
    ∧ fds (copy_loop fuel dst rest w) = fds w
    ∧ history (copy_loop fuel dst rest w) = history w.
Proof.
  revert rest w. induction fuel as [|fuel IH]; intros rest w Hf; [lia|].
  simpl. destruct (Nat.ltb_spec 0 (length (take 1024 rest))) as [Hpos|Hzero].
  - destruct (IH (drop 1024 rest) (emit (EvWrite dst (take 1024 rest)) w))
      as (chunks & Htr & Hcat & Hall & Hfds & Hh).
    { rewrite length_drop. rewrite length_take in Hpos. lia. }
    exists (take 1024 rest :: chunks). rewrite Htr, Hfds, Hh. simpl.
    rewrite Hcat, take_drop, <- app_assoc. repeat split; try done.
    constructor; [|done]. rewrite length_take in *. lia.
  - exists []. simpl. rewrite app_nil_r. repeat split; try done.
    rewrite length_take in Hzero. destruct rest; [done | simpl in Hzero; lia].
Qed.

Lemma sys_close_world w fd :
  sys_close w fd = (set_fds (tbl_close (fds w) fd).1 w, (tbl_close (fds w) fd).2).
Proof. unfold sys_close. by destruct (tbl_close (fds w) fd). Qed.

(** Closing, in the order of opening, two descriptors opened in a row. *)
Lemma close_two_after_open (t : gmap nat target) n m tn tm :
  t !! n = None → <[n:=tn]> t !! m = None →
  (tbl_close (tbl_close (<[m:=tm]> (<[n:=tn]> t)) (Z.of_nat n)).1 (Z.of_nat m)).1 = t.
Proof.
  intros Hn Hm.
  assert (n ≠ m) as Hne by (intros ->; by rewrite lookup_insert_eq in Hm).
  rewrite lookup_insert_ne in Hm by done.
  unfold tbl_close at 2.
  rewrite tbl_get_of_nat, lookup_insert_ne, lookup_insert_eq by done. cbn [fst].
  rewrite Nat2Z.id, delete_insert_ne, delete_insert_id by done.
  by apply close_after_open.
Qed.

End FileBuiltinFacts.

Module FileBuiltinSpecs.

(** What [shell_count] does. *)
Lemma shell_count_spec
    (E : env) (w : world) (args : cells) (file : string) :
  cell args 1 = Some file →
  let p := Notions.counted (file_bytes E (trace w) file) in
  let lines := Z.of_nat (Notions.newlines p) in
  let words := Z.of_nat (length (Notions.fields [] p)) in
  let chars := Z.of_nat (length p) in
  let fd := (sys_open E w (Some file) O_RDONLY).2 in
  (Builtins.shell_count E w args).2 = 1
  ∧ fds (Builtins.shell_count E w args).1 = fds w
  ∧ history (Builtins.shell_count E w args).1 = history w
  ∧ trace (Builtins.shell_count E w args).1
    = trace w ++ EvOpen (Some file) O_RDONLY fd
        :: (if fd <? 0 then [EvPerror "shell"]
            else [EvPrintf ("Lines: %d" +:+ NL) [PInt (Builtins.wrap_int lines)];
                  EvPrintf ("Words: %d" +:+ NL) [PInt (Builtins.wrap_int words)];
                  EvPrintf ("Chars: %d" +:+ NL) [PInt (Builtins.wrap_int chars)]])
  ∧ (chars < 2 ^ 31 →
     Builtins.wrap_int lines = lines ∧ Builtins.wrap_int words = words
     ∧ Builtins.wrap_int chars = chars)
  ∧ Forall (λ f, f ≠ [] ∧ Forall (λ c, Notions.is_blank c = false) f) (Notions.fields [] p)
  ∧ concat (Notions.fields [] p) = filter (λ c, Notions.is_blank c = false) p.
Proof.
  intros Harg p lines words chars fd. unfold Builtins.shell_count. rewrite Harg.
  pose proof (FileBuiltinFacts.count_loop_spec (file_bytes E (trace w) file)
                0 0 0 0 [] (or_introl (conj eq_refl eq_refl))) as Hcount.
  change (Builtins.wrap_int 0) with 0 in Hcount.
  rewrite !Z.add_0_l, Z.sub_0_r in Hcount. rewrite Hcount. clear Hcount.
  fold p lines words chars. subst fd.
  assert (chars < 2 ^ 31 →
          Builtins.wrap_int lines = lines ∧ Builtins.wrap_int words = words
          ∧ Builtins.wrap_int chars = chars) as Hsmall.
  { intros Hb. subst lines words chars.
    pose proof (FileBuiltinFacts.newlines_le p).
    pose proof (FileBuiltinFacts.fields_le [] p) as Hf. cbn beta iota in Hf.
    repeat split; apply FileBuiltinFacts.wrap_int_small; lia. }
  destruct (SysFacts.sys_open_cases E w (Some file) O_RDONLY)
    as (w1 & fd & -> & Htr & Hh & [[-> Hfds]|(n & q & -> & _ & Hfree & _ & Hfds)]).
  all: cbn [fst snd].
  all: split; [| split; [| split; [| split; [| split; [done | split;
         [by apply FileBuiltinFacts.fields_blank_free
         | apply FileBuiltinFacts.fields_concat]]]]]].
  - done.
  - done.
  - done.
  - simpl. by rewrite Htr, <- app_assoc.
  - destruct (Z.ltb_spec (Z.of_nat n) 0); [lia|]. by destruct (sys_close _ _).
  - destruct (Z.ltb_spec (Z.of_nat n) 0); [lia|].
    unfold sys_close, printf. simpl. rewrite Hfds.
    pose proof (HistoryFileEdges.close_after_open (fds w) n
                  (File q O_RDONLY (length (trace w))) Hfree) as Hclose.
    destruct (tbl_close _ _). simpl in *. done.
  - destruct (Z.ltb_spec (Z.of_nat n) 0); [lia|].
    unfold sys_close, printf. simpl. destruct (tbl_close _ _). simpl. by rewrite Hh.
  - destruct (Z.ltb_spec (Z.of_nat n) 0); [lia|].
    unfold sys_close, printf. simpl. destruct (tbl_close _ _). simpl.
    by rewrite Htr, <- !app_assoc.
Qed.

(** What [shell_cp] does. *)
Lemma shell_cp_spec (E : env) (w : world) (args : cells) (from to : string) :
  cell args 1 = Some from → cell args 2 = Some to →
  let r := Builtins.shell_cp E w args in
  let opening src dst :=
    [EvOpen (Some from) O_RDONLY src; EvOpen (Some to) O_WRONLY_CREAT_TRUNC dst] in
  r.2 = 1 ∧ fds r.1 = fds w ∧ history r.1 = history w
  ∧ (trace r.1 = trace w ++ [EvOpen (Some from) O_RDONLY (-1); EvPerror "shell"]
     ∨ (∃ src, 0 ≤ src
          ∧ trace r.1 = trace w ++ opening src (-1) ++ [EvPerror "shell"])
     ∨ (∃ src dst chunks, 0 ≤ src ∧ 0 ≤ dst ∧ src ≠ dst
          ∧ trace r.1 = trace w ++ opening src dst ++ Notions.writes_to dst chunks
          ∧ concat chunks = file_bytes E (trace w ++ opening src dst) from
          ∧ Forall (λ ch, (0 < length ch ≤ 1024)%nat) chunks
          ∧ (from = to → Notions.truncating E → chunks = []))).
Proof.
  intros Hfrom Hto r opening. subst r. unfold Builtins.shell_cp. rewrite Hfrom, Hto.
  destruct (SysFacts.sys_open_cases E w (Some from) O_RDONLY)
    as (w1 & src & -> & Htr1 & Hh1 & [[-> Hfds1]|(n & q & -> & _ & Hn & _ & Hfds1)]).
  { simpl. rewrite Htr1, <- app_assoc. repeat split; try done. by left. }
  destruct (Z.ltb_spec (Z.of_nat n) 0); [lia|].
  destruct (SysFacts.sys_open_cases E w1 (Some to) O_WRONLY_CREAT_TRUNC)
    as (w2 & dst & -> & Htr2 & Hh2 & [[-> Hfds2]|(m & q' & -> & _ & Hm & _ & Hfds2)]).
  { change (-1 <? 0) with true. cbv iota.
    rewrite FileBuiltinFacts.sys_close_world. simpl.
    rewrite Hfds2, Hfds1, Htr2, Htr1, Hh2, Hh1, <- !app_assoc.
    rewrite HistoryFileEdges.close_after_open by done.
    repeat split; try done. right. left. exists (Z.of_nat n). split; [lia | done]. }
  destruct (Z.ltb_spec (Z.of_nat m) 0); [lia|].
  rewrite !FileBuiltinFacts.sys_close_world. cbn [fst snd set_fds fds trace history].
  destruct (FileBuiltinFacts.copy_loop_spec
              (S (length (file_bytes E (trace w2) from))) (Z.of_nat m)
              (file_bytes E (trace w2) from) w2)
    as (chunks & Htr & Hcat & Hall & Hfds & Hh); [lia|].
  rewrite Hfds, Hfds2, Hfds1, Htr, Hh, Hh2, Hh1.
  rewrite Htr2, Htr1, <- !app_assoc in Hcat |- *.
  rewrite Hfds1 in Hm.
  rewrite FileBuiltinFacts.close_two_after_open by done.
  repeat split; try done. right. right.
  exists (Z.of_nat n), (Z.of_nat m), chunks.
  split; [lia|]. split; [lia|]. split.
  { intros Heq. apply Nat2Z.inj in Heq as ->. by rewrite lookup_insert_eq in Hm. }
  split; [by rewrite <- !app_assoc|]. split; [done|]. split; [done|].
  intros <- Htrunc.
  rewrite (app_assoc (trace w) [_] [_]), (Htrunc _ from (Z.of_nat m)) in Hcat by lia.
  destruct Hall as [|ch chunks Hch _]; [done|].
  simpl in Hcat. apply app_eq_nil in Hcat as [-> _]. simpl in Hch. lia.
Qed.

End FileBuiltinSpecs.

(** X6.  [count file] reads the file up to its end, or up to the first
    byte 255, which the [char] it is read into makes equal to [EOF].  On
    what it read, [p], it counts the newline bytes, the maximal runs of
    bytes other than space, newline and tab, and the bytes, in three [int]
    counters, and prints the counters with [%d]: what is printed is each
    count wrapped to 32 bits, and the count itself whenever fewer than
    2^31 bytes were read.  When the file cannot be opened it reports that
    and prints nothing.  Either way the descriptor table is left as it was,
    and the shell continues. *)
Theorem count_reports_lines_words_and_bytes
    (E : env) (w : world) (args : cells) (file : string) :
  cell args 1 = Some file →
  let p := Notions.counted (file_bytes E (trace w) file) in
  let lines := Z.of_nat (Notions.newlines p) in
  let words := Z.of_nat (length (Notions.fields [] p)) in
  let chars := Z.of_nat (length p) in
  let fd := (sys_open E w (Some file) O_RDONLY).2 in
  (Builtins.shell_count E w args).2 = 1
  ∧ fds (Builtins.shell_count E w args).1 = fds w
  ∧ history (Builtins.shell_count E w args).1 = history w
  ∧ trace (Builtins.shell_count E w args).1
    = trace w ++ EvOpen (Some file) O_RDONLY fd
        :: (if fd <? 0 then [EvPerror "shell"]
            else [EvPrintf ("Lines: %d" +:+ NL) [PInt (Builtins.wrap_int lines)];
                  EvPrintf ("Words: %d" +:+ NL) [PInt (Builtins.wrap_int words)];
                  EvPrintf ("Chars: %d" +:+ NL) [PInt (Builtins.wrap_int chars)]])
  ∧ (chars < 2 ^ 31 →
     Builtins.wrap_int lines = lines ∧ Builtins.wrap_int words = words
     ∧ Builtins.wrap_int chars = chars)
  ∧ Forall (λ f, f ≠ [] ∧ Forall (λ c, Notions.is_blank c = false) f) (Notions.fields [] p)
  ∧ concat (Notions.fields [] p) = filter (λ c, Notions.is_blank c = false) p.
Proof. apply FileBuiltinSpecs.shell_count_spec. Qed.

(** X6 at work: a file of two lines, three words and eight bytes, followed
    by a byte 255 and two more bytes. *)
Lemma count_reports_lines_words_and_bytes_witness :
  let bytes := String.list_ascii_of_string ("ab c" +:+ NL +:+ "de" +:+ NL)
               ++ ["255"%char; "x"%char; "y"%char] in
  trace (Builtins.shell_count (Run2.holding bytes) Run.fresh (mk_args ["count"; "f"])).1
  = [EvOpen (Some "f") O_RDONLY 3;
     EvPrintf ("Lines: %d" +:+ NL) [PInt 2];
     EvPrintf ("Words: %d" +:+ NL) [PInt 3];
     EvPrintf ("Chars: %d" +:+ NL) [PInt 8]].
Proof.
  intros bytes.
  apply (proj1 (proj2 (proj2 (proj2
    (count_reports_lines_words_and_bytes (Run2.holding bytes) Run.fresh
       (mk_args ["count"; "f"]) "f" eq_refl))))).
Defined.

(** X7.  [cp from to] opens the source, then opens and truncates the
    destination, and only then reads: it writes to the destination exactly
    the bytes the source holds after both opens, in their order, in chunks
    of 1 to 1024 bytes.  So when source and destination are the same file,
    which the truncation has emptied, nothing is written and the file stays
    empty.  When the source cannot be opened nothing else is tried; when
    the destination cannot be opened the source is closed again and nothing
    is written.  In every case the failure is reported once, the descriptor
    table ends as it was, and the shell continues. *)
Theorem cp_copies_every_byte (E : env) (w : world) (args : cells) (from to : string) :
  cell args 1 = Some from → cell args 2 = Some to →
  let r := Builtins.shell_cp E w args in
  let opening src dst :=
    [EvOpen (Some from) O_RDONLY src; EvOpen (Some to) O_WRONLY_CREAT_TRUNC dst] in
  r.2 = 1 ∧ fds r.1 = fds w ∧ history r.1 = history w
  ∧ (trace r.1 = trace w ++ [EvOpen (Some from) O_RDONLY (-1); EvPerror "shell"]
     ∨ (∃ src, 0 ≤ src
          ∧ trace r.1 = trace w ++ opening src (-1) ++ [EvPerror "shell"])
     ∨ (∃ src dst chunks, 0 ≤ src ∧ 0 ≤ dst ∧ src ≠ dst
          ∧ trace r.1 = trace w ++ opening src dst ++ Notions.writes_to dst chunks
          ∧ concat chunks = file_bytes E (trace w ++ opening src dst) from
          ∧ Forall (λ ch, (0 < length ch ≤ 1024)%nat) chunks
          ∧ (from = to → Notions.truncating E → chunks = []))).
Proof. apply FileBuiltinSpecs.shell_cp_spec. Qed.

(** X7 at work: a source of 1030 bytes goes over in two chunks. *)
Lemma cp_copies_every_byte_witness :
  let bytes := replicate 1030 "a"%char in
  Notions.bytes_written
    (trace (Builtins.shell_cp (Run2.holding bytes) Run.fresh (mk_args ["cp"; "a"; "b"])).1)
  = bytes
  ∧ fds (Builtins.shell_cp (Run2.holding bytes) Run.fresh (mk_args ["cp"; "a"; "b"])).1
    = fds Run.fresh.
Proof.
  intros bytes.
  split; [by vm_compute|].
  apply (proj1 (proj2 (cp_copies_every_byte (Run2.holding bytes) Run.fresh
                         (mk_args ["cp"; "a"; "b"]) "a" "b" eq_refl eq_refl))).
Defined.

Lemma keeping_truncating bytes : Notions.truncating (Run2.keeping bytes).
Proof.
  intros tr path fd Hfd. unfold Run2.keeping. cbn [file_bytes].
  rewrite existsb_app. cbn [existsb Run2.emptied]. unfold streq.
  rewrite String.eqb_refl. destruct (Z.leb_spec 0 fd); [|lia].
  by rewrite orb_true_r.
Qed.

(** [cp a a] on a file of three bytes: both opens succeed, nothing is
    written, and the file reads as empty afterwards. *)
Example cp_onto_itself_empties_the_file :
  let E := Run2.keeping ["a"; "b"; "c"]%char in
  let r := Builtins.shell_cp E Run.fresh (mk_args ["cp"; "a"; "a"]) in
  file_bytes E (trace Run.fresh) "a" = ["a"; "b"; "c"]%char
  ∧ trace r.1 = [EvOpen (Some "a") O_RDONLY 3; EvOpen (Some "a") O_WRONLY_CREAT_TRUNC 4]
  ∧ file_bytes E (trace r.1) "a" = [].
Proof. by vm_compute. Qed.

(* ===================================================================== *)
(** * The wiring of a pipeline                                             *)
(* ===================================================================== *)

Module PipeFacts.

Import Spec Executor Wiring SysFacts SplitFacts.

Lemma pipe_keys_cons p ks : pipe_keys (p :: ks) = p.1 :: p.2 :: pipe_keys ks.
Proof. done. Qed.

Lemma length_pipe_keys ks : length (pipe_keys ks) = (2 * length ks)%nat.
Proof. induction ks as [|p ks IH]; [done|]. rewrite pipe_keys_cons. simpl. lia. Qed.

(** Descriptors that are not pipe ends are as before. *)
Lemma piped_other t0 s ks t k :
  piped t0 s ks t → k ∉ pipe_keys ks → t !! k = t0 !! k.
Proof.
  revert t0 s. induction ks as [|p ks IH]; intros t0 s Hp Hk; simpl in Hp.
  { by subst. }
  destruct Hp as (_ & _ & Hp). rewrite pipe_keys_cons in Hk.
  apply not_elem_of_cons in Hk as [H1 Hk]. apply not_elem_of_cons in Hk as [H2 Hk].
  rewrite (IH _ _ Hp Hk). by rewrite !lookup_insert_ne.
Qed.

(** The pipe ends were free. *)
Lemma piped_free t0 s ks t k :
  piped t0 s ks t → k ∈ pipe_keys ks → t0 !! k = None.
Proof.
  revert t0 s. induction ks as [|p ks IH]; intros t0 s Hp Hk; simpl in Hp.
  { by apply elem_of_nil in Hk. }
  destruct Hp as (Hr & Hw & Hp). rewrite pipe_keys_cons in Hk.
  apply elem_of_cons in Hk as [->|Hk]; [done|].
  apply elem_of_cons in Hk as [->|Hk].
  - by apply lookup_insert_None in Hw as [? _].
  - specialize (IH _ _ Hp Hk).
    apply lookup_insert_None in IH as [IH _].
    by apply lookup_insert_None in IH as [IH _].
Qed.

(** The ends of pipe [j] are bound to the pipe numbered [s + j]. *)
Lemma piped_bound t0 s ks t j p :
  piped t0 s ks t → ks !! j = Some p →
  t !! p.1 = Some (PipeRd (s + j)) ∧ t !! p.2 = Some (PipeWr (s + j)).
Proof.
  revert t0 s j. induction ks as [|q ks IH]; intros t0 s j Hp Hj; [done|].
  simpl in Hp. destruct Hp as (Hr & Hw & Hp).
  destruct j as [|j]; simpl in Hj.
  - injection Hj as ->. rewrite Nat.add_0_r.
    assert (∀ k, is_Some (<[p.2:=PipeWr s]> (<[p.1:=PipeRd s]> t0) !! k) →
                 k ∉ pipe_keys ks) as Hnot.
    { intros k [x Hx] Hin. by rewrite (piped_free _ _ _ _ _ Hp Hin) in Hx. }
    assert (p.1 ≠ p.2) as Hne by (intros Heq; by rewrite <- Heq, lookup_insert_eq in Hw).
    split.
    + rewrite (piped_other _ _ _ _ _ Hp).
      * by rewrite lookup_insert_ne, lookup_insert_eq.
      * apply Hnot. by rewrite lookup_insert_ne, lookup_insert_eq.
    + rewrite (piped_other _ _ _ _ _ Hp).
      * by rewrite lookup_insert_eq.
      * apply Hnot. by rewrite lookup_insert_eq.
  - rewrite <- Nat.add_succ_comm. by apply (IH _ _ _ Hp).
Qed.

(** Where the ends of pipe [j] stand in [pipefd]. *)
Lemma nth_pipe_keys ks j p :
  ks !! j = Some p →
  nth (j * 2) (Z.of_nat <$> pipe_keys ks) (-1) = Z.of_nat p.1
  ∧ nth (j * 2 + 1) (Z.of_nat <$> pipe_keys ks) (-1) = Z.of_nat p.2.
Proof.
  revert j. induction ks as [|q ks IH]; intros j Hj; [done|].
  rewrite pipe_keys_cons, !fmap_cons.
  destruct j as [|j]; simpl in Hj.
  - by injection Hj as ->.
  - simpl. by apply IH.
Qed.

Lemma tbl_close_delete (t : gmap nat target) k :
  (tbl_close t (Z.of_nat k)).1 = delete k t.
Proof.
  unfold tbl_close. rewrite tbl_get_of_nat.
  destruct (t !! k) eqn:Hk; simpl; [by rewrite Nat2Z.id|].
  by rewrite delete_id.
Qed.

(** Closing every cell of [pipefd] deletes the pipe ends. *)
Lemma close_all_from (pre : list Z) (l : list nat) (t : gmap nat target) :
  foldl (λ t j, (tbl_close t (nth j (pre ++ (Z.of_nat <$> l)) (-1))).1) t
        (seq (length pre) (length l))
  = foldl (λ t k, delete k t) t l.
Proof.
  revert pre t. induction l as [|k l IH]; intros pre t; [done|].
  rewrite fmap_cons. cbn [length seq foldl]. rewrite nth_middle, tbl_close_delete.
  rewrite snoc_shift. rewrite <- (IH (pre ++ [Z.of_nat k])).
  f_equal. f_equal. rewrite length_app. simpl. lia.
Qed.

Lemma close_all_keys ks (t : gmap nat target) :
  close_all (Z.of_nat <$> pipe_keys ks) (2 * length ks) t
  = foldl (λ t k, delete k t) t (pipe_keys ks).
Proof.
  unfold close_all. rewrite <- length_pipe_keys.
  apply (close_all_from [] (pipe_keys ks) t).
Qed.

Lemma lookup_delete_all (l : list nat) (t : gmap nat target) k :
  foldl (λ t k, delete k t) t l !! k = if bool_decide (k ∈ l) then None else t !! k.
Proof.
  revert t. induction l as [|x l IH]; intros t; [done|]. simpl. rewrite IH.
  destruct (decide (k = x)) as [->|Hne].
  - rewrite lookup_delete_eq, (bool_decide_eq_true_2 (x ∈ x :: l)) by (by left).
    by destruct (bool_decide (x ∈ l)).
  - rewrite lookup_delete_ne by done.
    destruct (bool_decide (k ∈ l)) eqn:Hl.
    + apply bool_decide_eq_true_1 in Hl.
      by rewrite (bool_decide_eq_true_2 (k ∈ x :: l)) by (by right).
    + apply bool_decide_eq_false_1 in Hl.
      rewrite (bool_decide_eq_false_2 (k ∈ x :: l)); [done|].
      intros [->|?]%elem_of_cons; done.
Qed.

(** Closing all pipe ends undoes the making of the pipes. *)
Lemma close_all_piped t0 s ks t :
  piped t0 s ks t → close_all (Z.of_nat <$> pipe_keys ks) (2 * length ks) t = t0.
Proof.
  intros Hp. rewrite close_all_keys. apply map_eq. intros k.
  rewrite lookup_delete_all. destruct (bool_decide (k ∈ pipe_keys ks)) eqn:Hk.
  - apply bool_decide_eq_true_1 in Hk. symmetry. by eapply piped_free.
  - apply bool_decide_eq_false_1 in Hk. by eapply piped_other.
Qed.

End PipeFacts.

Module PipeRun.

Import Spec Executor Wiring SysFacts SplitFacts PipeFacts.

Section WithEnv.

Variable E : env.

(** The pipe-creating loop: the pipes it made, and whether one failed. *)
Lemma create_pipes_made n w pipefd :
  ∃ ks,
    piped (fds w) (length (trace w)) ks (fds (create_pipes E n w pipefd).1)
    ∧ history (create_pipes E n w pipefd).1 = history w
    ∧ match (create_pipes E n w pipefd).2 with
      | Some fdl =>
          length ks = n
          ∧ fdl = pipefd ++ (Z.of_nat <$> pipe_keys ks)
          ∧ trace (create_pipes E n w pipefd).1 = trace w ++ pipe_events ks
      | None =>
          (length ks < n)%nat
          ∧ trace (create_pipes E n w pipefd).1
            = trace w ++ pipe_events ks ++ [EvPipe None; EvPerror "pipe"]
      end.
Proof.
  revert w pipefd. induction n as [|n IH]; intros w pipefd.
  { exists []. simpl. by rewrite !app_nil_r. }
  assert (∀ w1, sys_pipe E w = (w1, None) → w1 = emit (EvPipe None) w) as Hnone.
  { unfold sys_pipe. intros w1.
    destruct (pipe_ok E (trace w)); [|congruence].
    destruct (lowest_free E (fds w)) as [a|]; [|congruence].
    destruct (lowest_free E (<[a:=_]> (fds w))); congruence. }
  assert (∀ w1 r wr, sys_pipe E w = (w1, Some (r, wr)) →
    ∃ a b, r = Z.of_nat a ∧ wr = Z.of_nat b ∧ fds w !! a = None
      ∧ <[a:=PipeRd (length (trace w))]> (fds w) !! b = None
      ∧ w1 = emit (EvPipe (Some (r, wr)))
               (set_fds (<[b:=PipeWr (length (trace w))]>
                           (<[a:=PipeRd (length (trace w))]> (fds w))) w)) as Hsome.
  { unfold sys_pipe. intros w1 r wr.
    destruct (pipe_ok E (trace w)); [|congruence].
    destruct (lowest_free E (fds w)) as [a|] eqn:Ha; [|congruence].
    destruct (lowest_free E (<[a:=_]> (fds w))) as [b|] eqn:Hb; [|congruence].
    cbv zeta. intros [= <- <- <-]. exists a, b.
    repeat split; by eapply lowest_free_Some. }
  simpl. destruct (sys_pipe E w) as [w1 [[r wr]|]].
  - destruct (Hsome w1 r wr eq_refl) as (a & b & -> & -> & Ha & Hb & ->).
    destruct (IH (emit (EvPipe (Some (Z.of_nat a, Z.of_nat b)))
                    (set_fds (<[b:=PipeWr (length (trace w))]>
                                (<[a:=PipeRd (length (trace w))]> (fds w))) w))
                 (pipefd ++ [Z.of_nat a; Z.of_nat b])) as (ks & Hp & Hh & Hres).
    exists ((a, b) :: ks). cbn [emit set_fds fds trace history] in *.
    rewrite length_app, Nat.add_1_r in Hp.
    split; [done|]. split; [done|].
    destruct (create_pipes E n _ _).2 as [fdl|].
    + destruct Hres as (Hl & -> & ->). rewrite <- !app_assoc. simpl. by rewrite Hl.
    + destruct Hres as (Hl & ->). rewrite <- !app_assoc. simpl. split; [lia | done].
  - rewrite (Hnone w1 eq_refl). exists []. simpl.
    rewrite <- app_assoc. repeat split; try done. lia.
Qed.

Lemma cell_head_argv a off : cell a off = head (argv_at a off).
Proof.
  unfold cell, argv_at. revert off. induction a as [|c a IH]; intros off.
  { by destruct off. }
  destruct off as [|off]; [by destruct c|]. apply IH.
Qed.

Lemma pipe_keys_elem ks (p : nat * nat) : p ∈ ks → p.2 ∈ pipe_keys ks.
Proof.
  induction ks as [|q ks IH]; [by intros ?%elem_of_nil|].
  rewrite pipe_keys_cons. intros [->|Hin]%elem_of_cons.
  - right. by left.
  - do 2 right. by apply IH.
Qed.

Lemma pipe_keys_elem_rd ks (p : nat * nat) : p ∈ ks → p.1 ∈ pipe_keys ks.
Proof.
  induction ks as [|q ks IH]; [by intros ?%elem_of_nil|].
  rewrite pipe_keys_cons. intros [->|Hin]%elem_of_cons.
  - by left.
  - do 2 right. by apply IH.
Qed.

(** The child of stage [i]: what its [execvp] finds on descriptors 0 and 1. *)
Lemma pipeline_child_wired args cmd_args t0 tin tout s ks num_cmds i w :
  piped t0 s ks (fds w) →
  t0 !! 0%nat = Some tin → t0 !! 1%nat = Some tout →
  S (length ks) = num_cmds → (i < num_cmds)%nat →
  let w' := pipeline_child E args cmd_args (Z.of_nat <$> pipe_keys ks) num_cmds i w in
  let off := nth i cmd_args 0%nat in
  fds w' = fds w ∧ history w' = history w
  ∧ ∃ ok, trace w'
          = trace w ++ EvExec (cell args off) (argv_at args off)
                         (Some (stage_in tin s i)) (Some (stage_out tout s num_cmds i)) ok
                       :: exec_report "execvp" (cell args off) ok.
Proof.
  intros Hp H0 H1 Hn Hi w' off. subst w'. unfold pipeline_child. fold off.
  assert (∀ k, is_Some (t0 !! k) → k ∉ pipe_keys ks) as Hnot.
  { intros k [x Hx] Hin. by rewrite (piped_free _ _ _ _ _ Hp Hin) in Hx. }
  (* the first [dup2] *)
  assert (∃ ct1,
    (if bool_decide (i ≠ 0%nat)
     then let '(ct, r) := tbl_dup2 (fds w) (nth ((i - 1) * 2) (Z.of_nat <$> pipe_keys ks) (-1)) 0 in
          (ct, if r <? 0 then perror "dup2" w else w)
     else (fds w, w)) = (ct1, w)
    ∧ ct1 !! 0%nat = Some (stage_in tin s i)
    ∧ ∀ k, k ≠ 0%nat → ct1 !! k = fds w !! k) as (ct1 & -> & Hin & Hrest1).
  { destruct i as [|j].
    - exists (fds w). rewrite bool_decide_eq_false_2 by (by intros ?).
      repeat split; try done. rewrite (piped_other _ _ _ _ _ Hp); [done|].
      apply Hnot. by rewrite H0.
    - rewrite bool_decide_eq_true_2 by done.
      destruct (lookup_lt_is_Some_2 ks j) as [p Hj]; [lia|].
      replace (S j - 1)%nat with j by lia.
      rewrite (proj1 (nth_pipe_keys ks j p Hj)).
      destruct (piped_bound _ _ _ _ _ _ Hp Hj) as [Hr _].
      unfold tbl_dup2. rewrite tbl_get_of_nat, Hr. eexists. split; [done|].
      change (Z.to_nat 0) with 0%nat. split; [by rewrite lookup_insert_eq|].
      intros k Hk. by rewrite lookup_insert_ne. }
  (* the second *)
  assert (∃ ct2,
    (if bool_decide (i ≠ (num_cmds - 1)%nat)
     then let '(ct, r) := tbl_dup2 ct1 (nth (i * 2 + 1) (Z.of_nat <$> pipe_keys ks) (-1)) 1 in
          (ct, if r <? 0 then perror "dup2" w else w)
     else (ct1, w)) = (ct2, w)
    ∧ ct2 !! 0%nat = Some (stage_in tin s i)
    ∧ ct2 !! 1%nat = Some (stage_out tout s num_cmds i)) as (ct2 & -> & Hin2 & Hout).
  { unfold stage_out. destruct (decide (i = (num_cmds - 1)%nat)) as [Hlast|Hmid].
    - exists ct1. rewrite bool_decide_eq_false_2 by (by intros ?).
      rewrite bool_decide_eq_true_2 by lia. repeat split; try done.
      rewrite Hrest1 by done. rewrite (piped_other _ _ _ _ _ Hp); [done|].
      apply Hnot. by rewrite H1.
    - rewrite bool_decide_eq_true_2 by done. rewrite bool_decide_eq_false_2 by lia.
      destruct (lookup_lt_is_Some_2 ks i) as [p Hj]; [lia|].
      rewrite (proj2 (nth_pipe_keys ks i p Hj)).
      destruct (piped_bound _ _ _ _ _ _ Hp Hj) as [_ Hw].
      assert (p.2 ≠ 0%nat) as Hp0.
      { intros Heq. apply (Hnot 0%nat); [by rewrite H0|].
        rewrite <- Heq. apply pipe_keys_elem. by eapply list_elem_of_lookup_2. }
      unfold tbl_dup2. rewrite tbl_get_of_nat, Hrest1, Hw by done.
      eexists. split; [done|]. change (Z.to_nat 1) with 1%nat.
      split; [by rewrite lookup_insert_ne | by rewrite lookup_insert_eq]. }
  (* closing the pipes, and the call *)
  rewrite <- Hn. replace (S (length ks) - 1)%nat with (length ks) by lia.
  rewrite close_all_keys.
  unfold child_exec, sys_execvp, tbl_get. change (0 <? 0) with false.
  change (1 <? 0) with false. cbv iota. change (Z.to_nat 0) with 0%nat.
  change (Z.to_nat 1) with 1%nat.
  rewrite !lookup_delete_all.
  rewrite !bool_decide_eq_false_2 by (apply Hnot; rewrite ?H0, ?H1; done).
  rewrite Hin2, Hout, Hn.
  destruct (cell args off) as [f|];
    [match goal with
     | |- context [exec_ok ?a ?b ?c ?d] => destruct (exec_ok a b c d)
     end|].
  - repeat split; try done. by exists true.
  - repeat split; try done. exists false. simpl. by rewrite <- app_assoc.
  - repeat split; try done. by exists false.
Qed.

Lemma waits_app evs1 evs2 : waits (evs1 ++ evs2) = (waits evs1 + waits evs2)%nat.
Proof. unfold waits. by rewrite List.filter_app, length_app. Qed.

Lemma made_app evs1 evs2 : made (evs1 ++ evs2) = made evs1 ++ made evs2.
Proof. apply omap_app. Qed.

Lemma opens_split evs1 evs2 :
  Notions.opens (evs1 ++ evs2) = Notions.opens evs1 ++ Notions.opens evs2.
Proof. apply omap_app. Qed.

Lemma clean_app evs1 evs2 : clean (evs1 ++ evs2) = clean evs1 && clean evs2.
Proof. apply forallb_app. Qed.

Lemma execs_app evs1 evs2 : execs (evs1 ++ evs2) = execs evs1 ++ execs evs2.
Proof. apply omap_app. Qed.

Lemma inert_app evs1 evs2 : inert evs1 → inert evs2 → inert (evs1 ++ evs2).
Proof.
  intros (W1 & M1 & C1 & O1) (W2 & M2 & C2 & O2). unfold inert.
  by rewrite waits_app, made_app, clean_app, opens_split, W1, W2, M1, M2, C1, C2, O1, O2.
Qed.

(** A child changes nothing of the shell, and its events are inert. *)
Lemma pipeline_child_inert args cmd_args pipefd num_cmds i w :
  let w' := pipeline_child E args cmd_args pipefd num_cmds i w in
  fds w' = fds w ∧ history w' = history w
  ∧ ∃ evs, trace w' = trace w ++ evs ∧ inert evs.
Proof.
  intros w'. subst w'. unfold pipeline_child.
  assert (∀ (b : bool) (t : gmap nat target) a n w0,
    let r := (if b then let '(ct, r) := tbl_dup2 t a n in
                        (ct, if r <? 0 then perror "dup2" w0 else w0)
              else (t, w0)) in
    fds r.2 = fds w0 ∧ history r.2 = history w0
    ∧ ∃ evs, trace r.2 = trace w0 ++ evs ∧ inert evs) as Hstep.
  { intros b t a n w0 r. subst r. destruct b.
    - destruct (tbl_dup2 t a n) as [ct r]. destruct (r <? 0); simpl.
      + repeat split. by exists [EvPerror "dup2"].
      + repeat split. exists []. by rewrite app_nil_r.
    - repeat split. exists []. by rewrite app_nil_r. }
  pose proof (Hstep (bool_decide (i ≠ 0%nat)) (fds w)
                (nth ((i - 1) * 2) pipefd (-1)) 0 w) as H1.
  destruct (if bool_decide (i ≠ 0%nat) then _ else _) as [ct1 w1].
  destruct H1 as (F1 & Hh1 & e1 & T1 & I1).
  pose proof (Hstep (bool_decide (i ≠ (num_cmds - 1)%nat)) ct1
                (nth (i * 2 + 1) pipefd (-1)) 1 w1) as H2.
  destruct (if bool_decide (i ≠ (num_cmds - 1)%nat) then _ else _) as [ct2 w2].
  destruct H2 as (F2 & Hh2 & e2 & T2 & I2). simpl in *.
  unfold child_exec, sys_execvp.
  match goal with |- context [match ?file with Some _ => _ | None => _ end] =>
    destruct file as [f|]
  end; [match goal with
        | |- context [exec_ok ?a ?b ?c ?d] => destruct (exec_ok a b c d)
        end|]; simpl.
  all: rewrite F2, F1, Hh2, Hh1, T2, T1, <- !app_assoc; repeat split.
  all: eexists; (split; [done|]); by repeat apply inert_app.
Qed.

(** The forking loop leaves the shell's table alone, makes no pipe and
    waits for nothing; it returns [false] exactly when a [fork] failed. *)
Lemma fork_stages_frame args cmd_args pipefd num_cmds rem i w :
  let r := fork_stages E args cmd_args pipefd num_cmds rem i w in
  fds r.1 = fds w ∧ history r.1 = history w
  ∧ ∃ evs, trace r.1 = trace w ++ evs
           ∧ waits evs = 0%nat ∧ made evs = [] ∧ clean evs = r.2
           ∧ Notions.opens evs = [].
Proof.
  revert i w. induction rem as [|rem IH]; intros i w; simpl.
  { repeat split. exists []. by rewrite app_nil_r. }
  unfold sys_fork, perror. destruct (fork_ok E (trace w)).
  - destruct (pipeline_child_inert args cmd_args pipefd num_cmds i (emit (EvFork true) w))
      as (Fc & Hc & cevs & Tc & Wc & Mc & Cc & Oc).
    destruct (IH (S i) (pipeline_child E args cmd_args pipefd num_cmds i
                          (emit (EvFork true) w))) as (F & Hh & evs & T & Wv & M & C & O).
    rewrite F, Fc, Hh, Hc. repeat split.
    exists (EvFork true :: cevs ++ evs). rewrite T, Tc. simpl.
    rewrite <- !app_assoc. split; [done|].
    change (EvFork true :: cevs ++ evs) with ([EvFork true] ++ cevs ++ evs).
    by rewrite !waits_app, !made_app, !clean_app, !opens_split, Wc, Wv, Mc, M, Cc, C, Oc, O.
  - simpl. repeat split. exists [EvFork false; EvPerror "fork"].
    by rewrite <- app_assoc.
Qed.

Lemma pipe_events_inert ks :
  waits (pipe_events ks) = 0%nat ∧ made (pipe_events ks) = pipe_ends ks
  ∧ clean (pipe_events ks) = true ∧ execs (pipe_events ks) = []
  ∧ Notions.opens (pipe_events ks) = [].
Proof.
  unfold pipe_events. induction (pipe_ends ks) as [|p l (W & M & C & X & O)]; [done|].
  rewrite fmap_cons. repeat split; try done. simpl. by rewrite M.
Qed.

Lemma waits_inert n :
  waits (replicate n EvWait) = n ∧ made (replicate n EvWait) = []
  ∧ clean (replicate n EvWait) = true ∧ execs (replicate n EvWait) = []
  ∧ Notions.opens (replicate n EvWait) = [].
Proof.
  induction n as [|n (W & M & C & X & O)]; [done|]. repeat split; try done.
  unfold waits in *. simpl. by rewrite W.
Qed.

Lemma waits_frame n w :
  fds (Nat.iter n sys_wait w) = fds w ∧ history (Nat.iter n sys_wait w) = history w.
Proof. induction n as [|n [IH1 IH2]]; [done|]. simpl. by rewrite IH1, IH2. Qed.

(** The forking loop, when every [fork] succeeds: the [execvp] calls. *)
Lemma fork_stages_wired args cmd_args t0 tin tout s ks num_cmds rem i w :
  piped t0 s ks (fds w) →
  t0 !! 0%nat = Some tin → t0 !! 1%nat = Some tout →
  S (length ks) = num_cmds → (i + rem = num_cmds)%nat → length cmd_args = num_cmds →
  let r := fork_stages E args cmd_args (Z.of_nat <$> pipe_keys ks) num_cmds rem i w in
  r.2 = true →
  ∃ evs, trace r.1 = trace w ++ evs
         ∧ execs evs = wired_from tin tout s num_cmds i (argv_at args <$> drop i cmd_args).
Proof.
  intros Hp H0 H1 Hn. revert i w Hp.
  induction rem as [|rem IH]; intros i w Hp Hi Hl r Hr; subst r.
  { exists []. rewrite app_nil_r, drop_ge by lia. done. }
  simpl in *. unfold sys_fork in *. destruct (fork_ok E (trace w)); [|done].
  destruct (pipeline_child_wired args cmd_args t0 tin tout s ks num_cmds i
              (emit (EvFork true) w) Hp H0 H1 Hn) as (Fc & _ & ok & Tc); [lia|].
  destruct (IH (S i) (pipeline_child E args cmd_args (Z.of_nat <$> pipe_keys ks)
                        num_cmds i (emit (EvFork true) w)))
    as (evs & T & X); [by rewrite Fc | lia | done | done |].
  eexists. rewrite T, Tc. simpl. rewrite <- !app_assoc. split; [done|].
  destruct (lookup_lt_is_Some_2 cmd_args i) as [off Hoff]; [lia|].
  rewrite (drop_S _ _ _ Hoff), fmap_cons. cbn [wired_from].
  rewrite nth_lookup, Hoff. cbn [default].
  change (execs (?a :: ?b :: ?l)) with (execs ([a; b] ++ l)).
  rewrite execs_app, execs_app, X, <- cell_head_argv. change (id off) with off.
  by destruct (cell args off), ok.
Qed.

(** The whole executor.  Either nothing failed: then the stages are wired
    and waited for and the table is as before; or a [pipe] or a [fork]
    failed: then nothing is waited for and the pipes made stay open. *)
Lemma execute_pipeline_outcome w args cmd_args num_cmds :
  (0 < num_cmds)%nat →
  let r := execute_pipeline E w args cmd_args num_cmds in
  ∃ ks evs,
    trace r.1 = trace w ++ evs ∧ history r.1 = history w
    ∧ made evs = pipe_ends ks ∧ Notions.opens evs = []
    ∧ if clean evs
      then waits evs = num_cmds ∧ fds r.1 = fds w ∧ S (length ks) = num_cmds
           ∧ ∀ tin tout,
               fds w !! 0%nat = Some tin → fds w !! 1%nat = Some tout →
               length cmd_args = num_cmds →
               execs evs = wired_from tin tout (length (trace w)) num_cmds 0
                             (argv_at args <$> cmd_args)
      else waits evs = 0%nat ∧ piped (fds w) (length (trace w)) ks (fds r.1).
Proof.
  intros Hpos r. subst r. unfold execute_pipeline.
  destruct (create_pipes_made (num_cmds - 1) w []) as (ks & Hp & Hh & Hres).
  destruct (pipe_events_inert ks) as (Wp & Mp & Cp & Xp & Op).
  destruct (create_pipes E (num_cmds - 1) w []) as [w1 [fdl|]]; cbn [fst snd] in *.
  - destruct Hres as (Hl & Hfdl & T1). rewrite app_nil_l in Hfdl. subst fdl.
    pose proof (fork_stages_frame args cmd_args (Z.of_nat <$> pipe_keys ks)
                  num_cmds num_cmds 0 w1) as (F & Hh2 & fevs & T & Wv & M & C & O).
    pose proof (λ tin tout,
                  fork_stages_wired args cmd_args (fds w) tin tout (length (trace w)) ks
                    num_cmds num_cmds 0 w1 Hp) as Hwired.
    destruct (fork_stages E args cmd_args _ num_cmds num_cmds 0 w1) as [w2 b].
    cbn [fst snd] in *. destruct b.
    + destruct (waits_inert num_cmds) as (Ww & Mw & Cw & Xw & Ow).
      destruct (waits_frame num_cmds
                  (set_fds (close_all (Z.of_nat <$> pipe_keys ks)
                              (2 * (num_cmds - 1)) (fds w2)) w2)) as [Ff Hf].
      exists ks, (pipe_events ks ++ fevs ++ replicate num_cmds EvWait).
      cbv zeta. cbn [fst snd].
      rewrite PipelineFacts.waits_trace, Ff, Hf. cbn [set_fds fds trace history].
      rewrite T, T1, Hh2, Hh, <- !app_assoc.
      rewrite !made_app, !clean_app, !waits_app, !opens_split.
      rewrite Mp, M, Mw, Cp, C, Cw, Wp, Wv, Ww, Op, O, Ow.
      rewrite app_nil_r. repeat split; try done.
      * rewrite F, <- Hl. by eapply close_all_piped.
      * lia.
      * intros tin tout H0 H1 Hlen.
        destruct (Hwired tin tout H0 H1) as (evs' & T' & X); [lia | done | done | done|].
        rewrite T in T'. apply app_inv_head in T' as <-.
        by rewrite !execs_app, Xp, Xw, X, app_nil_r.
    + exists ks, (pipe_events ks ++ fevs). cbn [fst snd].
      rewrite T, T1, Hh2, Hh, <- !app_assoc.
      rewrite !made_app, !clean_app, !waits_app, !opens_split, Mp, M, Cp, C, Wp, Wv, F, Op, O.
      rewrite app_nil_r. by repeat split.
  - destruct Hres as (Hl & T1).
    exists ks, (pipe_events ks ++ [EvPipe None; EvPerror "pipe"]). cbn [fst snd].
    rewrite T1, !made_app, !clean_app, !waits_app, !opens_split, Mp, Cp, Wp, Op. simpl.
    rewrite app_nil_r. by repeat split.
Qed.

(** When nothing failed, every stage was forked. *)
Lemma execute_pipeline_clean_forks w args cmd_args num_cmds evs :
  trace (execute_pipeline E w args cmd_args num_cmds).1 = trace w ++ evs →
  clean evs = true → forks evs = replicate num_cmds true.
Proof.
  unfold execute_pipeline.
  destruct (create_pipes_made (num_cmds - 1) w []) as (ks & _ & _ & Hres).
  assert (forks (pipe_events ks) = []) as Fp.
  { unfold pipe_events. induction (pipe_ends ks) as [|p l IH]; [done | by simpl]. }
  destruct (create_pipes E (num_cmds - 1) w []) as [w1 [fdl|]]; cbn [fst snd] in *.
  - destruct Hres as (_ & _ & T1).
    destruct (PipelineFacts.fork_stages_trace E args cmd_args fdl num_cmds num_cmds 0 w1)
      as (fevs & Hf & Hff).
    destruct (fork_stages E args cmd_args fdl num_cmds num_cmds 0 w1) as [w2 b].
    cbn [fst snd] in *. destruct b.
    + cbn [fst]. rewrite PipelineFacts.waits_trace. cbn [set_fds trace].
      rewrite Hf, T1, <- !app_assoc. intros Heq _. apply app_inv_head in Heq as <-.
      by rewrite !PipelineFacts.forks_app, Fp, Hff, PipelineFacts.forks_waits, app_nil_r.
    + destruct Hff as (k & pre & _ & _ & ->). cbn [fst].
      rewrite Hf, T1, <- !app_assoc. intros Heq. apply app_inv_head in Heq as <-.
      rewrite !clean_app. simpl. by rewrite !andb_false_r.
  - destruct Hres as (_ & T1). rewrite T1. intros Heq. apply app_inv_head in Heq as <-.
    rewrite clean_app. simpl. by rewrite andb_false_r.
Qed.

Lemma unwaited_app evs1 evs2 : unwaited (evs1 ++ evs2) = unwaited evs1 + unwaited evs2.
Proof.
  unfold unwaited.
  rewrite PipelineFacts.forks_app, List.filter_app, length_app, waits_app. lia.
Qed.

(** As many [wait] calls as processes created. *)
Lemma unwaited_balanced evs n :
  forks evs = replicate n true → waits evs = n → unwaited evs = 0.
Proof.
  intros Hf Hw. unfold unwaited. rewrite Hf, Hw.
  replace (List.filter (λ ok : bool, ok) (replicate n true)) with (replicate n true).
  - rewrite length_replicate. lia.
  - clear. induction n as [|n IH]; [done|]. simpl. by rewrite <- IH.
Qed.

Lemma sys_dup_keeps w fd k x :
  fds w !! k = Some x → fds (sys_dup E w fd).1 !! k = Some x.
Proof.
  intros Hk. unfold sys_dup, tbl_dup. destruct (tbl_get (fds w) fd); [|done].
  destruct (lowest_free E (fds w)) as [n|] eqn:Hn; [|done]. simpl.
  apply lowest_free_Some in Hn. rewrite lookup_insert_ne; [done|].
  intros ->. by rewrite Hn in Hk.
Qed.

End WithEnv.

End PipeRun.

(** X8.  A line with [|] in which no [pipe] and no [fork] fails, run by a
    shell whose descriptors 0 and 1 are open: every stage is launched, in
    order, with the tokens of the stage as its arguments; it reads from the
    pipe written by the stage before it and writes to the pipe read by the
    stage after it, the first stage reading what the shell reads and the
    last writing where the shell writes.  One pipe is made per [|] and one
    process is created per stage.  [wait] is called once per stage; each
    call returns any child of the shell, so what is known is the count: the
    shell has as many children not waited for after the line as it had
    before it (none, if it had none).  Afterwards every pipe descriptor is
    closed again in the shell: its table is the one the two [dup]s at the
    start of [execute_command] left. *)
Theorem pipeline_wires_stages
    (E : env) (w : world) (toks : list string) (tin tout : target) :
  fds w !! 0%nat = Some tin → fds w !! 1%nat = Some tout →
  (0 < Spec.count_pipes toks)%nat →
  let r := Executor.execute_command E w (mk_args toks) in
  let evs := Notions.since (trace w) r.1 in
  Wiring.clean evs = true →
  Wiring.execs evs = Wiring.wired tin tout (length (trace w)) (Spec.split_at_pipes toks)
  ∧ length (Wiring.made evs) = Spec.count_pipes toks
  ∧ Spec.forks evs = replicate (length (Spec.split_at_pipes toks)) true
  ∧ Wiring.waits evs = length (Spec.split_at_pipes toks)
  ∧ Wiring.unwaited (trace r.1) = Wiring.unwaited (trace w)
  ∧ fds r.1 = fds (sys_dup E (sys_dup E w 0).1 1).1
  ∧ r.2 = 1.
Proof.
  intros H0 H1 Hpos r evs. subst evs r.
  rewrite (DispatchFacts.execute_command_pipeline E w toks Hpos).
  set (w2 := (sys_dup E (sys_dup E w 0).1 1).1).
  assert (trace w2 = trace w) as Htr
    by (subst w2; by rewrite !DispatchFacts.trace_sys_dup).
  destruct (PipeRun.execute_pipeline_outcome E w2
              (Executor.split_pipeline (mk_args toks)).1
              (Executor.split_pipeline (mk_args toks)).2
              (Spec.count_pipes toks + 1)) as (ks & evs & T & _ & M & _ & Hout); [lia|].
  pose proof (PipeRun.execute_pipeline_clean_forks E w2 _ _ _ evs T) as Hforks.
  unfold Notions.since. rewrite T, Htr, drop_app_length. intros Hclean.
  rewrite Hclean in Hout. destruct Hout as (Wv & F & Hl & Hexecs).
  specialize (Hforks Hclean).
  pose proof (SplitFacts.stages_of_split toks) as Hst. unfold Executor.stages_of in Hst.
  pose proof (SplitFacts.split_at_pipes_length toks) as Hlen.
  rewrite (Hexecs tin tout).
  - rewrite PipeRun.unwaited_app, (PipeRun.unwaited_balanced evs _ Hforks Wv), Z.add_0_r.
    rewrite Hst, M, Wv, F, Hforks, Hlen. unfold Wiring.wired, Wiring.pipe_ends.
    rewrite Hlen, length_fmap, Nat.add_1_r, Htr. rewrite Nat.add_1_r in Hl.
    split; [done|]. split; [lia|]. split; [done|]. split; [done|].
    split; [done|]. split; [done|].
    apply PipelineFacts.execute_pipeline_continues.
  - subst w2. by do 2 apply PipeRun.sys_dup_keeps.
  - subst w2. by do 2 apply PipeRun.sys_dup_keeps.
  - rewrite <- (length_fmap (argv_at (Executor.split_pipeline (mk_args toks)).1)), Hst.
    lia.
Qed.

(** X8 at work: [ls | sort | wc] in a fresh shell. *)
Lemma pipeline_wires_stages_witness :
  Wiring.execs (trace (Executor.execute_command Run.granting Run.fresh
                         (mk_args ["ls"; "|"; "sort"; "|"; "wc"])).1)
  = [(Some "ls", ["ls"], Some (Tty 0), Some (PipeWr 0));
     (Some "sort", ["sort"], Some (PipeRd 0), Some (PipeWr 1));
     (Some "wc", ["wc"], Some (PipeRd 1), Some (Tty 1))].
Proof.
  apply (proj1 (pipeline_wires_stages Run.granting Run.fresh
                  ["ls"; "|"; "sort"; "|"; "wc"] (Tty 0) (Tty 1)
                  eq_refl eq_refl ltac:(vm_compute; lia) eq_refl)).
Defined.

(** X9.  When a [pipe] or a [fork] of a pipeline fails, the executor
    returns at once: no child is waited for, and every pipe made until then
    stays open in the shell.  Both of its descriptors, which were free
    before, are still bound to the pipe when the line is done. *)
Theorem failed_pipeline_leaves_pipes_open (E : env) (w : world) (toks : list string) :
  (0 < Spec.count_pipes toks)%nat →
  let before := fds (sys_dup E (sys_dup E w 0).1 1).1 in
  let r := Executor.execute_command E w (mk_args toks) in
  let evs := Notions.since (trace w) r.1 in
  Wiring.clean evs = false →
  Wiring.waits evs = 0%nat
  ∧ ∀ j rd wr, Wiring.made evs !! j = Some (rd, wr) →
      tbl_get before rd = None ∧ tbl_get before wr = None
      ∧ tbl_get (fds r.1) rd = Some (PipeRd (length (trace w) + j))
      ∧ tbl_get (fds r.1) wr = Some (PipeWr (length (trace w) + j)).
Proof.
  intros Hpos before r evs. subst before evs r.
  rewrite (DispatchFacts.execute_command_pipeline E w toks Hpos).
  set (w2 := (sys_dup E (sys_dup E w 0).1 1).1).
  assert (trace w2 = trace w) as Htr
    by (subst w2; by rewrite !DispatchFacts.trace_sys_dup).
  destruct (PipeRun.execute_pipeline_outcome E w2
              (Executor.split_pipeline (mk_args toks)).1
              (Executor.split_pipeline (mk_args toks)).2
              (Spec.count_pipes toks + 1)) as (ks & evs & T & _ & M & _ & Hout); [lia|].
  unfold Notions.since. rewrite T, Htr, drop_app_length. intros Hclean.
  rewrite Hclean, Htr in Hout. destruct Hout as (Wv & Hp).
  split; [done|]. intros j rd wr Hj. rewrite M in Hj.
  unfold Wiring.pipe_ends in Hj. apply list_lookup_fmap_Some in Hj as (p & [= -> ->] & Hj).
  rewrite !SysFacts.tbl_get_of_nat.
  destruct (PipeFacts.piped_bound _ _ _ _ _ _ Hp Hj) as [Hr Hw].
  pose proof (list_elem_of_lookup_2 _ _ _ Hj) as Hin.
  repeat split; try done.
  - eapply PipeFacts.piped_free; [exact Hp|]. by apply PipeRun.pipe_keys_elem_rd.
  - eapply PipeFacts.piped_free; [exact Hp|]. by apply PipeRun.pipe_keys_elem.
Qed.

(** X9 at work: [ls | wc] when no process can be created. *)
Lemma failed_pipeline_leaves_pipes_open_witness :
  let r := Executor.execute_command Run.no_fork Run.fresh (mk_args ["ls"; "|"; "wc"]) in
  tbl_get (fds Run.fresh) 5 = None
  ∧ tbl_get (fds r.1) 5 = Some (PipeRd 0) ∧ tbl_get (fds r.1) 6 = Some (PipeWr 0).
Proof.
  intros r.
  destruct (proj2 (failed_pipeline_leaves_pipes_open Run.no_fork Run.fresh
                     ["ls"; "|"; "wc"] ltac:(vm_compute; lia) eq_refl)
                  0%nat 5 6 eq_refl) as (_ & _ & Hr & Hw).
  split; [reflexivity|]. split; [exact Hr | exact Hw].
Defined.

(* ===================================================================== *)
(** * Redirection, as the launched program sees it                         *)
(* ===================================================================== *)

Module RedirectFacts.

Import Spec Executor Notions Wiring SysFacts RedirFacts DispatchFacts.

Lemma pick_chosen fl d outs :
  pick fl d outs = match chosen fl outs with Some o => o.2 | None => d end.
Proof.
  revert d. induction outs as [|o outs IH]; intros d; [done|]. simpl. rewrite IH.
  destruct (chosen fl outs); [done|]. by destruct (oflag_eqb fl o.1.2).
Qed.

Lemma chosen_elem fl outs o : chosen fl outs = Some o → o ∈ outs ∧ o.1.2 = fl.
Proof.
  induction outs as [|x outs IH]; [done|]. simpl.
  destruct (chosen fl outs) as [o'|].
  - intros [= ->]. destruct (IH eq_refl). split; [by right | done].
  - destruct (oflag_eqb fl x.1.2) eqn:Hfl; [|done]. intros [= ->].
    split; [by left|]. by destruct fl, (o.1.2).
Qed.

Lemma opens_app evs1 evs2 : opens (evs1 ++ evs2) = opens evs1 ++ opens evs2.
Proof. apply omap_app. Qed.

Lemma opens_open_events outs :
  opens (concat (open_events <$> outs)) = outs
  ∧ execs (concat (open_events <$> outs)) = [].
Proof.
  induction outs as [|[[path fl] fd] outs [IH1 IH2]]; [done|].
  rewrite fmap_cons. cbn [concat].
  rewrite opens_app, PipeRun.execs_app, IH1, IH2.
  unfold open_events. simpl. by destruct (fd <? 0).
Qed.

Lemma open_events_elem (o : outcome) outs :
  o ∈ outs → EvOpen o.1.1 o.1.2 o.2 ∈ concat (open_events <$> outs).
Proof.
  induction outs as [|x outs IH]; [by intros ?%elem_of_nil|].
  rewrite fmap_cons. cbn [concat]. intros [->|Hin]%elem_of_cons.
  - apply elem_of_app. left. by left.
  - apply elem_of_app. right. by apply IH.
Qed.

Section WithEnv.

Variable E : env.

(** The resolver only adds bindings, and every descriptor an [open] of it
    returned is bound, when the resolver is done, to the file opened. *)
Lemma handle_redirection_from_bindings fuel i w args in_fd out_fd :
  let w' := (handle_redirection_from E fuel i w args in_fd out_fd).1.1.1 in
  fds w ⊆ fds w'
  ∧ ∃ evs, trace w' = trace w ++ evs
      ∧ ∀ path fl n, EvOpen path fl (Z.of_nat n) ∈ evs →
          ∃ p s, path = Some p ∧ fds w' !! n = Some (File p fl s).
Proof.
  revert i w args in_fd out_fd.
  induction fuel as [|fuel IH]; intros i w args in_fd out_fd.
  { simpl. split; [done|]. exists []. rewrite app_nil_r. split; [done|].
    by intros ??? ?%elem_of_nil. }
  assert (∀ path fl (k : world → Z → world * cells * Z * Z),
    (∀ w2 fd, fds w2 ⊆ fds (k w2 fd).1.1.1
       ∧ ∃ evs, trace (k w2 fd).1.1.1 = trace w2 ++ evs
           ∧ ∀ path fl n, EvOpen path fl (Z.of_nat n) ∈ evs →
               ∃ p s, path = Some p ∧ fds (k w2 fd).1.1.1 !! n = Some (File p fl s)) →
    let w' := (let '(w1, fd) := sys_open E w path fl in
               k (if fd <? 0 then perror "shell" w1 else w1) fd).1.1.1 in
    fds w ⊆ fds w'
    ∧ ∃ evs, trace w' = trace w ++ evs
        ∧ ∀ path fl n, EvOpen path fl (Z.of_nat n) ∈ evs →
            ∃ p s, path = Some p ∧ fds w' !! n = Some (File p fl s)) as Hstep.
  { intros path fl k Hk.
    destruct (sys_open_cases E w path fl)
      as (w1 & fd & -> & Htr & _ & [[-> Hfds]|(n & p & -> & -> & Hn & _ & Hfds)]).
    - change (-1 <? 0) with true. cbv iota zeta.
      destruct (Hk (perror "shell" w1) (-1)) as (Hsub & evs & T & Hev).
      simpl in Hsub, T. rewrite Hfds in Hsub. split; [done|].
      exists (EvOpen path fl (-1) :: EvPerror "shell" :: evs).
      rewrite T, Htr, <- !app_assoc. split; [done|].
      intros path' fl' n [Heq|Hin]%elem_of_cons; [injection Heq; lia|].
      apply elem_of_cons in Hin as [Heq|Hin]; [done | by apply Hev].
    - destruct (Z.ltb_spec (Z.of_nat n) 0); [lia|]. cbv zeta.
      destruct (Hk w1 (Z.of_nat n)) as (Hsub & evs & T & Hev).
      split.
      + etrans; [|exact Hsub]. rewrite Hfds. by apply insert_subseteq.
      + exists (EvOpen (Some p) fl (Z.of_nat n) :: evs).
        rewrite T, Htr, <- !app_assoc. split; [done|].
        intros path' fl' n' [Heq|Hin]%elem_of_cons; [|by apply Hev].
        injection Heq as -> -> ->%Nat2Z.inj. exists p, (length (trace w)).
        split; [done|]. eapply lookup_weaken; [|exact Hsub].
        by rewrite Hfds, lookup_insert_eq. }
  simpl. destruct (cell args i) as [a|].
  - destruct (streq a ">").
    + apply (Hstep _ _ (λ w2 fd, handle_redirection_from E fuel (S i) w2 _ in_fd fd)).
      intros w2 fd. apply IH.
    + destruct (streq a "<"); [|apply IH].
      apply (Hstep _ _ (λ w2 fd, handle_redirection_from E fuel (S i) w2 _ fd out_fd)).
      intros w2 fd. apply IH.
  - simpl. split; [done|]. exists []. rewrite app_nil_r. split; [done|].
    by intros ??? ?%elem_of_nil.
Qed.

End WithEnv.

End RedirectFacts.

Module RedirectView.

Import Spec Executor Notions Wiring SysFacts RedirFacts DispatchFacts RedirectFacts.

Lemma forks_open_events outs : forks (concat (open_events <$> outs)) = [].
Proof.
  induction outs as [|o outs IH]; [done|]. rewrite fmap_cons. cbn [concat].
  rewrite PipelineFacts.forks_app, IH. unfold open_events. simpl.
  by destruct (o.2 <? 0).
Qed.

(** The calls in the events of a launch. *)
Lemma launch_events_calls args (t : gmap nat target) levs :
  launch_events args t levs →
  opens levs = [] ∧ made levs = []
  ∧ ((forks levs = [false] ∧ execs levs = [])
     ∨ (forks levs = [true]
        ∧ execs levs = [(cell args 0, argv_at args 0, tbl_get t 0, tbl_get t 1)])).
Proof.
  intros [->|(ok & _ & ->)]; [split; [done|]; split; [done|]; by left|].
  destruct (cell args 0), ok; (split; [done|]; split; [done|]; by right).
Qed.

(** The descriptor variable of a stream after the resolver, and the file
    it is bound to. *)
Lemma stream_choice fl d (outs : list outcome) (t2 t3 : gmap nat target) :
  Forall (opened t2 t3) outs →
  (∀ path fl n, EvOpen path fl (Z.of_nat n) ∈ concat (open_events <$> outs) →
     ∃ p s, path = Some p ∧ t3 !! n = Some (File p fl s)) →
  ∃ tg, redirected fl d outs tg
        ∧ ((pick fl (-1) outs = -1 ∧ tg = d)
           ∨ ∃ n p s, pick fl (-1) outs = Z.of_nat n ∧ t2 !! n = None
                      ∧ t3 !! n = Some tg ∧ tg = File p fl s).
Proof.
  intros Hopened Hev. rewrite pick_chosen. unfold redirected.
  destruct (chosen fl outs) as [o|] eqn:Hc; [|exists d; split; [done | by left]].
  apply chosen_elem in Hc as [Hin Hfl].
  rewrite Forall_forall in Hopened.
  destruct (Hopened o Hin) as [Hfd|(n & Hfd & Hfree & _)]; rewrite Hfd.
  - exists d. split; [done | by left].
  - destruct (Hev o.1.1 o.1.2 n) as (p & s & Hp & Hn).
    { rewrite <- Hfd. by apply open_events_elem. }
    rewrite Hfl in Hn. exists (File p fl s).
    destruct (Z.ltb_spec (Z.of_nat n) 0); [lia|]. split; [by eauto|].
    right. by exists n, p, s.
Qed.

(** Binding the resolved descriptors to the standard streams. *)
Lemma redirect_streams_view w in_fd out_fd tin tout cin cout :
  fds w !! 0%nat = Some tin → fds w !! 1%nat = Some tout →
  (in_fd = -1 ∧ cin = tin)
  ∨ (∃ n, in_fd = Z.of_nat n ∧ n ≠ 0%nat ∧ n ≠ 1%nat ∧ fds w !! n = Some cin) →
  (out_fd = -1 ∧ cout = tout)
  ∨ (∃ m, out_fd = Z.of_nat m ∧ m ≠ 0%nat ∧ m ≠ 1%nat ∧ fds w !! m = Some cout) →
  (in_fd = out_fd → in_fd = -1) →
  fds (redirect_streams w in_fd out_fd) !! 0%nat = Some cin
  ∧ fds (redirect_streams w in_fd out_fd) !! 1%nat = Some cout.
Proof.
  intros H0 H1 [[-> ->]|(n & -> & Hn0 & Hn1 & Hn)] [[-> ->]|(m & -> & Hm0 & Hm1 & Hm)] Hne.
  all: unfold redirect_streams.
  all: rewrite ?(bool_decide_eq_true_2 (Z.of_nat _ ≠ -1)) by lia.
  all: rewrite ?(bool_decide_eq_false_2 (-1 ≠ -1)) by (by intros ?).
  - done.
  - rewrite !fds_sys_close, !fds_sys_dup2, !tbl_close_other by lia. split.
    + by rewrite tbl_dup2_other.
    + by apply (tbl_dup2_hit _ m cout 1).
  - rewrite !fds_sys_close, !fds_sys_dup2, !tbl_close_other by lia. split.
    + by apply (tbl_dup2_hit _ n cin 0).
    + by rewrite tbl_dup2_other.
  - assert (n ≠ m) as Hnm by (intros ->; specialize (Hne eq_refl); lia).
    rewrite !fds_sys_close, !fds_sys_dup2, !tbl_close_other by lia. split.
    + rewrite tbl_dup2_other by done.
      rewrite fds_sys_close, fds_sys_dup2, tbl_close_other by lia.
      by apply (tbl_dup2_hit _ n cin 0).
    + apply (tbl_dup2_hit _ m cout 1).
      rewrite fds_sys_close, fds_sys_dup2, tbl_close_other by lia.
      by rewrite tbl_dup2_other.
Qed.

End RedirectView.

(** C9.  The resolver overwrites every redirection operator with NULL, so
    the array it leaves reads, from its start, as exactly the tokens before
    the first operator; and when the dispatcher runs a line as an external
    command (no [|], first token not a built-in), the only [execvp] call
    made, if the [fork] succeeds, has exactly those tokens as its argument
    vector and the first of them as its file: every token at or after the
    first [<] or [>] is left out. *)
Theorem launched_program_sees_tokens_before_first_operator
    (E : env) (w : world) (toks : list string) :
  (∀ in_fd out_fd,
      (Executor.handle_redirection E w (mk_args toks) in_fd out_fd).1.1.2
      = Spec.blank toks
      ∧ argv_at (Spec.blank toks) 0 = Spec.before_redir toks)
  ∧ (∀ name,
      head toks = Some name → Spec.count_pipes toks = 0%nat →
      name ∉ Builtins.builtin_str →
      let r := Executor.execute_command E w (mk_args toks) in
      let evs := Notions.since (trace w) r.1 in
      r.2 = 1
      ∧ ((Spec.forks evs = [false] ∧ Wiring.execs evs = [])
         ∨ (Spec.forks evs = [true]
            ∧ ∃ cin cout,
                Wiring.execs evs
                = [(head (Spec.before_redir toks), Spec.before_redir toks, cin, cout)]))).
Proof.
  split.
  - intros in_fd out_fd.
    destruct (RedirFacts.handle_redirection_spec E toks w in_fd out_fd)
      as (w' & in' & out' & outs & -> & _).
    split; [done|]. by rewrite argv_at_0, RedirFacts.argv_of_blank.
  - intros name Hhead Hcount Hname r evs. subst evs r.
    rewrite (DispatchFacts.execute_command_external E w toks name) by done.
    pose proof (DispatchFacts.trace_sys_dup E w 0) as Ht1.
    destruct (sys_dup E w 0) as [w1 saved_stdin].
    pose proof (DispatchFacts.trace_sys_dup E w1 1) as Ht2.
    destruct (sys_dup E w1 1) as [w2 saved_stdout]. simpl in Ht1, Ht2.
    destruct (RedirFacts.handle_redirection_spec E toks w2 (-1) (-1))
      as (w3 & in' & out' & outs & -> & _ & Ht3 & _).
    destruct (DispatchFacts.launch_process_spec E
                (Spec.redirect_streams w3 in' out') (Spec.blank toks))
      as (w4 & levs & -> & Ht4 & _ & _ & Hlevs).
    cbn [fst snd]. split; [done|]. unfold Notions.since.
    rewrite DispatchFacts.trace_restore_streams, Ht4,
      DispatchFacts.trace_redirect_streams, Ht3, Ht2, Ht1.
    rewrite <- app_assoc, drop_app_length.
    rewrite PipeRun.execs_app, PipelineFacts.forks_app.
    rewrite (proj2 (RedirectFacts.opens_open_events outs)).
    rewrite RedirectView.forks_open_events.
    destruct (RedirectView.launch_events_calls _ _ _ Hlevs) as (_ & _ & [[-> ->]|[-> ->]]);
      [by left | right].
    rewrite PipeRun.cell_head_argv, argv_at_0, RedirFacts.argv_of_blank.
    split; [done|]. by eexists _, _.
Qed.

(** C9 at work: [sort < in.txt -r] is launched as plain [sort]. *)
Lemma launched_program_sees_tokens_before_first_operator_witness :
  let evs := trace (Executor.execute_command Run.granting Run.fresh
                      (mk_args ["sort"; "<"; "in.txt"; "-r"])).1 in
  ∃ cin cout, Wiring.execs evs = [(Some "sort", ["sort"], cin, cout)].
Proof.
  intros evs.
  destruct (proj2 (launched_program_sees_tokens_before_first_operator
                     Run.granting Run.fresh ["sort"; "<"; "in.txt"; "-r"]) "sort"
                  eq_refl eq_refl ltac:(not_in_list))
    as (_ & [[H _]|[_ (cin & cout & H)]]); [discriminate H|].
  by exists cin, cout.
Defined.

(** A line that starts with an operator leaves no token before it: the
    child calls [execvp] on a NULL file with an empty argument vector, and
    is killed inside the call, so it reports nothing. *)
Example line_starting_with_operator_launches_nothing :
  trace (Executor.execute_command Run.granting Run.fresh (mk_args [">"; "out"])).1
  = [EvOpen (Some "out") O_WRONLY_CREAT_TRUNC 5; EvFork true;
     EvExec None [] (Some (Tty 0)) (Some (File "out" O_WRONLY_CREAT_TRUNC 0)) false;
     EvWait].
Proof. by vm_compute. Qed.

(** X10.  An external command without [|], run by a shell whose
    descriptors 0 and 1 are open.  The files opened are those the operators
    of the line ask for, in order.  If the [fork] succeeds, the one program
    launched is the first token before the first operator, with the tokens
    before the first operator as its arguments; its standard input is the
    file of the last [<] of the line when that [open] succeeded, and
    otherwise what the shell reads, also when an earlier [<] had succeeded;
    likewise its standard output with the last [>]. *)
Theorem redirection_reaches_the_program
    (E : env) (w : world) (toks : list string) (name : string) (tin tout : target) :
  head toks = Some name → name ∉ Builtins.builtin_str →
  Spec.count_pipes toks = 0%nat →
  fds w !! 0%nat = Some tin → fds w !! 1%nat = Some tout →
  let r := Executor.execute_command E w (mk_args toks) in
  let evs := Notions.since (trace w) r.1 in
  (Notions.opens evs).*1 = Spec.redir_requests toks
  ∧ ((Spec.forks evs = [false] ∧ Wiring.execs evs = [])
     ∨ (Spec.forks evs = [true]
        ∧ ∃ cin cout,
            Wiring.execs evs
            = [(head (Spec.before_redir toks), Spec.before_redir toks, Some cin, Some cout)]
            ∧ Notions.redirected O_RDONLY tin (Notions.opens evs) cin
            ∧ Notions.redirected O_WRONLY_CREAT_TRUNC tout (Notions.opens evs) cout)).
Proof.
  intros Hhead Hname Hcount H0 H1 r evs. subst evs r.
  rewrite (DispatchFacts.execute_command_external E w toks name) by done.
  pose proof (DispatchFacts.trace_sys_dup E w 0) as Htr1.
  pose proof (PipeRun.sys_dup_keeps E w 0 _ _ H0) as H01.
  pose proof (PipeRun.sys_dup_keeps E w 0 _ _ H1) as H11.
  destruct (sys_dup E w 0) as [w1 saved_stdin]. cbn [fst] in *.
  pose proof (DispatchFacts.trace_sys_dup E w1 1) as Htr2.
  pose proof (PipeRun.sys_dup_keeps E w1 1 _ _ H01) as H02.
  pose proof (PipeRun.sys_dup_keeps E w1 1 _ _ H11) as H12.
  destruct (sys_dup E w1 1) as [w2 saved_stdout]. cbn [fst] in *.
  destruct (RedirFacts.handle_redirection_spec E toks w2 (-1) (-1))
    as (w3 & in' & out' & outs & Hrun & Hreq & Htr3 & _ & Hsub & Hin & Hout & Hopened).
  pose proof (RedirectFacts.handle_redirection_from_bindings E
                (length (mk_args toks)) 0 w2 (mk_args toks) (-1) (-1)) as Hb.
  fold (Executor.handle_redirection E w2 (mk_args toks) (-1) (-1)) in Hb.
  rewrite Hrun in *. cbn [fst] in Hb. destruct Hb as (_ & revs & T & Hev).
  rewrite Htr3 in T. apply app_inv_head in T as <-.
  destruct (DispatchFacts.launch_process_spec E
              (Spec.redirect_streams w3 in' out') (Spec.blank toks))
    as (w4 & levs & -> & Htr4 & _ & _ & Hlaunch).
  cbn [fst]. unfold Notions.since.
  rewrite DispatchFacts.trace_restore_streams, Htr4, DispatchFacts.trace_redirect_streams.
  rewrite Htr3, Htr2, Htr1, <- app_assoc, drop_app_length.
  destruct (RedirectFacts.opens_open_events outs) as [Ho Hx].
  rewrite RedirectFacts.opens_app, PipeRun.execs_app, PipelineFacts.forks_app.
  rewrite Ho, Hx, RedirectView.forks_open_events.
  (* what the two descriptor variables are bound to *)
  destruct (RedirectView.stream_choice O_RDONLY tin outs (fds w2) (fds w3) Hopened Hev)
    as (cin & Rin & Cin).
  destruct (RedirectView.stream_choice O_WRONLY_CREAT_TRUNC tout outs (fds w2) (fds w3)
              Hopened Hev) as (cout & Rout & Cout).
  rewrite <- Hin in Cin. rewrite <- Hout in Cout.
  assert (fds (Spec.redirect_streams w3 in' out') !! 0%nat = Some cin
          ∧ fds (Spec.redirect_streams w3 in' out') !! 1%nat = Some cout) as [Vin Vout].
  { apply (RedirectView.redirect_streams_view w3 in' out' tin tout).
    - by eapply lookup_weaken.
    - by eapply lookup_weaken.
    - destruct Cin as [[? ?]|(n & p & s & Hn & Hfree & Hb & _)]; [by left|].
      right. exists n. repeat split; try done; intros ->; congruence.
    - destruct Cout as [[? ?]|(n & p & s & Hn & Hfree & Hb & _)]; [by left|].
      right. exists n. repeat split; try done; intros ->; congruence.
    - intros Heq.
      destruct Cin as [[? ?]|(n & p & s & Hn & _ & Hbn & ->)]; [done|].
      destruct Cout as [[? ?]|(m & p' & s' & Hm & _ & Hbm & ->)]; [lia|].
      assert (n = m) as -> by lia. congruence. }
  (* the launch *)
  assert (Notions.opens levs = []
          ∧ ((Spec.forks levs = [false] ∧ Wiring.execs levs = [])
             ∨ (Spec.forks levs = [true]
                ∧ Wiring.execs levs
                  = [(head (Spec.before_redir toks), Spec.before_redir toks,
                      Some cin, Some cout)]))) as [Hol Hl].
  { destruct (RedirectView.launch_events_calls _ _ _ Hlaunch)
      as (-> & _ & [[-> ->]|[-> ->]]); (split; [done|]); [by left | right].
    rewrite PipeRun.cell_head_argv, argv_at_0, RedirFacts.argv_of_blank.
    unfold tbl_get. change (0 <? 0) with false. change (1 <? 0) with false.
    cbv iota. change (Z.to_nat 0) with 0%nat. change (Z.to_nat 1) with 1%nat.
    by rewrite Vin, Vout. }
  rewrite Hol, app_nil_r. split; [done|].
  destruct Hl as [[-> ->]|[-> ->]]; [by left|].
  right. split; [done|]. by exists cin, cout.
Qed.

(** X10 at work: with [b] missing, [sort < a < b > out] sorts what the
    shell reads, not [a], into [out]. *)
Lemma redirection_reaches_the_program_witness :
  let E := Env 1024 (λ _ p _, negb (String.eqb p "b")) (λ _, true) (λ _, true)
               (λ _ _ _, true) (λ _ _, true) (λ _ _ _, true) (λ _ _, true) (λ _ _, []) in
  let evs := trace (Executor.execute_command E Run.fresh
                      (mk_args ["sort"; "<"; "a"; "<"; "b"; ">"; "out"])).1 in
  Notions.opens evs
  = [(Some "a", O_RDONLY, 5); (Some "b", O_RDONLY, -1);
     (Some "out", O_WRONLY_CREAT_TRUNC, 6)]
  ∧ ∃ s, Wiring.execs evs
         = [(Some "sort", ["sort"], Some (Tty 0),
             Some (File "out" O_WRONLY_CREAT_TRUNC s))].
Proof.
  intros E evs.
  pose proof (redirection_reaches_the_program E Run.fresh
                ["sort"; "<"; "a"; "<"; "b"; ">"; "out"] "sort" (Tty 0) (Tty 1)
                eq_refl ltac:(not_in_list) eq_refl eq_refl eq_refl) as [_ H].
  split; [reflexivity|].
  destruct H as [[H _]|[_ (cin & cout & H & Hin & Hout)]]; [discriminate H|].
  vm_compute in Hin. vm_compute in Hout. destruct Hout as (p & s & [= <-] & ->).
  subst cin. exists s. exact H.
Defined.

(* ===================================================================== *)
(** * What a line leaves behind                                            *)
(* ===================================================================== *)

Module EffectFacts.

Import Spec Builtins Executor Notions Wiring Effects SysFacts DispatchFacts.

Lemma plain_events evs :
  forallb plain_event evs = true →
  forks evs = [] ∧ execs evs = [] ∧ opens evs = [].
Proof.
  induction evs as [|e evs IH]; [done|]. simpl.
  intros [He Hevs]%andb_prop. destruct (IH Hevs) as (F & X & O).
  unfold forks, execs, opens in *. simpl. rewrite F, X, O. by destruct e.
Qed.

Lemma alone_plain files w w' evs :
  fds w' = fds w → history w' = history w → trace w' = trace w ++ evs →
  forallb plain_event evs = true → alone files w w'.
Proof.
  intros F Hh T Hp. destruct (plain_events evs Hp) as (? & ? & ?).
  split; [done|]. split; [done|]. exists evs. by repeat split.
Qed.

Lemma alone_refl files w : alone files w w.
Proof. apply (alone_plain files w w []); by rewrite ?app_nil_r. Qed.

Lemma alone_trans files w1 w2 w3 : alone files w1 w2 → alone files w2 w3 → alone files w1 w3.
Proof.
  intros (F1 & H1 & e1 & T1 & K1 & X1 & O1) (F2 & H2 & e2 & T2 & K2 & X2 & O2).
  split; [congruence|]. split; [congruence|]. exists (e1 ++ e2).
  rewrite T2, T1, <- app_assoc, PipelineFacts.forks_app, PipeRun.execs_app, K1, K2, X1, X2.
  repeat split; try done. intros Hf.
  by rewrite RedirectFacts.opens_app, O1, O2.
Qed.

Lemma alone_weaken w w' : alone false w w' → alone true w w'.
Proof.
  intros (F & Hh & evs & T & K & X & _). split; [done|]. split; [done|].
  exists evs. by repeat split.
Qed.

Lemma alone_emit files e w : plain_event e = true → alone files w (emit e w).
Proof. intros He. apply (alone_plain files _ _ [e]); try done. simpl. by rewrite He. Qed.

Lemma print_names_alone names w : alone false w (print_names names w).
Proof.
  revert w. induction names as [|n names IH]; intros w; [apply alone_refl|].
  simpl. eapply alone_trans; [|apply IH]. by apply alone_emit.
Qed.

Lemma print_history_from_alone i h w : alone false w (History.print_history_from i h w).
Proof.
  revert i w. induction h as [|l h IH]; intros i w; [apply alone_refl|].
  simpl. eapply alone_trans; [|apply IH]. by apply alone_emit.
Qed.

Lemma shell_cd_alone E w args : alone false w (shell_cd E w args).1.
Proof.
  unfold shell_cd. destruct (cell args 1) as [dir|]; [|by apply alone_emit].
  destruct (chdir_ok E (trace w) dir); simpl.
  - by apply alone_emit.
  - eapply alone_trans; by apply alone_emit.
Qed.

Lemma shell_mv_alone E w args : alone false w (shell_mv E w args).1.
Proof.
  unfold shell_mv. destruct (cell args 1) as [old|]; [|by apply alone_emit].
  destruct (cell args 2) as [new|]; [|by apply alone_emit].
  destruct (rename_ok E (trace w) old new); simpl.
  - by apply alone_emit.
  - eapply alone_trans; by apply alone_emit.
Qed.

Lemma shell_rm_alone E w args : alone false w (shell_rm E w args).1.
Proof.
  unfold shell_rm. destruct (cell args 1) as [file|]; [|by apply alone_emit].
  destruct (remove_ok E (trace w) file); simpl.
  - by apply alone_emit.
  - eapply alone_trans; by apply alone_emit.
Qed.

Lemma shell_help_alone E w args : alone false w (shell_help E w args).1.
Proof.
  unfold shell_help. cbn [fst].
  eapply alone_trans; [|by apply alone_emit].
  eapply alone_trans; [|apply print_names_alone].
  repeat (eapply alone_trans; [|by apply alone_emit]). apply alone_refl.
Qed.

Lemma shell_about_alone E w args : alone false w (shell_about E w args).1.
Proof.
  unfold shell_about. cbn [fst].
  repeat (eapply alone_trans; [|by apply alone_emit]). apply alone_refl.
Qed.

Lemma shell_count_alone E w args : alone true w (shell_count E w args).1.
Proof.
  destruct (cell args 1) as [file|] eqn:Harg.
  - destruct (FileBuiltinSpecs.shell_count_spec E w args file Harg)
      as (_ & F & Hh & T & _).
    split; [done|]. split; [done|]. eexists. split; [exact T|].
    destruct (_ <? 0); by repeat split.
  - unfold shell_count. rewrite Harg. by apply alone_emit.
Qed.

Lemma shell_cp_alone E w args : alone true w (shell_cp E w args).1.
Proof.
  destruct (cell args 1) as [from|] eqn:Hfrom;
    [destruct (cell args 2) as [to|] eqn:Hto|].
  - destruct (FileBuiltinSpecs.shell_cp_spec E w args from to Hfrom Hto)
      as (_ & F & Hh & T).
    split; [done|]. split; [done|].
    assert (∀ dst chunks, forks (writes_to dst chunks) = []
                          ∧ execs (writes_to dst chunks) = []) as Hw.
    { intros dst chunks. unfold writes_to.
      induction chunks as [|c chunks [IH1 IH2]]; [done|]. by rewrite fmap_cons. }
    destruct T as [T|[(src & _ & T)|(src & dst & chunks & _ & _ & _ & T & _)]].
    + eexists. split; [exact T|]. by repeat split.
    + eexists. split; [exact T|]. by repeat split.
    + eexists. split; [exact T|]. destruct (Hw dst chunks) as [W1 W2].
      rewrite PipelineFacts.forks_app, PipeRun.execs_app, W1, W2. by repeat split.
  - unfold shell_cp. rewrite Hfrom, Hto. by apply alone_emit.
  - unfold shell_cp. rewrite Hfrom. by apply alone_emit.
Qed.

(** Every registered handler acts alone, and only those of [count] and
    [cp] open files. *)
Lemma handler_alone E w args name f :
  find_builtin name builtin_str builtin_func = Some f →
  alone (bool_decide (name = "count" ∨ name = "cp")) w (f E w args).1.
Proof.
  unfold builtin_str, builtin_func, find_builtin, streq.
  repeat match goal with
         | |- context [String.eqb name ?s] =>
             destruct (String.eqb_spec name s) as [->|?];
             [intros [= <-];
              first [ apply shell_cd_alone | apply shell_mv_alone | apply shell_rm_alone
                    | apply shell_help_alone | apply shell_about_alone
                    | apply shell_count_alone | apply shell_cp_alone
                    | apply alone_refl | by apply alone_emit
                    | apply print_history_from_alone ] |]
         end.
  done.
Qed.

End EffectFacts.

Module LineFacts.

Import Spec Builtins Executor Notions Wiring Effects SysFacts DispatchFacts EffectFacts.

Lemma history_sys_dup E w fd : history (sys_dup E w fd).1 = history w.
Proof. unfold sys_dup. by destruct (tbl_dup E (fds w) fd). Qed.

Lemma history_sys_dup2 w a b : history (sys_dup2 w a b).1 = history w.
Proof. unfold sys_dup2. by destruct (tbl_dup2 (fds w) a b). Qed.

Lemma history_sys_close w fd : history (sys_close w fd).1 = history w.
Proof. unfold sys_close. by destruct (tbl_close (fds w) fd). Qed.

Lemma history_redirect_streams w i o : history (redirect_streams w i o) = history w.
Proof.
  unfold redirect_streams.
  destruct (bool_decide (o ≠ -1)), (bool_decide (i ≠ -1));
    by rewrite ?history_sys_close, ?history_sys_dup2, ?history_sys_close, ?history_sys_dup2.
Qed.

Lemma history_restore_streams w i o : history (restore_streams w i o) = history w.
Proof.
  unfold restore_streams.
  by rewrite !history_sys_close, !history_sys_dup2.
Qed.

(** A built-in line: the handler, on the state the two [dup]s left. *)
Lemma execute_command_builtin_alone E w toks name :
  head toks = Some name → name ∈ builtin_str → count_pipes toks = 0%nat →
  alone (bool_decide (name = "count" ∨ name = "cp"))
    (sys_dup E (sys_dup E w 0).1 1).1 (execute_command E w (mk_args toks)).1.
Proof.
  intros Hhead Hname Hcount.
  destruct (find_builtin name builtin_str builtin_func) as [f|] eqn:Hf.
  - rewrite (BuiltinFacts.execute_command_builtin E w toks name f) by done.
    by apply handler_alone.
  - exfalso. revert Hf. unfold builtin_str, builtin_func, find_builtin, streq.
    unfold builtin_str in Hname.
    repeat match goal with
           | |- context [String.eqb name ?s] =>
               destruct (String.eqb_spec name s) as [->|?]; [done|]
           end.
    repeat match goal with
           | H : name ∈ _ :: _ |- _ => apply elem_of_cons in H as [->|H]; [done|]
           end.
    by apply elem_of_nil in Hname.
Qed.

(** No line changes the history: only [shell_loop] and [load_history]
    record. *)
Lemma execute_command_history E w toks :
  history (execute_command E w (mk_args toks)).1 = history w.
Proof.
  assert (history (sys_dup E (sys_dup E w 0).1 1).1 = history w) as Hdups
    by (by rewrite !history_sys_dup).
  destruct toks as [|name toks].
  { unfold execute_command.
    destruct (sys_dup E w 0) as [w1 ?]. cbn [fst] in Hdups.
    destruct (sys_dup E w1 1) as [w2 ?]. cbn [fst] in Hdups. done. }
  destruct (count_pipes (name :: toks)) as [|k] eqn:Hcount.
  - destruct (find_builtin name builtin_str builtin_func) as [f|] eqn:Hf.
    + rewrite (BuiltinFacts.execute_command_builtin E w _ name f) by done.
      destruct (handler_alone E (sys_dup E (sys_dup E w 0).1 1).1
                  (mk_args (name :: toks)) name f Hf) as (_ & -> & _).
      done.
    + rewrite (execute_command_unregistered E w _ name) by done.
      destruct (sys_dup E w 0) as [w1 ?]. cbn [fst] in Hdups.
      destruct (sys_dup E w1 1) as [w2 ?]. cbn [fst] in Hdups.
      destruct (RedirFacts.handle_redirection_spec E (name :: toks) w2 (-1) (-1))
        as (w3 & in' & out' & outs & -> & _ & _ & Hh3 & _).
      destruct (launch_process_spec E (redirect_streams w3 in' out') (blank (name :: toks)))
        as (w4 & levs & -> & _ & _ & Hh4 & _).
      cbn [fst].
      by rewrite history_restore_streams, Hh4, history_redirect_streams, Hh3.
  - rewrite execute_command_pipeline by lia. rewrite Hcount.
    destruct (PipeRun.execute_pipeline_outcome E (sys_dup E (sys_dup E w 0).1 1).1
                (split_pipeline (mk_args (name :: toks))).1
                (split_pipeline (mk_args (name :: toks))).2 (S k + 1))
      as (ks & evs & _ & -> & _); [lia | done].
Qed.

End LineFacts.

(** X11.  A line without [|] whose first token names a built-in is run by
    the shell itself: no process is created and nothing is launched, and
    afterwards the descriptor table is the one the two [dup]s at the start
    of [execute_command] left.  The operators [<] and [>] are not interpreted on such a line: unless the
    built-in is [count] or [cp], which open the files named by their
    arguments, no file is opened at all. *)
Theorem builtin_line_runs_in_the_shell
    (E : env) (w : world) (toks : list string) (name : string) :
  head toks = Some name → name ∈ Builtins.builtin_str →
  Spec.count_pipes toks = 0%nat →
  let r := Executor.execute_command E w (mk_args toks) in
  let evs := Notions.since (trace w) r.1 in
  Spec.forks evs = [] ∧ Wiring.execs evs = []
  ∧ (name ≠ "count" → name ≠ "cp" → Notions.opens evs = [])
  ∧ fds r.1 = fds (sys_dup E (sys_dup E w 0).1 1).1
  ∧ history r.1 = history w.
Proof.
  intros Hhead Hname Hcount r evs. subst evs r.
  destruct (LineFacts.execute_command_builtin_alone E w toks name Hhead Hname Hcount)
    as (F & Hh & evs & T & K & X & O).
  unfold Notions.since. rewrite T, !DispatchFacts.trace_sys_dup, drop_app_length.
  rewrite F, Hh, !LineFacts.history_sys_dup.
  split; [done|]. split; [done|]. split.
  { intros H1 H2. apply O. apply bool_decide_eq_false_2. by intros [?|?]. }
  done.
Qed.

(** X11 at work: [help > out.txt] creates no file. *)
Lemma builtin_line_runs_in_the_shell_witness :
  let evs := trace (Executor.execute_command Run.granting Run.fresh
                      (mk_args ["help"; ">"; "out.txt"])).1 in
  Spec.forks evs = [] ∧ Wiring.execs evs = [] ∧ Notions.opens evs = [].
Proof.
  intros evs.
  destruct (builtin_line_runs_in_the_shell Run.granting Run.fresh
              ["help"; ">"; "out.txt"] "help" eq_refl
              ltac:(repeat constructor) eq_refl) as (F & X & O & _).
  split; [exact F|]. split; [exact X|]. apply O; discriminate.
Defined.

(* ===================================================================== *)
(** * The session                                                          *)
(* ===================================================================== *)

Module SessionFacts.

Import History HistoryFile Session Notions Effects SysFacts HistoryFacts.

Lemma add_history_bound line w :
  (length (history w) ≤ HISTORY_SIZE)%nat →
  (length (history (add_history line w)) ≤ HISTORY_SIZE)%nat.
Proof. intros Hl. rewrite add_history_keep_last by done. apply length_keep_last. Qed.

Lemma load_loop_bound fuel bytes w :
  (length (history w) ≤ HISTORY_SIZE)%nat →
  (length (history (load_loop fuel bytes w)) ≤ HISTORY_SIZE)%nat.
Proof.
  revert bytes w. induction fuel as [|fuel IH]; intros bytes w Hl; [done|].
  destruct bytes as [|c bs]; [done|]. rewrite HistoryFileFacts.load_loop_cons.
  destruct (getline (c :: bs)) as [line rest]. apply IH. by apply add_history_bound.
Qed.

Lemma load_history_bound E H w :
  (length (history w) ≤ HISTORY_SIZE)%nat →
  (length (history (load_history E H w)) ≤ HISTORY_SIZE)%nat.
Proof.
  intros Hl. unfold load_history. destruct (history_path H) as [path|]; [|done].
  destruct (sys_open_cases E w (Some path) O_RDONLY) as (w1 & fd & -> & _ & Hh & _).
  destruct (fd <? 0); [by rewrite Hh|].
  rewrite LineFacts.history_sys_close. apply load_loop_bound. by rewrite Hh.
Qed.

Lemma recorded_cons line lines :
  recorded (line :: lines) = recorded [line] ++ recorded lines.
Proof.
  unfold recorded. rewrite !filter_cons, filter_nil.
  destruct (decide (c_str line ≠ EmptyString)); by rewrite ?fmap_cons.
Qed.

(** One round: the line is recorded unless it is empty, and the loop goes
    on unless the line exits. *)
Lemma shell_round_effect E w line :
  (length (history w) ≤ HISTORY_SIZE)%nat →
  history (Main.shell_round E w line).1
  = keep_last HISTORY_SIZE (history w ++ recorded [line])
  ∧ (Main.shell_round E w line).2 = (if exits line then 0 else 1).
Proof.
  intros Hl. unfold Main.shell_round.
  rewrite ParserFacts.parse_input_runs, LineFacts.execute_command_history.
  split; [|apply execute_command_status].
  unfold recorded. rewrite filter_cons, filter_nil.
  destruct (decide (c_str line ≠ EmptyString)) as [Hne|He].
  - rewrite bool_decide_eq_true_2 by done. by apply add_history_keep_last.
  - rewrite bool_decide_eq_false_2 by done. simpl.
    by rewrite app_nil_r, keep_last_all.
Qed.

(** The loop: it reads until the first line that exits, or until the
    input ends. *)
Lemma shell_loop_spec E H lines fin w :
  (length (history w) ≤ HISTORY_SIZE)%nat →
  history (shell_loop E H lines fin w).1
  = keep_last HISTORY_SIZE (history w ++ recorded (until_exit lines))
  ∧ (shell_loop E H lines fin w).2
    = (if existsb exits lines then Returned else Exited (exit_code fin))
  ∧ (existsb exits lines = true →
     ∀ fin', shell_loop E H (until_exit lines) fin' w = shell_loop E H lines fin w)
  ∧ (existsb exits lines = false →
     ∃ pre fmt args,
       trace (shell_loop E H lines fin w).1
       = pre ++ EvPrintf fmt args
              :: match fin with AtEof => [] | ReadError => [EvPerror "readline"] end).
Proof.
  revert w. induction lines as [|line lines IH]; intros w Hl.
  { simpl. split; [|split; [|split; [done|]]].
    - rewrite app_nil_r, keep_last_all by done. by destruct fin.
    - by destruct fin.
    - intros _. exists (trace w). do 2 eexists. destruct fin; simpl; [done|].
      by rewrite <- app_assoc. }
  cbn [shell_loop until_exit existsb].
  destruct (shell_round_effect E (type_prompt H w) line Hl) as [Hh Hst].
  destruct (Main.shell_round E (type_prompt H w) line) as [w1 status] eqn:Hr.
  cbn [fst snd] in *.
  destruct (exits line) eqn:Hex; subst status; cbn [orb].
  - change (0 =? 0) with true. cbv iota.
    split; [done|]. split; [done|]. split; [|done]. intros _ fin'.
    cbn [shell_loop]. by rewrite Hr.
  - change (1 =? 0) with false. cbv iota.
    assert (length (history w1) ≤ HISTORY_SIZE)%nat as Hl1
      by (rewrite Hh; apply length_keep_last).
    destruct (IH w1 Hl1) as (IHh & IHe & IHu & IHt).
    rewrite IHh, IHe, Hh, keep_last_app_keep_last, <- app_assoc.
    rewrite <- recorded_cons. split; [done|]. split; [done|]. split; [|done].
    intros Hsome fin'. cbn [shell_loop]. rewrite Hr.
    change (1 =? 0) with false. cbv iota. by apply IHu.
Qed.

End SessionFacts.

(** X12.  A session, from [main]: the loop reads lines until the first one
    whose first token is [exit] (and that has no [|]); the lines after it
    are never read.  Every line read that is not empty, the [exit] line
    included, is recorded, so the history at the end holds the last
    [HISTORY_SIZE] of the loaded entries followed by those lines.  The
    history file is written only when the loop was left through [exit]:
    when the input ends first, the process exits from within [read_line],
    with status 0 at end of file and 1 on a read error, right after the last
    prompt (and the report of the error), and [save_history] is not
    reached. *)
Theorem session_saves_history_only_on_exit
    (E : env) (H : HistoryFile.host) (lines : list string) (fin : Session.input_end)
    (w : world) :
  (length (history w) ≤ History.HISTORY_SIZE)%nat →
  let w0 := HistoryFile.load_history E H w in
  let loop := Session.shell_loop E H lines fin w0 in
  let r := Session.main E H lines fin w in
  history r.1
  = Notions.keep_last History.HISTORY_SIZE
      (history w0 ++ Effects.recorded (Effects.until_exit lines))
  ∧ if existsb Effects.exits lines
    then r = (HistoryFile.save_history E H loop.1, Session.EXIT_SUCCESS)
         ∧ ∀ fin', Session.shell_loop E H (Effects.until_exit lines) fin' w0 = loop
    else r = (loop.1, Effects.exit_code fin)
         ∧ ∃ pre fmt args,
             trace r.1
             = pre ++ EvPrintf fmt args
                    :: match fin with
                       | Session.AtEof => []
                       | Session.ReadError => [EvPerror "readline"]
                       end.
Proof.
  intros Hl w0 loop r. subst r loop. unfold Session.main. fold w0.
  assert (length (history w0) ≤ History.HISTORY_SIZE)%nat as Hl0
    by (by apply SessionFacts.load_history_bound).
  destruct (SessionFacts.shell_loop_spec E H lines fin w0 Hl0) as (Hh & He & Hu & Ht).
  destruct (Session.shell_loop E H lines fin w0) as [w1 e]. cbn [fst snd] in *.
  subst e. destruct (existsb Effects.exits lines); cbn [fst].
  - rewrite (proj2 (HistoryFileEdges.save_history_frame E H w1)).
    split; [done|]. split; [done|]. by apply Hu.
  - split; [done|]. split; [done|]. by apply Ht.
Qed.

(** X12 at work: of the lines [ls], [exit], [pwd] the first two are read
    and recorded, and the history is saved. *)
Lemma session_saves_history_only_on_exit_witness :
  let lines := ["ls" +:+ NL; "exit" +:+ NL; "pwd" +:+ NL] in
  let r := Session.main Run.granting Run2.at_home lines Session.AtEof Run.fresh in
  history r.1 = ["ls" +:+ NL; "exit" +:+ NL]
  ∧ Notions.bytes_written (trace r.1)
    = String.list_ascii_of_string ("ls" +:+ NL +:+ NL +:+ "exit" +:+ NL +:+ NL).
Proof.
  intros lines r. split; [|by vm_compute].
  apply (proj1 (session_saves_history_only_on_exit Run.granting Run2.at_home lines
                  Session.AtEof Run.fresh ltac:(vm_compute; lia))).
Defined.

(* ===================================================================== *)
(** * The descriptors a command leaves open                                *)
(* ===================================================================== *)

Module BalanceFacts.

Import Spec Executor Notions SysFacts RedirFacts DispatchFacts.

Lemma tbl_close_hit (t : gmap nat target) k : (tbl_close t (Z.of_nat k)).1 !! k = None.
Proof. by rewrite PipeFacts.tbl_close_delete, lookup_delete_eq. Qed.

Lemma close_at (w : world) fd k :
  fds (sys_close w fd).1 !! k = if Z.of_nat k =? fd then None else fds w !! k.
Proof.
  rewrite fds_sys_close. destruct (Z.eqb_spec (Z.of_nat k) fd) as [<-|Hne].
  - apply tbl_close_hit.
  - by apply tbl_close_other.
Qed.

Lemma dup2_at (w : world) a b k :
  k ≠ Z.to_nat b → fds (sys_dup2 w a b).1 !! k = fds w !! k.
Proof. intros Hk. rewrite fds_sys_dup2. by apply tbl_dup2_other. Qed.

(** Putting the saved descriptors back, seen from a descriptor other than
    0 and 1. *)
Lemma restore_streams_at w s0 s1 k :
  k ≠ 0%nat → k ≠ 1%nat →
  fds (restore_streams w s0 s1) !! k
  = if (Z.of_nat k =? s0) || (Z.of_nat k =? s1) then None else fds w !! k.
Proof.
  intros H0 H1. unfold restore_streams.
  rewrite !close_at, !dup2_at by (simpl; lia).
  by destruct (Z.of_nat k =? s0), (Z.of_nat k =? s1).
Qed.

Lemma redirect_streams_at w in_fd out_fd k :
  k ≠ 0%nat → k ≠ 1%nat →
  fds (redirect_streams w in_fd out_fd) !! k
  = if (Z.of_nat k =? in_fd) || (Z.of_nat k =? out_fd) then None else fds w !! k.
Proof.
  intros H0 H1. unfold redirect_streams.
  destruct (decide (in_fd = -1)) as [->|Hi], (decide (out_fd = -1)) as [->|Ho].
  all: repeat match goal with
              | |- context [bool_decide (?x ≠ -1)] =>
                  first [ rewrite (bool_decide_eq_false_2 (x ≠ -1)) by (by intros ?)
                        | rewrite (bool_decide_eq_true_2 (x ≠ -1)) by done ]
              end.
  all: rewrite ?close_at, ?dup2_at, ?close_at, ?dup2_at by (simpl; lia).
  all: rewrite ?(proj2 (Z.eqb_neq _ (-1))) by lia.
  all: repeat match goal with
              | |- context [Z.of_nat ?n =? ?x] => destruct (Z.of_nat n =? x)
              end.
  all: done.
Qed.

(** [dup] binds the descriptor it returns, which was free, and no other. *)
Lemma sys_dup_at E w fd k :
  (Z.of_nat k = (sys_dup E w fd).2 →
   fds w !! k = None ∧ is_Some (fds (sys_dup E w fd).1 !! k))
  ∧ (Z.of_nat k ≠ (sys_dup E w fd).2 → fds (sys_dup E w fd).1 !! k = fds w !! k).
Proof.
  unfold sys_dup, tbl_dup. destruct (tbl_get (fds w) fd); [|simpl; split; [lia | done]].
  destruct (lowest_free E (fds w)) as [n|] eqn:Hn; [|simpl; split; [lia | done]].
  simpl. apply lowest_free_Some in Hn. split.
  - intros ->%Nat2Z.inj. by rewrite lookup_insert_eq.
  - intros Hne. rewrite lookup_insert_ne; [done|]. intros ->. done.
Qed.

Lemma sys_dup_free E w fd k :
  fds (sys_dup E w fd).1 !! k = None → fds w !! k = None.
Proof.
  intros Hk. destruct (fds w !! k) as [x|] eqn:Hx; [|done].
  by rewrite (PipeRun.sys_dup_keeps E w fd k x Hx) in Hk.
Qed.

Section WithEnv.

Variable E : env.

(** The resolver changes only the descriptors its [open]s return. *)
Lemma handle_redirection_from_others fuel i w args in_fd out_fd :
  let w' := (handle_redirection_from E fuel i w args in_fd out_fd).1.1.1 in
  ∃ evs, trace w' = trace w ++ evs
    ∧ ∀ n, (∀ path fl, EvOpen path fl (Z.of_nat n) ∉ evs) → fds w' !! n = fds w !! n.
Proof.
  revert i w args in_fd out_fd.
  induction fuel as [|fuel IH]; intros i w args in_fd out_fd.
  { simpl. exists []. by rewrite app_nil_r. }
  assert (∀ path fl (k : world → Z → world * cells * Z * Z),
    (∀ w2 fd, ∃ evs, trace (k w2 fd).1.1.1 = trace w2 ++ evs
       ∧ ∀ n, (∀ path fl, EvOpen path fl (Z.of_nat n) ∉ evs) →
              fds (k w2 fd).1.1.1 !! n = fds w2 !! n) →
    let w' := (let '(w1, fd) := sys_open E w path fl in
               k (if fd <? 0 then perror "shell" w1 else w1) fd).1.1.1 in
    ∃ evs, trace w' = trace w ++ evs
      ∧ ∀ n, (∀ path fl, EvOpen path fl (Z.of_nat n) ∉ evs) →
             fds w' !! n = fds w !! n) as Hstep.
  { intros path fl k Hk.
    destruct (sys_open_cases E w path fl)
      as (w1 & fd & -> & Htr & _ & [[-> Hfds]|(n & p & -> & -> & Hn & _ & Hfds)]).
    - change (-1 <? 0) with true. cbv iota zeta.
      destruct (Hk (perror "shell" w1) (-1)) as (evs & T & Hev).
      exists (EvOpen path fl (-1) :: EvPerror "shell" :: evs).
      rewrite T. simpl. rewrite Htr, <- !app_assoc. split; [done|].
      intros n Hn. rewrite Hev; [simpl; by rewrite Hfds|]. intros path' fl' Hin.
      apply (Hn path' fl'). by do 2 right.
    - destruct (Z.ltb_spec (Z.of_nat n) 0); [lia|]. cbv zeta.
      destruct (Hk w1 (Z.of_nat n)) as (evs & T & Hev).
      exists (EvOpen (Some p) fl (Z.of_nat n) :: evs).
      rewrite T, Htr, <- !app_assoc. split; [done|].
      intros n' Hn'. rewrite Hev.
      + rewrite Hfds, lookup_insert_ne; [done|]. intros ->.
        apply (Hn' (Some p) fl). by left.
      + intros path' fl' Hin. apply (Hn' path' fl'). by right. }
  simpl. destruct (cell args i) as [a|].
  - destruct (streq a ">").
    + apply (Hstep _ _ (λ w2 fd, handle_redirection_from E fuel (S i) w2 _ in_fd fd)).
      intros w2 fd. apply IH.
    + destruct (streq a "<"); [|apply IH].
      apply (Hstep _ _ (λ w2 fd, handle_redirection_from E fuel (S i) w2 _ fd out_fd)).
      intros w2 fd. apply IH.
  - simpl. exists []. by rewrite app_nil_r.
Qed.

End WithEnv.

Lemma returned_by (outs : list outcome) k :
  existsb (λ o, o.2 =? Z.of_nat k) outs = true
  ↔ ∃ path fl, EvOpen path fl (Z.of_nat k) ∈ concat (open_events <$> outs).
Proof.
  induction outs as [|[[path fl] fd] outs IH].
  { split; [done|]. by intros (? & ? & ?%elem_of_nil). }
  rewrite fmap_cons. cbn [concat existsb snd]. rewrite orb_true_iff, IH. split.
  - intros [->%Z.eqb_eq|(path' & fl' & Hin)].
    + exists path, fl. apply elem_of_app. left. by left.
    + exists path', fl'. apply elem_of_app. by right.
  - intros (path' & fl' & [Hin|Hin]%elem_of_app).
    + left. unfold open_events in Hin. simpl in Hin.
      apply elem_of_cons in Hin as [[= _ _ <-]|Hin]; [by apply Z.eqb_refl|].
      destruct (fd <? 0); [|by apply elem_of_nil in Hin].
      apply elem_of_cons in Hin as [?|Hin]; [done | by apply elem_of_nil in Hin].
    + right. by exists path', fl'.
Qed.

End BalanceFacts.

(** X13.  After an external command without [|], every descriptor of the
    shell other than 0 and 1 is as it was before the line, with one
    exception: a descriptor returned by an [open] of the resolver that is
    not what the input or the output variable ended with, that is, the file
    of a [<] or [>] that is followed by another operator of its kind, is
    still open on that file.  The two saved descriptors and the two
    descriptors that were bound to the standard streams are closed again. *)
Theorem external_command_leaves_strays_open
    (E : env) (w : world) (toks : list string) (name : string) :
  head toks = Some name → name ∉ Builtins.builtin_str →
  Spec.count_pipes toks = 0%nat →
  let r := Executor.execute_command E w (mk_args toks) in
  let outs := Notions.opens (Notions.since (trace w) r.1) in
  ∀ k, k ≠ 0%nat → k ≠ 1%nat →
    if Notions.stray outs k
    then fds w !! k = None
         ∧ ∃ p fl s, (Some p, fl, Z.of_nat k) ∈ outs ∧ fds r.1 !! k = Some (File p fl s)
    else fds r.1 !! k = fds w !! k.
Proof.
  intros Hhead Hname Hcount r outs k H0 H1. subst outs r.
  rewrite (DispatchFacts.execute_command_external E w toks name) by done.
  pose proof (DispatchFacts.trace_sys_dup E w 0) as Htr1.
  pose proof (BalanceFacts.sys_dup_at E w 0 k) as [D1a D1b].
  pose proof (BalanceFacts.sys_dup_free E w 0 k) as D1c.
  destruct (sys_dup E w 0) as [w1 s0]. cbn [fst snd] in *.
  pose proof (DispatchFacts.trace_sys_dup E w1 1) as Htr2.
  pose proof (BalanceFacts.sys_dup_at E w1 1 k) as [D2a D2b].
  pose proof (BalanceFacts.sys_dup_free E w1 1 k) as D2c.
  pose proof (λ x, PipeRun.sys_dup_keeps E w1 1 k x) as D2d.
  destruct (sys_dup E w1 1) as [w2 s1]. cbn [fst snd] in *.
  destruct (RedirFacts.handle_redirection_spec E toks w2 (-1) (-1))
    as (w3 & in' & out' & outs & Hrun & Hreq & Htr3 & _ & Hsub & Hin & Hout & Hopened).
  pose proof (RedirectFacts.handle_redirection_from_bindings E
                (length (mk_args toks)) 0 w2 (mk_args toks) (-1) (-1)) as Hb.
  pose proof (BalanceFacts.handle_redirection_from_others E
                (length (mk_args toks)) 0 w2 (mk_args toks) (-1) (-1)) as Ho.
  fold (Executor.handle_redirection E w2 (mk_args toks) (-1) (-1)) in Hb, Ho.
  rewrite Hrun in *. cbn [fst] in Hb, Ho.
  destruct Hb as (_ & revs & T & Hev). rewrite Htr3 in T. apply app_inv_head in T as <-.
  destruct Ho as (revs & T & Hoth). rewrite Htr3 in T. apply app_inv_head in T as <-.
  destruct (DispatchFacts.launch_process_spec E
              (Spec.redirect_streams w3 in' out') (Spec.blank toks))
    as (w4 & levs & -> & Htr4 & Hfds4 & _ & Hlaunch).
  cbn [fst]. unfold Notions.since.
  rewrite DispatchFacts.trace_restore_streams, Htr4, DispatchFacts.trace_redirect_streams.
  rewrite Htr3, Htr2, Htr1, <- app_assoc, drop_app_length.
  rewrite RedirectFacts.opens_app, (proj1 (RedirectFacts.opens_open_events outs)).
  rewrite (proj1 (RedirectView.launch_events_calls _ _ _ Hlaunch)).
  rewrite app_nil_r.
  rewrite BalanceFacts.restore_streams_at, Hfds4, BalanceFacts.redirect_streams_at by done.
  (* a descriptor variable that is not -1 was free before the resolver *)
  assert (∀ fl, Z.of_nat k = Spec.pick fl (-1) outs → fds w2 !! k = None) as Hpick.
  { intros fl Hk.
    destruct (StreamFacts.pick_opened fl outs _ _ Hopened) as [Hp|(n & Hp & Hn & _)];
      rewrite Hp in Hk; [lia|]. by apply Nat2Z.inj in Hk as ->. }
  unfold Notions.stray. rewrite <- Hin, <- Hout.
  destruct (existsb (λ o, o.2 =? Z.of_nat k) outs) eqn:Hex; cbn [andb].
  - apply existsb_exists in Hex as (o & Hino & Hfd%Z.eqb_eq).
    apply list_elem_of_In in Hino. destruct o as [[path fl] fd]. cbn [snd] in Hfd. subst fd.
    rewrite Forall_forall in Hopened.
    destruct (Hopened _ Hino) as [?|(n & Hn & Hfree & _)]; [simpl in *; lia|].
    cbn [snd] in Hn. apply Nat2Z.inj in Hn as <-.
    destruct (Hev path fl k) as (p & s & -> & Hk3).
    { by apply (RedirectFacts.open_events_elem (path, fl, Z.of_nat k)). }
    assert (Z.of_nat k ≠ s1) as Hs1.
    { intros Heq. destruct (D2a Heq) as [_ [x Hx]]. by rewrite Hfree in Hx. }
    assert (Z.of_nat k ≠ s0) as Hs0.
    { intros Heq. destruct (D1a Heq) as [_ [x Hx]].
      by rewrite (D2d x Hx) in Hfree. }
    destruct (Z.eqb_spec (Z.of_nat k) s0); [done|].
    destruct (Z.eqb_spec (Z.of_nat k) s1); [done|]. cbn [orb].
    assert (fds w !! k = None) as Hw by (by apply D1c, D2c).
    destruct (Z.eqb_spec (Z.of_nat k) in'), (Z.eqb_spec (Z.of_nat k) out');
      cbn [orb negb andb]; try done.
    split; [done|]. by exists p, fl, s.
  - assert (fds w3 !! k = fds w2 !! k) as Hk3.
    { apply Hoth. intros path fl Hin'.
      assert (existsb (λ o : Spec.outcome, o.2 =? Z.of_nat k) outs = true) as Hex'
        by (apply BalanceFacts.returned_by; by exists path, fl).
      by rewrite Hex in Hex'. }
    destruct (Z.eqb_spec (Z.of_nat k) s0) as [Hs0|Hs0]; cbn [orb].
    { symmetry. by apply D1a. }
    destruct (Z.eqb_spec (Z.of_nat k) s1) as [Hs1|Hs1].
    { symmetry. apply D1c. by apply D2a. }
    destruct (Z.eqb_spec (Z.of_nat k) in') as [Hi|Hi]; cbn [orb].
    { symmetry. apply D1c, D2c. apply (Hpick O_RDONLY). by rewrite <- Hin. }
    destruct (Z.eqb_spec (Z.of_nat k) out') as [Hou|Hou].
    { symmetry. apply D1c, D2c. apply (Hpick O_WRONLY_CREAT_TRUNC). by rewrite <- Hout. }
    by rewrite Hk3, D2b, D1b.
Qed.

(** X13 at work: after [cat < a < b > out] descriptor 5, opened for [a],
    is still open; 6 and 7, opened for [b] and [out], are free again. *)
Lemma external_command_leaves_strays_open_witness :
  let r := Executor.execute_command Run.granting Run.fresh
             (mk_args ["cat"; "<"; "a"; "<"; "b"; ">"; "out"]) in
  (∃ p fl s, (Some p, fl, 5) ∈ Notions.opens (trace r.1)
             ∧ fds r.1 !! 5%nat = Some (File p fl s))
  ∧ fds r.1 !! 6%nat = None ∧ fds r.1 !! 7%nat = None.
Proof.
  intros r.
  pose proof (external_command_leaves_strays_open Run.granting Run.fresh
                ["cat"; "<"; "a"; "<"; "b"; ">"; "out"] "cat"
                eq_refl ltac:(not_in_list) eq_refl) as H.
  split; [exact (proj2 (H 5%nat ltac:(lia) ltac:(lia)))|].
  split; [exact (H 6%nat ltac:(lia) ltac:(lia)) | exact (H 7%nat ltac:(lia) ltac:(lia))].
Defined.

(** X14.  On a line with [|] the operators [<] and [>] are not interpreted:
    whatever the tokens and whatever fails, no file is opened, and the
    history is left alone.  (The operators and the names after them stay in
    the stage they stand in, and reach its program as arguments.) *)
Theorem pipeline_never_opens_a_file (E : env) (w : world) (toks : list string) :
  (0 < Spec.count_pipes toks)%nat →
  let r := Executor.execute_command E w (mk_args toks) in
  Notions.opens (Notions.since (trace w) r.1) = []
  ∧ history r.1 = history w.
Proof.
  intros Hpos r. subst r. split; [|apply LineFacts.execute_command_history].
  rewrite (DispatchFacts.execute_command_pipeline E w toks Hpos).
  destruct (PipeRun.execute_pipeline_outcome E (sys_dup E (sys_dup E w 0).1 1).1
              (Executor.split_pipeline (mk_args toks)).1
              (Executor.split_pipeline (mk_args toks)).2
              (Spec.count_pipes toks + 1)) as (ks & evs & T & _ & _ & O & _); [lia|].
  unfold Notions.since.
  by rewrite T, !DispatchFacts.trace_sys_dup, drop_app_length.
Qed.

(** X14 at work: [ls | wc > out] opens nothing, and [wc] is handed [>] and
    [out]. *)
Lemma pipeline_never_opens_a_file_witness :
  let evs := trace (Executor.execute_command Run.granting Run.fresh
                      (mk_args ["ls"; "|"; "wc"; ">"; "out"])).1 in
  Notions.opens evs = []
  ∧ Wiring.execs evs
    = [(Some "ls", ["ls"], Some (Tty 0), Some (PipeWr 0));
       (Some "wc", ["wc"; ">"; "out"], Some (PipeRd 0), Some (Tty 1))].
Proof.
  intros evs. split; [|reflexivity].
  apply (proj1 (pipeline_never_opens_a_file Run.granting Run.fresh
                  ["ls"; "|"; "wc"; ">"; "out"] ltac:(vm_compute; lia))).
Defined.

Module HistoryListing.

Import History Notions.

Lemma print_history_from_trace i h w :
  trace (print_history_from i h w)
  = trace w ++ imap (λ j l, EvPrintf ("%d %s" +:+ NL) [PInt (i + Z.of_nat j + 1); PStr l]) h
  ∧ history (print_history_from i h w) = history w.
Proof.
  revert i w. induction h as [|l h IH]; intros i w.
  { simpl. by rewrite app_nil_r. }
  cbn [print_history_from imap]. destruct (IH (i + 1) (printf ("%d %s" +:+ NL)
                                                     [PInt (i + 1); PStr l] w)) as [-> ->].
  split; [|done]. simpl. rewrite <- app_assoc. simpl. rewrite Z.add_0_r.
  do 2 f_equal. apply imap_ext. intros j x _. simpl. do 3 f_equal. lia.
Qed.

Lemma add_history_last line w :
  ∃ pre, history (add_history line w) = pre ++ [c_str line].
Proof. unfold add_history. destruct (_ <? _)%nat; by eexists. Qed.

End HistoryListing.

(** X15.  A line whose first token is [history] (and that has no [|]) is
    recorded before it is run, so the list it prints ends with that very
    line: the output is one [printf] per entry of the history as it stands
    after recording, numbered from 1, in order (at most [HISTORY_SIZE]
    entries, the oldest dropped first), and the shell continues. *)
Theorem history_lists_the_line_that_asks
    (E : env) (w : world) (line : string) :
  head (Spec.runs EmptyString line) = Some "history" →
  Spec.count_pipes (Spec.runs EmptyString line) = 0%nat →
  (length (history w) ≤ History.HISTORY_SIZE)%nat →
  let r := Main.shell_round E w line in
  let h := Notions.keep_last History.HISTORY_SIZE (history w ++ [c_str line]) in
  history r.1 = h
  ∧ Notions.since (trace w) r.1
    = imap (λ j l, EvPrintf ("%d %s" +:+ NL) [PInt (Z.of_nat j + 1); PStr l]) h
  ∧ (∃ pre, h = pre ++ [c_str line])
  ∧ r.2 = 1.
Proof.
  intros Hhead Hcount Hl r h. subst r h. unfold Main.shell_round.
  assert (c_str line ≠ EmptyString) as Hne.
  { intros He. rewrite <- ParserFacts.runs_c_str, He in Hhead. done. }
  rewrite bool_decide_eq_true_2 by done.
  rewrite ParserFacts.parse_input_runs.
  rewrite (BuiltinFacts.execute_command_builtin E _ _ "history" Builtins.shell_history)
    by done.
  unfold Builtins.shell_history, History.print_history. cbn [fst snd].
  destruct (HistoryListing.print_history_from_trace 0
              (history (sys_dup E (sys_dup E (History.add_history line w) 0).1 1).1)
              (sys_dup E (sys_dup E (History.add_history line w) 0).1 1).1) as [T Hh].
  unfold Notions.since. rewrite Hh, T, !LineFacts.history_sys_dup.
  rewrite !DispatchFacts.trace_sys_dup, (proj2 (HistoryFacts.add_history_frame line w)).
  rewrite drop_app_length, <- HistoryFacts.add_history_keep_last by done.
  split; [done|]. split; [done|]. split; [|done].
  apply HistoryListing.add_history_last.
Qed.

(** X15 at work: after [ls], the line [history] lists [ls] and itself. *)
Lemma history_lists_the_line_that_asks_witness :
  trace (Main.shell_round Run.granting (Run2.with_history ["ls" +:+ NL])
           ("history" +:+ NL)).1
  = [EvPrintf ("%d %s" +:+ NL) [PInt 1; PStr ("ls" +:+ NL)];
     EvPrintf ("%d %s" +:+ NL) [PInt 2; PStr ("history" +:+ NL)]].
Proof.
  apply (proj1 (proj2 (history_lists_the_line_that_asks Run.granting
                         (Run2.with_history ["ls" +:+ NL]) ("history" +:+ NL)
                         eq_refl eq_refl ltac:(vm_compute; lia)))).
Defined.

Module HelpFacts.

Import Builtins Executor.

Lemma print_names_trace names w :
  trace (print_names names w)
  = trace w ++ ((λ n, EvPrintf ("  %s" +:+ NL) [PStr n]) <$> names).
Proof.
  revert w. induction names as [|n names IH]; intros w; simpl.
  { by rewrite app_nil_r. }
  rewrite IH. simpl. by rewrite <- app_assoc.
Qed.

Lemma find_builtin_registered name :
  is_Some (find_builtin name builtin_str builtin_func) ↔ name ∈ builtin_str.
Proof.
  split.
  - intros [f Hf]. destruct (decide (name ∈ builtin_str)) as [|Hn]; [done|].
    by rewrite DispatchFacts.find_builtin_None in Hf.
  - unfold builtin_str, builtin_func, find_builtin, streq. intros Hin.
    repeat match goal with
           | |- context [String.eqb name ?s] =>
               destruct (String.eqb_spec name s) as [->|?]; [by eexists|]
           end.
    repeat match goal with
           | H : name ∈ _ :: _ |- _ => apply elem_of_cons in H as [->|H]; [done|]
           end.
    by apply elem_of_nil in Hin.
Qed.

End HelpFacts.

(** X16.  The two tables of built-ins agree with each other and with
    [help]: they have the same length; a name selects a handler exactly
    when it is in the table of names; and [help] prints, between its
    heading and its closing line, one line for exactly these names, in the
    order of the table. *)
Theorem help_lists_what_dispatches (E : env) (w : world) (args : cells) :
  length Builtins.builtin_func = Builtins.shell_num_builtins
  ∧ (∀ name,
       is_Some (Executor.find_builtin name Builtins.builtin_str Builtins.builtin_func)
       ↔ name ∈ Builtins.builtin_str)
  ∧ (∃ heading closing,
       Notions.since (trace w) (Builtins.shell_help E w args).1
       = heading
         ++ ((λ n, EvPrintf ("  %s" +:+ NL) [PStr n]) <$> Builtins.builtin_str)
         ++ [closing]
       ∧ ∀ n, EvPrintf ("  %s" +:+ NL) [PStr n] ∉ heading ++ [closing])
  ∧ (∀ name,
       EvPrintf ("  %s" +:+ NL) [PStr name]
       ∈ Notions.since (trace w) (Builtins.shell_help E w args).1
       ↔ name ∈ Builtins.builtin_str).
Proof.
  split; [done|]. split; [apply HelpFacts.find_builtin_registered|].
  assert (∃ heading closing,
    Notions.since (trace w) (Builtins.shell_help E w args).1
    = heading
      ++ ((λ n, EvPrintf ("  %s" +:+ NL) [PStr n]) <$> Builtins.builtin_str)
      ++ [closing]
    ∧ ∀ n, EvPrintf ("  %s" +:+ NL) [PStr n] ∉ heading ++ [closing])
    as (heading & closing & T & Hnot).
  { unfold Builtins.shell_help, Notions.since. cbn [fst]. unfold printf at 1.
    cbn [trace emit]. rewrite HelpFacts.print_names_trace. unfold printf.
    cbn [trace emit]. rewrite <- !app_assoc, drop_app_length.
    eexists [_; _; _], _. split; [done|].
    intros n Hin. repeat (apply elem_of_cons in Hin as [Hin|Hin]; [done|]).
    by apply elem_of_nil in Hin. }
  split; [by exists heading, closing|].
  intros name. rewrite T. split.
  - intros [Hin|[Hin|Hin]%elem_of_app]%elem_of_app.
    + exfalso. apply (Hnot name). apply elem_of_app. by left.
    + apply list_elem_of_fmap in Hin as (n & [= ->] & Hn). done.
    + exfalso. apply (Hnot name). apply elem_of_app. by right.
  - intros Hin. apply elem_of_app. right. apply elem_of_app. left.
    apply list_elem_of_fmap. by exists name.
Qed.

Module PlainLine.

Import Spec.

(** Tokens none of which is an operator. *)
Lemma plain_tokens toks :
  Forall (λ t, t ≠ "|" ∧ t ≠ "<" ∧ t ≠ ">") toks →
  count_pipes toks = 0%nat ∧ redir_requests toks = [] ∧ before_redir toks = toks.
Proof.
  induction 1 as [|t toks (Hp & Hl & Hg) _ (IH1 & IH2 & IH3)]; [done|].
  rewrite SplitFacts.count_pipes_cons. simpl.
  unfold is_pipe, is_redir, streq.
  destruct (String.eqb_spec t "|"); [done|].
  destruct (String.eqb_spec t ">"); [done|].
  destruct (String.eqb_spec t "<"); [done|].
  simpl. by rewrite IH1, IH2, IH3.
Qed.

End PlainLine.

(** X17.  The operators are recognised only as tokens of their own.  A
    line whose first token is not a built-in and in which [|], [<] and [>]
    occur, if at all, only inside longer tokens (as in [a|b] or [2>err]) is
    run, by a shell whose descriptors 0 and 1 are open, as one external
    command: no pipe is made and no file opened, and if the [fork] succeeds
    the program named by the first token is launched once, with all the
    tokens of the line as its arguments and the standard streams of the
    shell. *)
Theorem operators_must_stand_alone
    (E : env) (w : world) (line : string) (name : string) (tin tout : target) :
  let toks := Spec.runs EmptyString line in
  head toks = Some name → name ∉ Builtins.builtin_str →
  Forall (λ t, t ≠ "|" ∧ t ≠ "<" ∧ t ≠ ">") toks →
  fds w !! 0%nat = Some tin → fds w !! 1%nat = Some tout →
  let r := Main.shell_round E w line in
  let evs := Notions.since (trace w) r.1 in
  Notions.opens evs = [] ∧ Wiring.made evs = []
  ∧ ((Spec.forks evs = [false] ∧ Wiring.execs evs = [])
     ∨ (Spec.forks evs = [true]
        ∧ Wiring.execs evs = [(Some name, toks, Some tin, Some tout)])).
Proof.
  intros toks Hhead Hname Hplain H0 H1 r evs. subst evs r.
  destruct (PlainLine.plain_tokens toks Hplain) as (Hcount & Hreq & Hbefore).
  unfold Main.shell_round. rewrite ParserFacts.parse_input_runs. fold toks.
  set (w' := if bool_decide (c_str line ≠ EmptyString)
             then History.add_history line w else w).
  assert (fds w' = fds w ∧ trace w' = trace w) as [Hf' Ht'].
  { subst w'. destruct (bool_decide _); [apply HistoryFacts.add_history_frame | done]. }
  rewrite <- Hf' in H0, H1. rewrite <- Ht'. clearbody w'.
  rewrite (DispatchFacts.execute_command_external E w' toks name) by done.
  pose proof (DispatchFacts.trace_sys_dup E w' 0) as Htr1.
  pose proof (PipeRun.sys_dup_keeps E w' 0 _ _ H0) as H01.
  pose proof (PipeRun.sys_dup_keeps E w' 0 _ _ H1) as H11.
  destruct (sys_dup E w' 0) as [w1 saved_stdin]. cbn [fst] in *.
  pose proof (DispatchFacts.trace_sys_dup E w1 1) as Htr2.
  pose proof (PipeRun.sys_dup_keeps E w1 1 _ _ H01) as H02.
  pose proof (PipeRun.sys_dup_keeps E w1 1 _ _ H11) as H12.
  destruct (sys_dup E w1 1) as [w2 saved_stdout]. cbn [fst] in *.
  destruct (RedirFacts.handle_redirection_spec E toks w2 (-1) (-1))
    as (w3 & in' & out' & outs & -> & Hreq' & Htr3 & _ & Hsub & -> & -> & _).
  rewrite Hreq in Hreq'. apply fmap_nil_inv in Hreq' as ->.
  cbn [Spec.pick]. rewrite StreamFacts.redirect_streams_none.
  simpl in Htr3. rewrite app_nil_r in Htr3.
  destruct (DispatchFacts.launch_process_spec E w3 (Spec.blank toks))
    as (w4 & levs & -> & Htr4 & _ & _ & Hlaunch).
  cbn [fst]. unfold Notions.since.
  rewrite DispatchFacts.trace_restore_streams, Htr4, Htr3, Htr2, Htr1, drop_app_length.
  destruct (RedirectView.launch_events_calls _ _ _ Hlaunch)
    as (-> & -> & [[-> ->]|[-> ->]]); (split; [done|]; split; [done|]);
    [by left | right].
  rewrite PipeRun.cell_head_argv, argv_at_0, RedirFacts.argv_of_blank, Hbefore, Hhead.
  unfold tbl_get. change (0 <? 0) with false. change (1 <? 0) with false. cbv iota.
  change (Z.to_nat 0) with 0%nat. change (Z.to_nat 1) with 1%nat.
  by rewrite (lookup_weaken _ _ _ _ H02 Hsub), (lookup_weaken _ _ _ _ H12 Hsub).
Qed.

(** X17 at work: [ls|wc] is the name of one program. *)
Lemma operators_must_stand_alone_witness :
  Wiring.execs (trace (Main.shell_round Run.granting Run.fresh
                         ("ls|wc 2>err" +:+ NL)).1)
  = [(Some "ls|wc", ["ls|wc"; "2>err"], Some (Tty 0), Some (Tty 1))].
Proof.
  destruct (operators_must_stand_alone Run.granting Run.fresh ("ls|wc 2>err" +:+ NL)
              "ls|wc" (Tty 0) (Tty 1) eq_refl ltac:(not_in_list)
              ltac:(repeat constructor; discriminate) eq_refl eq_refl)
    as (_ & _ & [[H _]|[_ H]]); [discriminate H | exact H].
Defined.

(** X18.  [load_history] on a file of lines, each ended by a newline (and
    free of NUL): the lines, without their newlines, are appended to the
    history in the order of the file, and of the old entries and the lines
    together the last [HISTORY_SIZE] are kept.  The file is opened once, for
    reading, and closed again; nothing else happens. *)
Theorem load_history_appends_the_lines
    (E : env) (H : HistoryFile.host) (w : world) (path : string) (ps : list string) :
  HistoryFile.history_path H = Some path →
  Forall (λ p, Notions.plain p = true) ps →
  file_bytes E (trace w) path = Notions.file_of ps →
  0 ≤ (sys_open E w (Some path) O_RDONLY).2 →
  (length (history w) ≤ History.HISTORY_SIZE)%nat →
  history (HistoryFile.load_history E H w)
  = Notions.keep_last History.HISTORY_SIZE (history w ++ ps)
  ∧ fds (HistoryFile.load_history E H w) = fds w
  ∧ trace (HistoryFile.load_history E H w)
    = trace w ++ [EvOpen (Some path) O_RDONLY (sys_open E w (Some path) O_RDONLY).2].
Proof.
  intros Hpath Hps Hbytes Hok Hl.
  split; [|split; [apply HistoryFileEdges.load_history_fds|]].
  - rewrite (HistoryFileFacts.load_history_lines E H w path ps) by done.
    rewrite HistoryFacts.record_all_keep_last by done. cbn [history set_history].
    do 2 f_equal. clear -Hps. induction Hps as [|p ps Hp _ IH]; [done|].
    by rewrite fmap_cons, IH, HistoryFileFacts.c_str_plain.
  - unfold HistoryFile.load_history. rewrite Hpath.
    destruct (SysFacts.sys_open_cases E w (Some path) O_RDONLY)
      as (w1 & fd & Hopen & Htr & _). rewrite Hopen in *. cbn [snd] in *.
    destruct (Z.ltb_spec fd 0); [lia|].
    rewrite DispatchFacts.trace_sys_close.
    by rewrite (proj2 (HistoryFileFacts.load_loop_frame _ _ w1)).
Qed.

(** X18 at work: a file of 101 lines read into an empty history; the first
    line is dropped. *)
Lemma load_history_appends_the_lines_witness :
  let ps := "first" :: replicate 100 "ls" in
  history (HistoryFile.load_history (Run2.holding (Notions.file_of ps))
             Run2.at_home Run.fresh)
  = replicate 100 "ls".
Proof.
  intros ps.
  apply (proj1 (load_history_appends_the_lines (Run2.holding (Notions.file_of ps))
                  Run2.at_home Run.fresh "/home/u/.shell_history" ps
                  eq_refl ltac:(by vm_compute; repeat constructor) eq_refl
                  ltac:(by vm_compute) ltac:(vm_compute; lia))).
Defined.
